(** * MEXC screener: indicator engine, cache, alert composition, scheduling

    A shallow embedding of [mexc_rsi_screener.py] and [web_app.py].

    Conventions of the embedding.
    - Python floats are idealised as exact rationals ([Qc], canonical
      fractions with Leibniz equality).  Every arithmetic operation of the
      source is kept, in the source's order; rounding is not modelled.
    - Periods, lengths and counts are natural numbers; timestamps and
      timeframes are integers ([Z]).
    - A Python exception is a value of the error monad [py]; the [None]
      sentinel of the indicator functions is [Return None].
    - Dictionaries keyed by symbol are [gmap string _]. *)

From Stdlib Require Import QArith Qcanon ZArith Lia List.
From Stdlib Require Qcabs.
From stdpp Require Import base numbers gmap strings list fin_maps pretty.

Local Open Scope Qc_scope.

(** ** Python values and exceptions *)

Inductive pyexn : Set :=
  | ZeroDivisionError
  | IndexError
  | TypeError
  | ValueError
  | LinAlgError
  | QueueFull.

Inductive py (A : Type) : Type :=
  | Return (a : A)
  | Raise (e : pyexn).
Arguments Return {A} a.
Arguments Raise {A} e.

Global Instance py_ret : MRet py := fun A a => Return a.
Global Instance py_bind : MBind py := fun A B f m =>
  match m with
  | Return a => f a
  | Raise e => Raise e
  end.

Definition Qc_of_nat (n : nat) : Qc := Qc_of_Z (Z.of_nat n).

(** [x / n] for an integer divisor [n]: Python raises on [n == 0]. *)
Definition py_div (x : Qc) (n : nat) : py Qc :=
  match n with
  | O => Raise ZeroDivisionError
  | S _ => Return (x / Qc_of_nat n)
  end.

(** The builtin [sum]: a left fold that starts from [0]. *)
Definition py_sum (l : list Qc) : Qc := fold_left Qcplus l 0.

(** The builtins [max] and [min] on two numbers. *)
Definition py_max (x y : Qc) : Qc := if bool_decide (x < y) then y else x.
Definition py_min (x y : Qc) : Qc := if bool_decide (y < x) then y else x.

(** [l[-n:]]: the last [n] items; [l[-0:]] is the whole list. *)
Definition py_last_n {A} (n : nat) (l : list A) : list A :=
  match n with
  | O => l
  | S _ => drop (length l - n) l
  end.

(** ** Indicator library *)

(** [calculate_rsi(prices, period)].  The first division by [period]
    raises when [period == 0]; the later divisions by the same [period]
    cannot, and [avg_gain / avg_loss] is guarded by the test before it. *)
Definition rsi_deltas (prices : list Qc) : list Qc :=
  map (fun i => nth i prices 0 - nth (i - 1) prices 0)
      (seq 1 (length prices - 1)).

Definition rsi_gains (deltas : list Qc) : list Qc :=
  map (fun d => if bool_decide (0 < d) then d else 0) deltas.

Definition rsi_losses (deltas : list Qc) : list Qc :=
  map (fun d => if bool_decide (d < 0) then - d else 0) deltas.

Definition rsi_value (avg_gain avg_loss : Qc) : Qc :=
  if bool_decide (avg_loss = 0) then Qc_of_Z 100
  else
    let rs := avg_gain / avg_loss in
    Qc_of_Z 100 - Qc_of_Z 100 / (1 + rs).

Definition calculate_rsi (prices : list Qc) (period : nat) : py (option Qc) :=
  if bool_decide (length prices < period + 1)%nat then Return None
  else
    let deltas := rsi_deltas prices in
    let gains := rsi_gains deltas in
    let losses := rsi_losses deltas in
    avg_gain ← py_div (py_sum (take period gains)) period;
    avg_loss ← py_div (py_sum (take period losses)) period;
    let '(avg_gain, avg_loss) :=
      fold_left
        (fun '(avg_gain, avg_loss) i =>
           ((avg_gain * (Qc_of_nat period - 1) + nth i gains 0) / Qc_of_nat period,
            (avg_loss * (Qc_of_nat period - 1) + nth i losses 0) / Qc_of_nat period))
        (seq period (length prices - 1 - period))
        (avg_gain, avg_loss) in
    Return (Some (rsi_value avg_gain avg_loss)).

(** [calculate_ema(prices, period)]. *)
Definition calculate_ema (prices : list Qc) (period : nat) : py (option Qc) :=
  if bool_decide (length prices < period + 20)%nat then Return None
  else
    let multiplier := Qc_of_Z 2 / Qc_of_nat (period + 1) in
    ema ← py_div (py_sum (take period prices)) period;
    Return (Some (fold_left
                    (fun ema price => (price - ema) * multiplier + ema)
                    (drop period prices) ema)).

(** The true-range series shared, with identical code, by [calculate_atr]
    and [compute_atr_series]: one value for each [i] in
    [range(1, len(closes))].  [highs[i]] and [lows[i]] raise when the list
    is shorter than [closes]. *)
Definition py_index (l : list Qc) (i : nat) : py Qc :=
  match l !! i with
  | Some x => Return x
  | None => Raise IndexError
  end.

Definition true_range (highs lows closes : list Qc) (i : nat) : py Qc :=
  h ← py_index highs i;
  l ← py_index lows i;
  c ← py_index closes (i - 1);
  Return (py_max (py_max (h - l) (Qcabs.Qcabs (h - c))) (Qcabs.Qcabs (l - c))).

Definition true_ranges (highs lows closes : list Qc) : py (list Qc) :=
  mapM (true_range highs lows closes) (seq 1 (length closes - 1)).

Definition wilder_step (period : nat) (avg x : Qc) : Qc :=
  (avg * (Qc_of_nat period - 1) + x) / Qc_of_nat period.

(** [calculate_atr(highs, lows, closes, period)]. *)
Definition calculate_atr (highs lows closes : list Qc) (period : nat)
  : py (option Qc) :=
  if bool_decide (length closes < period + 1)%nat then Return None
  else
    trs ← true_ranges highs lows closes;
    if bool_decide (length trs < period)%nat then Return None
    else
      atr ← py_div (py_sum (take period trs)) period;
      Return (Some (fold_left
                      (fun atr i => wilder_step period atr (nth i trs 0))
                      (seq period (length trs - period)) atr)).

(** [compute_atr_series(highs, lows, closes, period)]: every smoothed
    value, oldest first; the empty list when the data is too short. *)
Definition compute_atr_series (highs lows closes : list Qc) (period : nat)
  : py (list Qc) :=
  if bool_decide (length closes < period + 1)%nat then Return []
  else
    trs ← true_ranges highs lows closes;
    if bool_decide (length trs < period)%nat then Return []
    else
      atr ← py_div (py_sum (take period trs)) period;
      Return (snd (fold_left
                     (fun '(atr, atr_values) i =>
                        let atr := wilder_step period atr (nth i trs 0) in
                        (atr, atr_values ++ (atr :: nil)))
                     (seq period (length trs - period)) (atr, atr :: nil))).

(** [max(...)] and [min(...)] of a slice: [ValueError] on an empty one. *)
Definition py_max_list (l : list Qc) : py Qc :=
  match l with
  | [] => Raise ValueError
  | x :: l => Return (fold_left py_max l x)
  end.

Definition py_min_list (l : list Qc) : py Qc :=
  match l with
  | [] => Raise ValueError
  | x :: l => Return (fold_left py_min l x)
  end.

(** [l[i - w + 1 : i + 1]] for [w - 1 <= i]. *)
Definition window {A} (w i : nat) (l : list A) : list A :=
  take w (drop (i + 1 - w) l).

(** The trailing simple moving average of width [w]: one value for each
    [i] in [range(w - 1, len(l))].  With [w == 0] the range starts at [-1],
    where the slice is empty and the division by [w] raises. *)
Definition sma_series (w : nat) (l : list Qc) : py (list Qc) :=
  match w with
  | O => Raise ZeroDivisionError
  | S _ =>
      Return (map (fun i => py_sum (window w i l) / Qc_of_nat w)
                  (seq (w - 1) (length l - (w - 1))))
  end.

Definition raw_k (highs lows closes : list Qc) (k_period i : nat) : py Qc :=
  highest_high ← py_max_list (window k_period i highs);
  lowest_low ← py_min_list (window k_period i lows);
  if bool_decide (highest_high = lowest_low) then Return (Qc_of_Z 100)
  else
    Return ((nth i closes 0 - lowest_low) / (highest_high - lowest_low)
            * Qc_of_Z 100).

(** [calculate_stochastic(highs, lows, closes, k_period, k_smooth,
    d_smooth)]: the latest [(%K, %D)], or [None] for [(None, None)].
    With [k_period == 0] the first window is the empty slice, whose [max]
    raises. *)
Definition calculate_stochastic (highs lows closes : list Qc)
    (k_period k_smooth d_smooth : nat) : py (option (Qc * Qc)) :=
  let min_needed := (k_period + k_smooth + d_smooth - 2)%nat in
  if bool_decide (length closes < min_needed)%nat then Return None
  else
    raw_k_values ←
      match k_period with
      | O => Raise ValueError
      | S _ => mapM (raw_k highs lows closes k_period)
                    (seq (k_period - 1) (length closes - (k_period - 1)))
      end;
    if bool_decide (length raw_k_values < k_smooth)%nat then Return None
    else
      smoothed_k_values ← sma_series k_smooth raw_k_values;
      if bool_decide (length smoothed_k_values < d_smooth)%nat then Return None
      else
        d_values ← sma_series d_smooth smoothed_k_values;
        match last smoothed_k_values, last d_values with
        | Some k, Some d => Return (Some (k, d))
        | _, _ => Raise IndexError
        end.

(** ** Trend classifier *)

(** [np.arange(n, dtype=float64)]. *)
Definition np_arange (n : nat) : list Qc := map Qc_of_nat (seq 0 n).

(** [np.polyfit(x, y, 1)] is numpy's, not this repository's: it is taken
    by its contract, the least-squares line through the points, in closed
    form.  numpy rejects an empty [x] and lists of different lengths with
    [TypeError]; where the points do not determine a line (all [x] equal,
    which for [x = arange(n)] is [n == 1]) numpy's answer is not that
    line, and the model raises; nothing below rests on that case. *)
Definition np_polyfit1 (x y : list Qc) : py (Qc * Qc) :=
  if bool_decide (length x = 0%nat) then Raise TypeError
  else if bool_decide (length x ≠ length y) then Raise TypeError
  else
    let n := Qc_of_nat (length x) in
    let sx := py_sum x in
    let sy := py_sum y in
    let sxx := py_sum (map (fun a => a * a) x) in
    let sxy := py_sum (zip_with Qcmult x y) in
    let den := n * sxx - sx * sx in
    if bool_decide (den = 0) then Raise LinAlgError
    else
      let slope := (n * sxy - sx * sy) / den in
      let intercept := (sy - slope * sx) / n in
      Return (slope, intercept).

(** [calculate_linear_regression(closes, length)]:
    [(slope, intercept, r_squared)], or [None] for [(None, None, None)].
    It is written for whatever [np.polyfit] does, given as [np_polyfit],
    and then taken with the contract above: what is proved with
    [np_polyfit] left open holds of any slope and intercept numpy
    returns, rounding included. *)
Definition calculate_linear_regression_with
    (np_polyfit : list Qc → list Qc → py (Qc * Qc))
    (closes : list Qc) (len : nat) : py (option (Qc * Qc * Qc)) :=
  if bool_decide (length closes < len)%nat then Return None
  else
    let y := py_last_n len closes in
    let x := np_arange len in
    '(slope, intercept) ← np_polyfit x y;
    let y_pred := map (fun xi => slope * xi + intercept) x in
    let ss_res := py_sum (zip_with (fun a b => (a - b) * (a - b)) y y_pred) in
    let mean := py_sum y / Qc_of_nat (length y) in
    let ss_tot := py_sum (map (fun a => (a - mean) * (a - mean)) y) in
    let r_squared :=
      if bool_decide (ss_tot = 0) then 0 else 1 - ss_res / ss_tot in
    Return (Some (slope, intercept, r_squared)).

Definition calculate_linear_regression (closes : list Qc) (len : nat)
  : py (option (Qc * Qc * Qc)) :=
  calculate_linear_regression_with np_polyfit1 closes len.

Record lr_config := {
  lr_length : nat;
  lr_atr_length : nat;
  lr_r2_threshold : Qc;
  lr_slope_threshold : Qc;
  lr_sideways_slope_threshold : Qc;
  lr_volatility_ma_length : nat;
}.

Inductive trend_label := Uptrend | Downtrend | Sideways.
Inductive volatility_label := HIGH | LOW | NA.

Record trend_result := {
  slope : Qc;
  normalized_slope : Qc;
  r_squared : Qc;
  atr : Qc;
  volatility_regime : volatility_label;
  trend : trend_label;
  confidence : Qc;
}.

(** The guard [1e-12] on the current ATR. *)
Definition atr_epsilon : Qc := Q2Qc (1 # 1000000000000).

(** [classify_trend(closes, highs, lows, lr_config)], like the regression
    first for whatever [np.polyfit] does. *)
Definition classify_trend_with
    (np_polyfit : list Qc → list Qc → py (Qc * Qc))
    (closes highs lows : list Qc) (cfg : lr_config)
  : py (option trend_result) :=
  lr ← calculate_linear_regression_with np_polyfit closes (lr_length cfg);
  match lr with
  | None => Return None
  | Some (slope, _, r_squared) =>
      atr_series ← compute_atr_series highs lows closes (lr_atr_length cfg);
      match last atr_series with
      | None => Return None
      | Some current_atr =>
          if bool_decide (current_atr < atr_epsilon) then Return None
          else
            let normalized_slope := slope / current_atr in
            volatility_regime ←
              (if bool_decide (lr_volatility_ma_length cfg ≤ length atr_series)%nat
               then
                 atr_ma ← py_div
                   (py_sum (py_last_n (lr_volatility_ma_length cfg) atr_series))
                   (lr_volatility_ma_length cfg);
                 Return (if bool_decide (atr_ma < current_atr) then HIGH else LOW)
               else Return NA);
            let abs_norm_slope := Qcabs.Qcabs normalized_slope in
            let trend :=
              if bool_decide (abs_norm_slope < lr_sideways_slope_threshold cfg)
                 || bool_decide (r_squared < lr_r2_threshold cfg)
              then Sideways
              else if bool_decide (lr_slope_threshold cfg < normalized_slope)
                      && bool_decide (lr_r2_threshold cfg ≤ r_squared)
              then Uptrend
              else if bool_decide (normalized_slope < - lr_slope_threshold cfg)
                      && bool_decide (lr_r2_threshold cfg ≤ r_squared)
              then Downtrend
              else Sideways in
            let confidence := r_squared * py_min abs_norm_slope 1 in
            let confidence := py_max 0 (py_min 1 confidence) in
            Return (Some {|
              slope := slope;
              normalized_slope := normalized_slope;
              r_squared := r_squared;
              atr := current_atr;
              volatility_regime := volatility_regime;
              trend := trend;
              confidence := confidence |})
      end
  end.

Definition classify_trend (closes highs lows : list Qc) (cfg : lr_config)
  : py (option trend_result) :=
  classify_trend_with np_polyfit1 closes highs lows cfg.

(** ** Timeframes, requests and the exchange *)

Definition interval_mapping : gmap Z string :=
  list_to_map
    [ (1%Z, "Min1"); (5%Z, "Min5"); (15%Z, "Min15"); (30%Z, "Min30");
      (60%Z, "Min60"); (240%Z, "Hour4"); (480%Z, "Hour8"); (1440%Z, "Day1");
      (10080%Z, "Week1"); (43200%Z, "Month1") ].

(** [get_interval_str(minutes)]: [mapping.get(minutes, "Min15")]. *)
Definition get_interval_str (minutes : Z) : string :=
  default "Min15" (interval_mapping !! minutes).

(** ** Query window *)

(** [interval_seconds_map] of [fetch_kline_data]. *)
Definition interval_seconds_map : gmap string Z :=
  list_to_map
    [ ("Min1", 60%Z); ("Min5", 300%Z); ("Min15", 900%Z); ("Min30", 1800%Z);
      ("Min60", 3600%Z); ("Hour4", 14400%Z); ("Hour8", 28800%Z);
      ("Day1", 86400%Z); ("Week1", 604800%Z); ("Month1", 2592000%Z) ].

(** [params] of the query [fetch_kline_data] sends. *)
Record kline_params := {
  p_interval : string;
  p_start : Z;
  p_end : Z;
}.

(** The query of [fetch_kline_data(symbol, interval_str, count)], lines
    93-121, for the reading [end_time = int(time.time())] of the clock. *)
Definition kline_query (interval_str : string) (count end_time : Z)
  : kline_params :=
  let interval_seconds := default 900%Z (interval_seconds_map !! interval_str) in
  let start_time := (end_time - count * interval_seconds)%Z in
  {| p_interval := interval_str; p_start := start_time; p_end := end_time |}.

(** A decoded JSON value, as [response.json()] gives it. *)
#[warnings="-register-all"] Inductive json :=
  | JNull
  | JBool (b : bool)
  | JNum (x : Qc)
  | JStr (s : string)
  | JList (l : list json)
  | JDict (d : gmap string json).

(** Truth value of a JSON value in [if raw_data:]. *)
Definition py_truthy (j : json) : bool :=
  match j with
  | JNull => false
  | JBool b => b
  | JNum x => negb (bool_decide (x = 0))
  | JStr s => negb (bool_decide (s = ""))
  | JList l => negb (bool_decide (l = []))
  | JDict d => negb (bool_decide (d = ∅))
  end.

(** The least magnitude [float(n)] rejects: an integer [n] with
    [abs(n) >= 2**1024 - 2**970] rounds beyond the largest double.  (A
    real literal that large decodes to [inf], which [json] does not
    hold.) *)
Definition float_overflow_Z : Z :=
  Eval vm_compute in (2 ^ 1024 - 2 ^ 970)%Z.
Definition float_overflow : Qc := Qc_of_Z float_overflow_Z.

Section Parse.
(** Python's [float(s)] on a string: the number it denotes, or [None]
    where Python raises [ValueError]. *)
Variable float_of_str : string → option Qc.

(** [float(p)]; [None] where Python raises.  A number as large as
    [float_overflow] is an integer beyond the doubles, on which [float]
    raises [OverflowError].  Below it the number is kept as it is: that
    [float] rounds an integer above [2**53] to the nearest double is part
    of reading floats as exact rationals. *)
Definition py_float (p : json) : option Qc :=
  match p with
  | JNum x =>
      if bool_decide (Qcabs.Qcabs x < float_overflow) then Some x else None
  | JBool b => Some (if b then 1 else 0)
  | JStr s => float_of_str s
  | JNull | JList _ | JDict _ => None
  end.

(** [float(x[k])]; [None] where the subscript or the conversion raises. *)
Definition py_float_item (k : string) (x : json) : option Qc :=
  match x with
  | JDict d => d !! k ≫= py_float
  | _ => None
  end.

Definition has_keys (ks : list string) (d : gmap string json) : bool :=
  forallb (fun k => bool_decide (is_Some (d !! k))) ks.

(** [parse_ohlc(kline_data)]: [(highs, lows, closes)], or [None] for
    [(None, None, None)].  Every exception is caught by the function
    and gives the same [(None, None, None)]. *)
Definition parse_ohlc (kline_data : json)
  : option (list Qc * list Qc * list Qc) :=
  match kline_data with
  | JDict d =>
      match d !! "close", d !! "high", d !! "low" with
      | Some (JList close), Some (JList high), Some (JList low) =>
          highs ← mapM py_float high;
          lows ← mapM py_float low;
          closes ← mapM py_float close;
          Some (highs, lows, closes)
      | _, _, _ => None
      end
  | JList [] => Some ([], [], [])
  | JList ((JDict first_item :: _) as kline_data) =>
      if has_keys ["close"; "high"; "low"] first_item then
        highs ← mapM (py_float_item "high") kline_data;
        lows ← mapM (py_float_item "low") kline_data;
        closes ← mapM (py_float_item "close") kline_data;
        Some (highs, lows, closes)
      else if has_keys ["c"; "h"; "l"] first_item then
        highs ← mapM (py_float_item "h") kline_data;
        lows ← mapM (py_float_item "l") kline_data;
        closes ← mapM (py_float_item "c") kline_data;
        Some (highs, lows, closes)
      else None
  | _ => None
  end.

(** The refresh test of both loops: [raw_data] is truthy, it parses, and
    [closes] is a non-empty list. *)
Definition refreshed_series (raw_data : option json)
  : option (list Qc * list Qc * list Qc) :=
  match raw_data with
  | Some raw_data =>
      if py_truthy raw_data then
        match parse_ohlc raw_data with
        | Some (highs, lows, closes) =>
            if bool_decide (closes = []) then None
            else Some (highs, lows, closes)
        | None => None
        end
      else None
  | None => None
  end.
End Parse.

(** ** Configuration *)

Record config := {
  Assets : list string;
  Timeframe : Z;
  RSI_Period : nat;
  RSI_Overbought : Qc;
  RSI_Oversold : Qc;
  Stoch_K_Period : nat;
  Stoch_K_Smooth : nat;
  Stoch_D_Smooth : nat;
  Stoch_Overbought : Qc;
  Stoch_Oversold : Qc;
  Stoch_Alert_Method : Z;
  EMA_Long_Period : nat;
  EMA_Short_Period : nat;
  EMA_Proximity_ATR_Ratio : Qc;
  ATR_Period : nat;
  LR : lr_config;
  LR_Higher_Timeframe : Z;
}.

(** ** Series cache *)

(** One value of the [market_data] dictionary: a JSON object with the keys
    the program writes, each of which may be absent.  An asset's entry has
    the first four; the ["_metadata"] entry has only [timeframe].  A file
    whose values have another shape is outside the model. *)
Record cache_value := {
  e_last_updated : option Qc;
  e_highs : option (list Qc);
  e_lows : option (list Qc);
  e_prices : option (list Qc);
  e_timeframe : option Z;
}.

Definition empty_dict : cache_value :=
  {| e_last_updated := None; e_highs := None; e_lows := None;
     e_prices := None; e_timeframe := None |}.

Definition asset_entry (now : Qc) (highs lows closes : list Qc) : cache_value :=
  {| e_last_updated := Some now; e_highs := Some highs; e_lows := Some lows;
     e_prices := Some closes; e_timeframe := None |}.

Definition metadata_entry (timeframe_mins : Z) : cache_value :=
  {| e_last_updated := None; e_highs := None; e_lows := None;
     e_prices := None; e_timeframe := Some timeframe_mins |}.

Global Instance cache_value_eq_dec : EqDecision cache_value.
Proof. solve_decision. Defined.

(** The state of [market_data.json]: absent, not loadable (any exception
    in [load_market_data] is caught), or holding a dictionary. *)
Inductive data_file :=
  | FileMissing
  | FileUnreadable
  | FileContent (data : gmap string cache_value).

(** [load_market_data(current_timeframe)]. *)
Definition load_market_data (file : data_file) (current_timeframe : Z)
  : gmap string cache_value :=
  match file with
  | FileMissing => ∅
  | FileUnreadable => ∅
  | FileContent data =>
      let meta := default empty_dict (data !! "_metadata") in
      let cached_timeframe := e_timeframe meta in
      if bool_decide (cached_timeframe ≠ Some current_timeframe) then ∅
      else data
  end.

(** ** Alert composition *)

(** [send_notification(symbol, value, condition)]. *)
Record notification := {
  n_symbol : string;
  n_value : Qc;
  n_condition : string;
}.

(** An item of [result["alerts"]]. *)
Record alert := {
  a_type : string;
  a_level : string;
}.

Global Instance notification_eq_dec : EqDecision notification.
Proof. solve_decision. Defined.
Global Instance alert_eq_dec : EqDecision alert.
Proof. solve_decision. Defined.

Definition stoch_is_overbought (stoch_k stoch_d stoch_overbought : Qc) : bool :=
  bool_decide (stoch_overbought < stoch_k) || bool_decide (stoch_overbought < stoch_d).

Definition stoch_is_oversold (stoch_k stoch_d stoch_oversold : Qc) : bool :=
  bool_decide (stoch_k < stoch_oversold) || bool_decide (stoch_d < stoch_oversold).

(** [current_price > ema_long] and [current_price < ema_long]: comparing
    [None] with a float raises. *)
Definition price_gt (current_price : option Qc) (ema_long : Qc) : py bool :=
  match current_price with
  | Some p => Return (bool_decide (ema_long < p))
  | None => Raise TypeError
  end.

Definition price_lt (current_price : option Qc) (ema_long : Qc) : py bool :=
  match current_price with
  | Some p => Return (bool_decide (p < ema_long))
  | None => Raise TypeError
  end.

Definition above_ema_label (ema_long_period : nat) : string :=
  "STOCH OVERSOLD + Above EMA(" +:+ pretty ema_long_period +:+ ")".

Definition below_ema_label (ema_long_period : nat) : string :=
  "STOCH OVERBOUGHT + Below EMA(" +:+ pretty ema_long_period +:+ ")".

(** The stochastic block of [main], lines 630-661: the notifications it
    sends (console lines are not modelled). *)
Definition main_method1_alerts (symbol : string) (stoch_k stoch_d : Qc)
    (is_overbought is_oversold : bool) : list notification :=
  if is_overbought then
    [ {| n_symbol := symbol; n_value := stoch_k; n_condition := "STOCH OVERBOUGHT" |} ]
  else if is_oversold then
    [ {| n_symbol := symbol; n_value := stoch_d; n_condition := "STOCH OVERSOLD" |} ]
  else [].

Definition main_stoch_alerts (symbol : string)
    (stoch_k stoch_d stoch_overbought stoch_oversold : Qc)
    (stoch_alert_method : Z) (ema_long : option Qc) (ema_long_period : nat)
    (current_price : option Qc) : py (list notification) :=
  let is_overbought := stoch_is_overbought stoch_k stoch_d stoch_overbought in
  let is_oversold := stoch_is_oversold stoch_k stoch_d stoch_oversold in
  if bool_decide (stoch_alert_method = 1%Z) then
    Return (main_method1_alerts symbol stoch_k stoch_d is_overbought is_oversold)
  else if bool_decide (stoch_alert_method = 2%Z) then
    match ema_long with
    | None =>
        Return (if is_overbought then
                  [ {| n_symbol := symbol; n_value := stoch_k;
                       n_condition := "STOCH OVERBOUGHT" |} ]
                else if is_oversold then
                  [ {| n_symbol := symbol; n_value := stoch_d;
                       n_condition := "STOCH OVERSOLD" |} ]
                else [])
    | Some ema_long =>
        buy ← (if is_oversold then
                 above ← price_gt current_price ema_long;
                 Return (if above : bool then
                           [ {| n_symbol := symbol; n_value := stoch_d;
                                n_condition := above_ema_label ema_long_period |} ]
                         else [])
               else Return []);
        sell ← (if is_overbought then
                  below ← price_lt current_price ema_long;
                  Return (if below : bool then
                            [ {| n_symbol := symbol; n_value := stoch_d;
                                 n_condition := below_ema_label ema_long_period |} ]
                          else [])
                else Return []);
        Return (buy ++ sell)
    end
  else Return [].

(** The stochastic block of [screener_loop], lines 231-255: the alerts it
    appends to [result["alerts"]]. *)
Definition web_method1_alerts (is_ob is_os : bool) : list alert :=
  if is_ob then [ {| a_type := "STOCH OVERBOUGHT"; a_level := "danger" |} ]
  else if is_os then [ {| a_type := "STOCH OVERSOLD"; a_level := "success" |} ]
  else [].

Definition web_stoch_alerts
    (stoch_k stoch_d stoch_overbought stoch_oversold : Qc)
    (stoch_alert_method : Z) (ema_long : option Qc) (ema_long_period : nat)
    (current_price : option Qc) : py (list alert) :=
  let is_ob := stoch_is_overbought stoch_k stoch_d stoch_overbought in
  let is_os := stoch_is_oversold stoch_k stoch_d stoch_oversold in
  if bool_decide (stoch_alert_method = 1%Z) then
    Return (web_method1_alerts is_ob is_os)
  else if bool_decide (stoch_alert_method = 2%Z) then
    match ema_long with
    | None =>
        Return (if is_ob then
                  [ {| a_type := "STOCH OVERBOUGHT"; a_level := "danger" |} ]
                else if is_os then
                  [ {| a_type := "STOCH OVERSOLD"; a_level := "success" |} ]
                else [])
    | Some ema_long =>
        above ← (if is_os then price_gt current_price ema_long else Return false);
        if above : bool then
          Return [ {| a_type := above_ema_label ema_long_period;
                      a_level := "success" |} ]
        else
          below ← (if is_ob then price_lt current_price ema_long else Return false);
          Return (if below : bool then
                    [ {| a_type := below_ema_label ema_long_period;
                         a_level := "danger" |} ]
                  else [])
    end
  else Return [].

(** RSI alerts of the two loops. *)
Definition main_rsi_alerts (symbol : string) (rsi : option Qc)
    (rsi_overbought rsi_oversold : Qc) : list notification :=
  match rsi with
  | Some rsi =>
      if bool_decide (rsi_overbought < rsi) then
        [ {| n_symbol := symbol; n_value := rsi; n_condition := "RSI OVERBOUGHT" |} ]
      else if bool_decide (rsi < rsi_oversold) then
        [ {| n_symbol := symbol; n_value := rsi; n_condition := "RSI OVERSOLD" |} ]
      else []
  | None => []
  end.

Definition web_rsi_alerts (rsi : option Qc) (rsi_overbought rsi_oversold : Qc)
  : list alert :=
  match rsi with
  | Some rsi =>
      if bool_decide (rsi_overbought < rsi) then
        [ {| a_type := "RSI OVERBOUGHT"; a_level := "danger" |} ]
      else if bool_decide (rsi < rsi_oversold) then
        [ {| a_type := "RSI OVERSOLD"; a_level := "success" |} ]
      else []
  | None => []
  end.

(** The analysis of one symbol in [main], lines 574-671, on the series
    [prices], [highs], [lows]: the notifications sent.  Every indicator is
    computed, also those that only print, since each may raise. *)
Definition main_analyse (cfg : config) (symbol : string)
    (prices highs lows : list Qc) : py (list notification) :=
  let current_price := last prices in
  rsi ← calculate_rsi prices (RSI_Period cfg);
  let rsi_alerts :=
    main_rsi_alerts symbol rsi (RSI_Overbought cfg) (RSI_Oversold cfg) in
  ema_long ← calculate_ema prices (EMA_Long_Period cfg);
  ema_short ← calculate_ema prices (EMA_Short_Period cfg);
  _ ← (if bool_decide (is_Some ema_short ∧ is_Some current_price)
       then calculate_atr highs lows prices (ATR_Period cfg)
       else Return None);
  stoch_alerts ←
    (if bool_decide (highs ≠ [] ∧ lows ≠ []) then
       kd ← calculate_stochastic highs lows prices (Stoch_K_Period cfg)
              (Stoch_K_Smooth cfg) (Stoch_D_Smooth cfg);
       match kd with
       | Some (stoch_k, stoch_d) =>
           main_stoch_alerts symbol stoch_k stoch_d (Stoch_Overbought cfg)
             (Stoch_Oversold cfg) (Stoch_Alert_Method cfg) ema_long
             (EMA_Long_Period cfg) current_price
       | None => Return []
       end
     else Return []);
  _ ← classify_trend prices highs lows (LR cfg);
  Return (rsi_alerts ++ stoch_alerts).

(** [result] of [screener_loop] for one symbol: the symbol, the price,
    the alerts and the two trends (the rounded display fields are left
    out). *)
Record web_result := {
  r_symbol : string;
  r_price : option Qc;
  r_alerts : list alert;
  r_lr_trend : option trend_label;
  r_lr_htf_trend : option trend_label;
}.

Definition proximity_label (ema_short_period : nat) : string :=
  "EMA(" +:+ pretty ema_short_period +:+ ") Proximity".

(** The EMA-short proximity alert of [screener_loop], lines 197-219. *)
Definition web_proximity_alerts (cfg : config) (prices h_data l_data : list Qc)
    (ema_short current_price : option Qc) : py (list alert) :=
  match ema_short, current_price with
  | Some ema_short, Some current_price =>
      atr ← calculate_atr h_data l_data prices (ATR_Period cfg);
      let distance := Qcabs.Qcabs (current_price - ema_short) in
      match atr with
      | Some atr =>
          if bool_decide (0 < atr) then
            let atr_ratio := distance / atr in
            Return (if bool_decide (atr_ratio ≤ EMA_Proximity_ATR_Ratio cfg) then
                      [ {| a_type := proximity_label (EMA_Short_Period cfg);
                           a_level := "warning" |} ]
                    else [])
          else Return []
      | None => Return []
      end
  | _, _ => Return []
  end.

(** ** Refresh scheduler *)

(** What the loops read from outside during one cycle: the answer of
    [fetch_kline_data(symbol, interval_str, count)] ([None] on any
    retrieval failure) and the clock [time.time()], each at the position
    of the symbol in [Assets]. *)
Record world := {
  fetch_kline_data : nat → string → string → nat → option json;
  time_time : nat → Qc;
}.

(** The state of one cycle of [main].  [requests] and [computed] are the
    trace of the cycle: the queries sent, and the series each analysis ran
    on. *)
Record main_state := {
  market_data : gmap string cache_value;
  refreshed_count : nat;
  requests : list (string * string * nat);
  notifications : list notification;
  computed : list (string * (list Qc * list Qc * list Qc));
}.

Section Cycle.
Variable float_of_str : string → option Qc.
Variable w : world.
Variable cfg : config.

(** The higher-timeframe pass, lines 680-700 of [main]: one more query
    and, when it parses, one more classification. *)
Definition higher_timeframe_trend (i : nat) (symbol : string)
  : py (option trend_result) :=
  let lr_higher_interval_str := get_interval_str (LR_Higher_Timeframe cfg) in
  let htf_raw :=
    fetch_kline_data w i symbol lr_higher_interval_str (lr_length (LR cfg) + 50) in
  match refreshed_series float_of_str htf_raw with
  | Some (htf_highs, htf_lows, htf_closes) =>
      classify_trend htf_closes htf_highs htf_lows (LR cfg)
  | None => Return None
  end.

Definition higher_timeframe_requests (symbol : string)
  : list (string * string * nat) :=
  if bool_decide (LR_Higher_Timeframe cfg ≠ Timeframe cfg) then
    [ (symbol, get_interval_str (LR_Higher_Timeframe cfg),
       (lr_length (LR cfg) + 50)%nat) ]
  else [].

(** The body of [for symbol in assets], lines 541-700 of [main]. *)
Definition main_symbol (i : nat) (symbol : string) (st : main_state)
  : py main_state :=
  let interval_str := get_interval_str (Timeframe cfg) in
  let now := time_time w i in
  let raw_data := fetch_kline_data w i symbol interval_str 250 in
  let st :=
    {| market_data := market_data st;
       refreshed_count := refreshed_count st;
       requests := requests st ++ [ (symbol, interval_str, 250%nat) ];
       notifications := notifications st;
       computed := computed st |} in
  let st :=
    match refreshed_series float_of_str raw_data with
    | Some (highs, lows, closes) =>
        {| market_data :=
             <[symbol := asset_entry now highs lows closes]> (market_data st);
           refreshed_count := refreshed_count st + 1;
           requests := requests st;
           notifications := notifications st;
           computed := computed st |}
    | None => st
    end in
  let current_asset_data := market_data st !! symbol in
  match current_asset_data with
  | None => Return st
  | Some current_asset_data =>
      if bool_decide (current_asset_data = empty_dict) then Return st
      else
        match e_prices current_asset_data with
        | None => Return st
        | Some prices =>
            let highs := default [] (e_highs current_asset_data) in
            let lows := default [] (e_lows current_asset_data) in
            alerts ← main_analyse cfg symbol prices highs lows;
            _ ← (if bool_decide (LR_Higher_Timeframe cfg ≠ Timeframe cfg)
                 then higher_timeframe_trend i symbol
                 else Return None);
            Return
              {| market_data := market_data st;
                 refreshed_count := refreshed_count st;
                 requests := requests st ++ higher_timeframe_requests symbol;
                 notifications := notifications st ++ alerts;
                 computed := computed st ++ [ (symbol, (prices, highs, lows)) ] |}
        end
  end.

Fixpoint main_symbols (i : nat) (assets : list string) (st : main_state)
  : py main_state :=
  match assets with
  | [] => Return st
  | symbol :: assets =>
      st ← main_symbol i symbol st;
      main_symbols (S i) assets st
  end.

(** One pass of [while True] in [main], from [load_market_data] to
    [save_market_data]: the final state and the data file.  The write is
    taken to succeed. *)
Definition main_cycle (file : data_file) : py (main_state * data_file) :=
  let loaded := load_market_data file (Timeframe cfg) in
  st ← main_symbols 0 (Assets cfg)
         {| market_data := loaded; refreshed_count := 0;
            requests := []; notifications := []; computed := [] |};
  if bool_decide (0 < refreshed_count st)%nat then
    let saved :=
      <["_metadata" := metadata_entry (Timeframe cfg)]> (market_data st) in
    Return ({| market_data := saved;
               refreshed_count := refreshed_count st;
               requests := requests st;
               notifications := notifications st;
               computed := computed st |},
            FileContent saved)
  else Return (st, file).
End Cycle.

(** [next_interval] of both loops: the wake-up instant for the reading
    [now_ts = int(time.time())] of the clock. *)
Definition next_interval (now_ts timeframe_mins : Z) : py Z :=
  let interval_seconds := (timeframe_mins * 60)%Z in
  if bool_decide (interval_seconds = 0%Z) then Raise ZeroDivisionError
  else Return ((now_ts `div` interval_seconds + 1) * interval_seconds)%Z.

Definition sleep_seconds (now_ts timeframe_mins : Z) : py Z :=
  next ← next_interval now_ts timeframe_mins;
  Return (next - now_ts)%Z.

(** The state of one cycle of [screener_loop]: there is no series cache,
    only this cycle's [results]. *)
Record web_state := {
  results : gmap string web_result;
  web_refreshed_count : nat;
  web_requests : list (string * string * nat);
  web_computed : list (string * (list Qc * list Qc * list Qc));
}.

Section WebCycle.
Variable float_of_str : string → option Qc.
Variable w : world.
Variable cfg : config.

(** The analysis of one symbol in [screener_loop], lines 168-297. *)
Definition web_analyse (i : nat) (symbol : string)
    (prices h_data l_data : list Qc) : py web_result :=
  let current_price := last prices in
  rsi ← calculate_rsi prices (RSI_Period cfg);
  let rsi_alerts := web_rsi_alerts rsi (RSI_Overbought cfg) (RSI_Oversold cfg) in
  ema_long ← calculate_ema prices (EMA_Long_Period cfg);
  ema_short ← calculate_ema prices (EMA_Short_Period cfg);
  proximity_alerts ←
    web_proximity_alerts cfg prices h_data l_data ema_short current_price;
  stoch_alerts ←
    (if bool_decide (h_data ≠ [] ∧ l_data ≠ []) then
       kd ← calculate_stochastic h_data l_data prices (Stoch_K_Period cfg)
              (Stoch_K_Smooth cfg) (Stoch_D_Smooth cfg);
       match kd with
       | Some (stoch_k, stoch_d) =>
           web_stoch_alerts stoch_k stoch_d (Stoch_Overbought cfg)
             (Stoch_Oversold cfg) (Stoch_Alert_Method cfg) ema_long
             (EMA_Long_Period cfg) current_price
       | None => Return []
       end
     else Return []);
  lr_result ← classify_trend prices h_data l_data (LR cfg);
  lr_htf ← (if bool_decide (LR_Higher_Timeframe cfg ≠ Timeframe cfg)
            then higher_timeframe_trend float_of_str w cfg i symbol
            else Return None);
  Return {| r_symbol := symbol;
            r_price := current_price;
            r_alerts := rsi_alerts ++ proximity_alerts ++ stoch_alerts;
            r_lr_trend := trend <$> lr_result;
            r_lr_htf_trend := trend <$> lr_htf |}.

(** The body of [for symbol in assets], lines 141-300 of
    [screener_loop]: what follows the check of [session["running"]] at
    lines 138-139, which [web_symbols_running] below makes. *)
Definition web_symbol (i : nat) (symbol : string) (st : web_state)
  : py web_state :=
  let interval_str := get_interval_str (Timeframe cfg) in
  let raw_data := fetch_kline_data w i symbol interval_str 250 in
  let sent := web_requests st ++ [ (symbol, interval_str, 250%nat) ] in
  match refreshed_series float_of_str raw_data with
  | Some (highs, lows, closes) =>
      result ← web_analyse i symbol closes highs lows;
      Return
        {| results := <[symbol := result]> (results st);
           web_refreshed_count := web_refreshed_count st + 1;
           web_requests := sent ++ higher_timeframe_requests cfg symbol;
           web_computed :=
             web_computed st ++ [ (symbol, (closes, highs, lows)) ] |}
  | None =>
      Return
        {| results := results st;
           web_refreshed_count := web_refreshed_count st;
           web_requests := sent;
           web_computed := web_computed st |}
  end.

Fixpoint web_symbols (i : nat) (assets : list string) (st : web_state)
  : py web_state :=
  match assets with
  | [] => Return st
  | symbol :: assets =>
      st ← web_symbol i symbol st;
      web_symbols (S i) assets st
  end.

(** One pass of [while session["running"]] in [screener_loop], up to
    [session["data"] = results]. *)
Definition web_cycle : py web_state :=
  web_symbols 0 (Assets cfg)
    {| results := ∅; web_refreshed_count := 0;
       web_requests := []; web_computed := [] |}.
End WebCycle.

(** ** Whole passes of the two loops *)

(** How a pass of [while session["running"]] in [screener_loop] ends: the
    function returned because it read the flag cleared, or the pass went
    through the assets and the countdown, with the results of the cycle
    and the seconds pushed as [countdown] events. *)
Inductive pass_end :=
  | returned
  | next_pass (st : web_state) (seconds_pushed : list Z).

Section Passes.
Variable float_of_str : string → option Qc.
Variable w : world.
Variable cfg : config.

(** One pass of [while True] in [main], lines 502-720, for a
    configuration that loaded: the cycle, then the wait computed at lines
    709-712 from the reading [now_ts = int(time.time())].  The result
    carries [sleep_seconds]; the countdown loop that follows prints and
    sleeps once for each second, and not at all when the number is not
    positive. *)
Definition main_pass (file : data_file) (now_ts : Z)
  : py (main_state * data_file * Z) :=
  '(st, file') ← main_cycle float_of_str w cfg file;
  seconds ← sleep_seconds now_ts (Timeframe cfg);
  Return (st, file', seconds).

(** [session["running"]] as a pass reads it: [running k] is its [k]-th
    reading.  Other threads clear the flag ([stop_screener],
    [reset_screener]). *)
Variable running : nat → bool.

(** [for symbol in assets] of [screener_loop] with the check at lines
    138-139; [None] when the function returns there.  The symbol at
    position [i] is preceded by the [i]-th reading of the flag. *)
Fixpoint web_symbols_running (i : nat) (assets : list string) (st : web_state)
  : py (option web_state) :=
  match assets with
  | [] => Return (Some st)
  | symbol :: assets =>
      if running i then
        st ← web_symbol float_of_str w cfg i symbol st;
        web_symbols_running (S i) assets st
      else Return None
  end.

(** [for i in range(sleep_seconds, 0, -1)], lines 314-319, from the
    [k]-th reading of the flag with [i] seconds left: the seconds pushed
    as [countdown] events, or [None] when the function returns. *)
Fixpoint countdown (k i : nat) : option (list Z) :=
  match i with
  | O => Some []
  | S j =>
      if running k then
        rest ← countdown (S k) j;
        Some ((if bool_decide (Z.of_nat i `mod` 5 = 0 ∨ Z.of_nat i ≤ 10)%Z
               then [Z.of_nat i] else []) ++ rest)
      else None
  end.

(** One pass of [while session["running"]] in [screener_loop], lines
    107-321, for a session that has a configuration: the assets, then the
    wait computed at lines 310-312 from [now_ts], then the countdown.
    Events other than the countdown's are not part of the model. *)
Definition web_pass (now_ts : Z) : py pass_end :=
  st ← web_symbols_running 0 (Assets cfg)
         {| results := ∅; web_refreshed_count := 0;
            web_requests := []; web_computed := [] |};
  match st with
  | None => Return returned
  | Some st =>
      seconds ← sleep_seconds now_ts (Timeframe cfg);
      match countdown (length (Assets cfg)) (Z.to_nat seconds) with
      | Some seconds_pushed => Return (next_pass st seconds_pushed)
      | None => Return returned
      end
  end.
End Passes.

(** ** Sessions and event delivery *)

(** An event as [push_event] serialises it: its type and its data. *)
Record event := {
  ev_type : string;
  ev_data : json;
}.

(** A [queue.Queue(maxsize)]: [maxsize <= 0] means unbounded. *)
Record event_queue := {
  maxsize : Z;
  items : list event;
}.

(** [Queue.put_nowait(item)]: it never waits; a full queue raises
    [queue.Full]. *)
Definition put_nowait (q : event_queue) (item : event) : py event_queue :=
  if bool_decide (0 < maxsize q)%Z
     && bool_decide (maxsize q ≤ Z.of_nat (length (items q)))%Z
  then Raise QueueFull
  else Return {| maxsize := maxsize q; items := items q ++ [item] |}.

Record session := {
  s_running : bool;
  s_queue : event_queue;
  s_config : option config;
  s_data : gmap string web_result;
}.

Definition new_session : session :=
  {| s_running := false;
     s_queue := {| maxsize := 500; items := [] |};
     s_config := None;
     s_data := ∅ |}.

(** [get_session(session_id)]: the registry afterwards, and the session. *)
Definition get_session (sessions : gmap string session) (session_id : string)
  : gmap string session * session :=
  match sessions !! session_id with
  | Some s => (sessions, s)
  | None => (<[session_id := new_session]> sessions, new_session)
  end.

(** [push_event(session_id, event_type, data)]: the registry afterwards.
    The session is mutated in place, so the registry sees the new queue. *)
Definition push_event (sessions : gmap string session) (session_id : string)
    (event_type : string) (data : json) : py (gmap string session) :=
  match sessions !! session_id with
  | None => Return sessions
  | Some s =>
      let event_data := {| ev_type := event_type; ev_data := data |} in
      match put_nowait (s_queue s) event_data with
      | Return q =>
          Return (<[session_id := {| s_running := s_running s; s_queue := q;
                                     s_config := s_config s;
                                     s_data := s_data s |}]> sessions)
      | Raise QueueFull => Return sessions
      | Raise e => Raise e
      end
  end.

(** ** Session lifecycle *)

(** The events of a list pushed one after another, as [screener_loop]
    does through a cycle. *)
Fixpoint push_events (sessions : gmap string session) (session_id : string)
    (events : list event) : py (gmap string session) :=
  match events with
  | [] => Return sessions
  | e :: events =>
      sessions ← push_event sessions session_id (ev_type e) (ev_data e);
      push_events sessions session_id events
  end.

(** The heartbeat [event_stream] yields when the queue stays empty for
    25 seconds. *)
Definition heartbeat_event : event :=
  {| ev_type := "heartbeat"; ev_data := JDict ∅ |}.

(** One turn of [while True] in [event_stream] of [stream], on the queue
    [q] it took from the session: what it yields, and the queue
    afterwards.  [q.get(timeout=25)] on a queue that stays empty raises
    [queue.Empty]. *)
Definition event_stream_step (q : event_queue) : event * event_queue :=
  match items q with
  | data :: rest => (data, {| maxsize := maxsize q; items := rest |})
  | [] => (heartbeat_event, q)
  end.

(** [n] turns of that loop, with no event pushed meanwhile. *)
Fixpoint event_stream (q : event_queue) (n : nat) : list event * event_queue :=
  match n with
  | O => ([], q)
  | S n =>
      let '(data, q) := event_stream_step q in
      let '(rest, q) := event_stream q n in
      (data :: rest, q)
  end.

(** The registry with the key ["last_active"] of each session, which the
    handlers add to the session's dictionary: it is kept in a map of its
    own, since [session] holds the keys [get_session] creates. *)
Record server := {
  sessions : gmap string session;
  last_active : gmap string Qc;
}.

(** The JSON answers of the handlers; [bad_request] is the answer with
    status 400. *)
Inductive response :=
  | started | already_running | stopped | reset_complete | bad_request.

(** [not session_id] for [body.get("session_id")]. *)
Definition py_not_str (s : option string) : bool :=
  match s with
  | Some s => bool_decide (s = "")
  | None => true
  end.

(** [start_screener()], on the request body's [session_id] and [config]
    at the time [now].  The thread it starts is not part of the model. *)
Definition start_screener (srv : server) (session_id : option string)
    (config : option config) (now : Qc) : server * response :=
  match session_id, config with
  | Some sid, Some config =>
      if py_not_str session_id then (srv, bad_request)
      else
        let '(registry, session) := get_session (sessions srv) sid in
        let active := <[sid := now]> (last_active srv) in
        if s_running session then
          ({| sessions := registry; last_active := active |}, already_running)
        else
          ({| sessions :=
                <[sid := {| s_running := true; s_queue := s_queue session;
                            s_config := Some config; s_data := ∅ |}]> registry;
              last_active := active |}, started)
  | _, _ => (srv, bad_request)
  end.

(** [stop_screener()]. *)
Definition stop_screener (srv : server) (session_id : option string)
    (now : Qc) : server * response :=
  match session_id with
  | Some sid =>
      if py_not_str session_id then (srv, bad_request)
      else
        let '(registry, session) := get_session (sessions srv) sid in
        ({| sessions :=
              <[sid := {| s_running := false; s_queue := s_queue session;
                          s_config := s_config session;
                          s_data := s_data session |}]> registry;
            last_active := <[sid := now]> (last_active srv) |}, stopped)
  | None => (srv, bad_request)
  end.

(** The data of the log event [reset_screener] pushes. *)
Definition reset_log : json :=
  JDict (list_to_map [ ("message", JStr "Data reset complete.");
                       ("level", JStr "warning") ]).

(** [reset_screener()]; [now] is the time after its pause. *)
Definition reset_screener (srv : server) (session_id : option string)
    (now : Qc) : py (server * response) :=
  match session_id with
  | Some sid =>
      if py_not_str session_id then Return (srv, bad_request)
      else
        let '(registry, session) := get_session (sessions srv) sid in
        let registry :=
          <[sid := {| s_running := false; s_queue := s_queue session;
                      s_config := s_config session; s_data := ∅ |}]> registry in
        registry ← push_event registry sid "reset" (JDict ∅);
        registry ← push_event registry sid "log" reset_log;
        Return ({| sessions := registry;
                   last_active := <[sid := now]> (last_active srv) |},
                reset_complete)
  | None => Return (srv, bad_request)
  end.

(** The test of [cleanup_sessions] on one session:
    [not s["running"] and s.get("last_active", 0) < now - 1800]. *)
Definition is_stale (srv : server) (now : Qc) (sid : string) (s : session)
  : bool :=
  negb (s_running s)
  && bool_decide (default 0 (last_active srv !! sid) < now - Qc_of_Z 1800).

(** One pass of [while True] in [cleanup_sessions], at the time [now]. *)
Definition cleanup_sessions (srv : server) (now : Qc) : server :=
  let stale :=
    (filter (fun p => is_stale srv now p.1 p.2) (map_to_list (sessions srv))).*1 in
  {| sessions := foldr delete (sessions srv) stale;
     last_active := foldr delete (last_active srv) stale |}.

(** ** Specification-level notions used by the theorems *)

(** The RSI as the specification words it: deltas of consecutive closes,
    [gain = max(delta, 0)], [loss = max(-delta, 0)], averages seeded with
    the simple mean of the first [period] values and smoothed by Wilder's
    rule over the remaining ones. *)
Module RSI_spec.
Definition deltas (closes : list Qc) : list Qc :=
  zip_with (fun previous current => current - previous) closes (tail closes).
Definition gain (delta : Qc) : Qc := py_max delta 0.
Definition loss (delta : Qc) : Qc := py_max (- delta) 0.
Definition mean (l : list Qc) : Qc := py_sum l / Qc_of_nat (length l).
Definition wilder (period : nat) (avg new_value : Qc) : Qc :=
  (avg * (Qc_of_nat period - 1) + new_value) / Qc_of_nat period.
Definition smoothed (period : nat) (values : list Qc) : Qc :=
  fold_left (wilder period) (drop period values) (mean (take period values)).
Definition RSI (closes : list Qc) (period : nat) : Qc :=
  let gains := map gain (deltas closes) in
  let losses := map loss (deltas closes) in
  let avg_gain := smoothed period gains in
  let avg_loss := smoothed period losses in
  if bool_decide (avg_loss = 0) then Qc_of_Z 100
  else Qc_of_Z 100 - Qc_of_Z 100 / (1 + avg_gain / avg_loss).
End RSI_spec.

(** The keys of [mapping] in [get_interval_str]. *)
Definition recognized_minutes : list Z :=
  [1; 5; 15; 30; 60; 240; 480; 1440; 10080; 43200]%Z.

(** The timeframe tag of a stored cache:
    [data.get("_metadata", {}).get("timeframe")]. *)
Definition cached_timeframe (data : gmap string cache_value) : option Z :=
  data !! "_metadata" ≫= e_timeframe.

(** The threshold conditions of the stochastic block, as propositions. *)
Definition oversold (stoch_k stoch_d stoch_oversold : Qc) : Prop :=
  stoch_k < stoch_oversold ∨ stoch_d < stoch_oversold.
Definition overbought (stoch_k stoch_d stoch_overbought : Qc) : Prop :=
  stoch_overbought < stoch_k ∨ stoch_overbought < stoch_d.

(** The two composite alerts of method 2, in each loop's format. *)
Definition buy_notification (symbol : string) (stoch_d : Qc) (period : nat)
  : notification :=
  {| n_symbol := symbol; n_value := stoch_d;
     n_condition := above_ema_label period |}.
Definition sell_notification (symbol : string) (stoch_d : Qc) (period : nat)
  : notification :=
  {| n_symbol := symbol; n_value := stoch_d;
     n_condition := below_ema_label period |}.
Definition buy_alert (period : nat) : alert :=
  {| a_type := above_ema_label period; a_level := "success" |}.
Definition sell_alert (period : nat) : alert :=
  {| a_type := below_ema_label period; a_level := "danger" |}.

(** The series [main] analyses from a cache entry: its [prices], with
    [highs] and [lows] defaulting to the empty list. *)
Definition cached_series (e : cache_value)
  : option (list Qc * list Qc * list Qc) :=
  prices ← e_prices e;
  Some (prices, default [] (e_highs e), default [] (e_lows e)).

Section Refresh.
Variable float_of_str : string → option Qc.
Variable w : world.
Variable cfg : config.

(** What the fetch of [symbol] at position [i] of [Assets] refreshes the
    cache with, if anything. *)
Definition fresh_series (i : nat) (symbol : string)
  : option (list Qc * list Qc * list Qc) :=
  refreshed_series float_of_str
    (fetch_kline_data w i symbol (get_interval_str (Timeframe cfg)) 250).

Definition refreshed_cache (i : nat) (symbol : string)
    (cache : gmap string cache_value) : gmap string cache_value :=
  match fresh_series i symbol with
  | Some (highs, lows, closes) =>
      <[symbol := asset_entry (time_time w i) highs lows closes]> cache
  | None => cache
  end.


End Refresh.

(** [ceil(now / interval) * interval] on integers. *)
Definition ceil_boundary (now interval : Z) : Z :=
  (- ((- now) `div` interval) * interval)%Z.

(** A bounded queue that holds as many events as it may. *)
Definition queue_full (q : event_queue) : Prop :=
  (0 < maxsize q ≤ Z.of_nat (length (items q)))%Z.

(** Prices that never fall, and prices that fall at every step. *)
Definition never_falls (prices : list Qc) : Prop :=
  ∀ i a b, prices !! i = Some a → prices !! S i = Some b → a ≤ b.

Definition always_falls (prices : list Qc) : Prop :=
  ∀ i a b, prices !! i = Some a → prices !! S i = Some b → b < a.

(** A value between 0 and 100. *)
Definition percent (x : Qc) : Prop := 0 ≤ x ≤ Qc_of_Z 100.

(** A row of the row-based format: a dictionary that holds the three
    fields of a candle, any JSON values, under the keys [kh], [kl],
    [kc]. *)
Definition candle_row (kh kl kc : string) (x : json)
    (candle : json * json * json) : Prop :=
  ∃ d, x = JDict d
       ∧ d !! kh = Some candle.1.1
       ∧ d !! kl = Some candle.1.2
       ∧ d !! kc = Some candle.2.

Definition candle_highs (candles : list (json * json * json)) : list json :=
  (fun c => c.1.1) <$> candles.
Definition candle_lows (candles : list (json * json * json)) : list json :=
  (fun c => c.1.2) <$> candles.
Definition candle_closes (candles : list (json * json * json)) : list json :=
  (fun c => c.2) <$> candles.

(** The three lists of numbers [float()] makes of the fields of the
    candles; nothing when it raises on one of them. *)
Definition parsed_candles (float_of_str : string → option Qc)
    (candles : list (json * json * json))
  : option (list Qc * list Qc * list Qc) :=
  highs ← mapM (py_float float_of_str) (candle_highs candles);
  lows ← mapM (py_float float_of_str) (candle_lows candles);
  closes ← mapM (py_float float_of_str) (candle_closes candles);
  Some (highs, lows, closes).

(** The two events [reset_screener] pushes, in their order. *)
Definition reset_events : list event :=
  [ {| ev_type := "reset"; ev_data := JDict ∅ |};
    {| ev_type := "log"; ev_data := reset_log |} ].

(** Every period is at least 1 and the regression has at least two
    points. *)
Definition well_formed_config (cfg : config) : Prop :=
  (1 ≤ RSI_Period cfg)%nat
  ∧ (1 ≤ EMA_Long_Period cfg)%nat ∧ (1 ≤ EMA_Short_Period cfg)%nat
  ∧ (1 ≤ ATR_Period cfg)%nat
  ∧ (1 ≤ Stoch_K_Period cfg)%nat ∧ (1 ≤ Stoch_K_Smooth cfg)%nat
  ∧ (1 ≤ Stoch_D_Smooth cfg)%nat
  ∧ (2 ≤ lr_length (LR cfg))%nat ∧ (1 ≤ lr_atr_length (LR cfg))%nat
  ∧ (1 ≤ lr_volatility_ma_length (LR cfg))%nat.

(** The three lists have one item for each candle. *)
Definition balanced (highs lows closes : list Qc) : Prop :=
  length highs = length closes ∧ length lows = length closes.

(** Every payload that refreshes a symbol gives three lists of one
    length. *)
Definition balanced_feed (float_of_str : string → option Qc) (w : world)
  : Prop :=
  ∀ i symbol interval_str count highs lows closes,
    refreshed_series float_of_str
      (fetch_kline_data w i symbol interval_str count)
    = Some (highs, lows, closes) →
    balanced highs lows closes.

(** A cache entry whose stored lists have one length. *)
Definition balanced_entry (e : cache_value) : Prop :=
  match e_prices e with
  | Some prices =>
      balanced (default [] (e_highs e)) (default [] (e_lows e)) prices
  | None => True
  end.

(** The session [s] with the queue [q] in place of its own. *)
Definition with_queue (s : session) (q : event_queue) : session :=
  {| s_running := s_running s; s_queue := q;
     s_config := s_config s; s_data := s_data s |}.

(** ** Sample inputs *)

(** The fraction [a / b]. *)
Definition frac (a : Z) (b : positive) : Qc := Q2Qc (a # b).

(** The defaults [main] and [screener_loop] read with [config.get] for the
    regression settings. *)
Definition default_lr : lr_config :=
  {| lr_length := 200; lr_atr_length := 14;
     lr_r2_threshold := frac 3 10; lr_slope_threshold := frac 1 2;
     lr_sideways_slope_threshold := frac 1 5;
     lr_volatility_ma_length := 20 |}.

(** [DEFAULT_CONFIG] of [web_app.py], for given assets and timeframe. *)
Definition sample_config (assets : list string) (timeframe_mins : Z) : config :=
  {| Assets := assets; Timeframe := timeframe_mins;
     RSI_Period := 14; RSI_Overbought := Qc_of_Z 70; RSI_Oversold := Qc_of_Z 30;
     Stoch_K_Period := 14; Stoch_K_Smooth := 3; Stoch_D_Smooth := 3;
     Stoch_Overbought := Qc_of_Z 80; Stoch_Oversold := Qc_of_Z 20;
     Stoch_Alert_Method := 1;
     EMA_Long_Period := 200; EMA_Short_Period := 21;
     EMA_Proximity_ATR_Ratio := frac 15 100; ATR_Period := 14;
     LR := default_lr; LR_Higher_Timeframe := 240 |}.

Definition DEFAULT_CONFIG : config := sample_config ["BTC_USDT"; "ETH_USDT"] 15.

(** 250 candles closing at 100 throughout: once with no range at all,
    once with highs at 101 and lows at 99. *)
Definition flat_closes : list Qc := replicate 250 (Qc_of_Z 100).
Definition flat_highs : list Qc := replicate 250 (Qc_of_Z 101).
Definition flat_lows : list Qc := replicate 250 (Qc_of_Z 99).





Definition sample_prices : list Qc :=
  [Qc_of_Z 1; Qc_of_Z 2; Qc_of_Z 3; Qc_of_Z 2; frac 5 2].

(** An exchange that answers no request, and one that answers every
    request with the same three candles in the column format. *)
Definition offline : world :=
  {| fetch_kline_data := fun _ _ _ _ => None; time_time := fun _ => 0 |}.

Definition sample_kline : json :=
  JDict (list_to_map
    [ ("close", JList [JNum (Qc_of_Z 2); JNum (Qc_of_Z 3); JNum (Qc_of_Z 4)]);
      ("high", JList [JNum (Qc_of_Z 3); JNum (Qc_of_Z 4); JNum (Qc_of_Z 5)]);
      ("low", JList [JNum (Qc_of_Z 1); JNum (Qc_of_Z 2); JNum (Qc_of_Z 3)]) ]).

Definition online : world :=
  {| fetch_kline_data := fun _ _ _ _ => Some sample_kline;
     time_time := fun _ => Qc_of_Z 1700000000 |}.

(** A reading of numeric strings that accepts none (the samples hold
    numbers only). *)
Definition no_numeric_strings : string → option Qc := fun _ => None.

(** A cache file tagged with timeframe 15 that holds one asset. *)
Definition stale_entry : cache_value :=
  asset_entry (Qc_of_Z 1600000000)
    [Qc_of_Z 3; Qc_of_Z 3; Qc_of_Z 3] [Qc_of_Z 1; Qc_of_Z 1; Qc_of_Z 1]
    [Qc_of_Z 2; Qc_of_Z 2; Qc_of_Z 2].

Definition stale_cache : gmap string cache_value :=
  list_to_map [ ("BTC_USDT", stale_entry); ("_metadata", metadata_entry 15) ].

Definition heartbeat : event := {| ev_type := "heartbeat"; ev_data := JNull |}.

Definition full_session : session :=
  {| s_running := true;
     s_queue := {| maxsize := 500; items := replicate 500 heartbeat |};
     s_config := None;
     s_data := ∅ |}.

(** Prices that rise by 1 at every step. *)
Definition rising_prices : list Qc :=
  [Qc_of_Z 1; Qc_of_Z 2; Qc_of_Z 3; Qc_of_Z 4; Qc_of_Z 5].

(** One candle in the row format with long keys. *)
Definition sample_rows : list json :=
  [ JDict (list_to_map [ ("close", JNum (Qc_of_Z 2));
                         ("high", JNum (Qc_of_Z 3));
                         ("low", JNum (Qc_of_Z 1)) ]) ].

(** A server with one session, which is not running. *)
Definition sample_server : server :=
  {| sessions := {[ "alice" := new_session ]};
     last_active := {[ "alice" := Qc_of_Z 1000 ]} |}.


(** * Properties *)

(** ** Arithmetic on [Qc] and on Python's [sum] *)

Lemma Qc_of_nat_0 : Qc_of_nat 0 = 0.
Proof. apply Z2Qc_inj_0. Qed.

Lemma Qc_of_nat_S (n : nat) : Qc_of_nat (S n) = Qc_of_nat n + 1.
Proof.
  unfold Qc_of_nat. rewrite Nat2Z.inj_succ, <- Z.add_1_r.
  by rewrite Z2Qc_inj_add, Z2Qc_inj_1.
Qed.

Lemma Qc_of_nat_ne_0 (n : nat) : (1 ≤ n)%nat → Qc_of_nat n ≠ 0.
Proof.
  intros Hn. unfold Qc_of_nat. rewrite <- Z2Qc_inj_0.
  intros H%Z2Qc_inj. lia.
Qed.

Lemma Qc_of_nat_lt (n m : nat) : (n < m)%nat → Qc_of_nat n < Qc_of_nat m.
Proof. intros H. unfold Qc_of_nat. apply (proj1 (Z2Qc_inj_lt _ _)). lia. Qed.

Lemma Qc_one_of_nat : 1 = Qc_of_nat 1.
Proof. by apply Qc_is_canon. Qed.


Lemma Qcopp_neg_iff (d : Qc) : - d < 0 ↔ 0 < d.
Proof.
  rewrite (Qcplus_lt_mono_r (- d) 0 d).
  by replace (- d + d) with 0 by ring; replace (0 + d) with d by ring.
Qed.

Lemma py_div_pos (x : Qc) (n : nat) :
  (1 ≤ n)%nat → py_div x n = Return (x / Qc_of_nat n).
Proof. destruct n; [lia | done]. Qed.

Lemma py_bind_Return {A B} (m : py A) (f : A → py B) (b : B) :
  m ≫= f = Return b → ∃ a, m = Return a ∧ f a = Return b.
Proof. destruct m as [a|e]; simpl; [by eexists | discriminate]. Qed.

Lemma fold_left_plus_acc (l : list Qc) (a : Qc) :
  fold_left Qcplus l a = a + py_sum l.
Proof.
  unfold py_sum. revert a. induction l as [|x l IH]; intros a; simpl.
  - ring.
  - rewrite IH, (IH (0 + x)). ring.
Qed.

Lemma py_sum_nil : py_sum [] = 0.
Proof. done. Qed.

Lemma py_sum_cons (x : Qc) (l : list Qc) : py_sum (x :: l) = x + py_sum l.
Proof. unfold py_sum at 1. simpl. rewrite fold_left_plus_acc. ring. Qed.

Lemma py_sum_app (l k : list Qc) : py_sum (l ++ k) = py_sum l + py_sum k.
Proof.
  induction l as [|x l IH]; simpl.
  - rewrite py_sum_nil. ring.
  - rewrite !py_sum_cons, IH. ring.
Qed.

Lemma py_sum_replicate (n : nat) (c : Qc) :
  py_sum (replicate n c) = Qc_of_nat n * c.
Proof.
  induction n as [|n IH]; simpl.
  - rewrite py_sum_nil, Qc_of_nat_0. ring.
  - rewrite py_sum_cons, IH, Qc_of_nat_S. ring.
Qed.

Lemma py_sum_zeros (l : list Qc) : Forall (fun a => a = 0) l → py_sum l = 0.
Proof.
  induction 1 as [|a l -> _ IH]; [done|]. rewrite py_sum_cons, IH. ring.
Qed.


(** A loop over [range(p, len(l))] that reads [l[i]] is a fold over
    [l[p:]]. *)
Lemma drop_as_map_nth {A} (d : A) (l : list A) (p : nat) :
  drop p l = map (fun i => nth i l d) (seq p (length l - p)).
Proof.
  revert p. induction l as [|a l IH]; intros p; [by destruct p|].
  destruct p as [|p]; simpl.
  - f_equal. rewrite <- seq_shift, map_map. simpl.
    specialize (IH 0%nat). rewrite drop_0, Nat.sub_0_r in IH. exact IH.
  - rewrite IH. rewrite <- seq_shift, map_map. done.
Qed.

Lemma fold_left_indexed {A B} (g : B → A → B) (d : A) (l : list A)
    (p : nat) (b : B) :
  fold_left (fun acc i => g acc (nth i l d)) (seq p (length l - p)) b
  = fold_left g (drop p l) b.
Proof.
  rewrite (drop_as_map_nth d).
  generalize (seq p (length l - p)). intros idx. revert b.
  induction idx as [|i idx IH]; intros b; simpl; [done | apply IH].
Qed.

(** A loop that updates two accumulators side by side is two loops. *)
Lemma fold_left_pair {A B C} (f : A → C → A) (h : B → C → B)
    (l : list C) (a : A) (b : B) :
  fold_left (fun '(x, y) i => (f x i, h y i)) l (a, b)
  = (fold_left f l a, fold_left h l b).
Proof.
  revert a b. induction l as [|c l IH]; intros a b; simpl; [done | apply IH].
Qed.

(** ** RSI *)

Lemma rsi_deltas_cons (a : Qc) (l : list Qc) :
  rsi_deltas (a :: l)
  = zip_with (fun previous current => current - previous) (a :: l) l.
Proof.
  unfold rsi_deltas.
  replace (length (a :: l) - 1)%nat with (length l) by (simpl; lia).
  set (sub := fun previous current : Qc => current - previous).
  revert a. induction l as [|b l IH]; intros a; [done|].
  simpl length. rewrite <- cons_seq, <- seq_shift, map_cons, map_map.
  change (zip_with sub (a :: b :: l) (b :: l))
    with (sub a b :: zip_with sub (b :: l) l).
  f_equal.
  rewrite <- IH. apply map_ext_in. intros i Hi%in_seq.
  destruct i as [|i]; [lia|]. simpl. by rewrite Nat.sub_0_r.
Qed.

Lemma rsi_deltas_spec (prices : list Qc) :
  rsi_deltas prices = RSI_spec.deltas prices.
Proof. destruct prices as [|a l]; [done | apply rsi_deltas_cons]. Qed.

Lemma rsi_deltas_length (prices : list Qc) :
  length (rsi_deltas prices) = (length prices - 1)%nat.
Proof. unfold rsi_deltas. by rewrite length_map, length_seq. Qed.

Lemma rsi_gains_spec (deltas : list Qc) :
  rsi_gains deltas = map RSI_spec.gain deltas.
Proof.
  unfold rsi_gains. apply map_ext. intros d.
  unfold RSI_spec.gain, py_max.
  repeat case_bool_decide; try done.
  - exfalso. eapply Qclt_not_le; [eassumption|]. by apply Qclt_le_weak.
  - apply Qcle_antisym; by apply Qcnot_lt_le.
Qed.

Lemma rsi_losses_spec (deltas : list Qc) :
  rsi_losses deltas = map RSI_spec.loss deltas.
Proof.
  unfold rsi_losses. apply map_ext. intros d.
  unfold RSI_spec.loss, py_max.
  pose proof (Qcopp_neg_iff d) as Hneg.
  repeat case_bool_decide; try done.
  - exfalso. apply Hneg in H0. eapply Qclt_not_le; [eassumption|].
    by apply Qclt_le_weak.
  - assert (d = 0) as ->.
    { apply Qcle_antisym; apply Qcnot_lt_le; [by rewrite <- Hneg | done]. }
    ring.
Qed.

(** C4.  For every price list and every period of at least 1,
    [calculate_rsi] returns [None] exactly when
    [len(prices) < period + 1]; otherwise it returns the RSI of the
    specification: averages seeded with the simple means of the first
    [period] gains and losses, Wilder smoothing over every later delta,
    then 100 when the final average loss is 0 and
    [100 - 100 / (1 + avg_gain / avg_loss)] otherwise. *)
Theorem calculate_rsi_refines_spec (prices : list Qc) (period : nat) :
  (1 ≤ period)%nat →
  (calculate_rsi prices period = Return None
   ↔ (length prices < period + 1)%nat)
  ∧ ((period + 1 ≤ length prices)%nat →
     calculate_rsi prices period = Return (Some (RSI_spec.RSI prices period))).
Proof.
  intros Hp.
  assert (Hrun : (period + 1 ≤ length prices)%nat →
     calculate_rsi prices period = Return (Some (RSI_spec.RSI prices period))).
  { intros Hlen. unfold calculate_rsi.
    rewrite bool_decide_eq_false_2 by lia.
    rewrite !py_div_pos by done. simpl.
    set (gains := rsi_gains (rsi_deltas prices)).
    set (losses := rsi_losses (rsi_deltas prices)).
    assert (Hg : length gains = (length prices - 1)%nat).
    { unfold gains, rsi_gains. by rewrite length_map, rsi_deltas_length. }
    assert (Hl : length losses = (length prices - 1)%nat).
    { unfold losses, rsi_losses. by rewrite length_map, rsi_deltas_length. }
    rewrite (fold_left_pair
               (fun avg i => (avg * (Qc_of_nat period - 1) + nth i gains 0)
                             / Qc_of_nat period)
               (fun avg i => (avg * (Qc_of_nat period - 1) + nth i losses 0)
                             / Qc_of_nat period)).
    rewrite <- Hg at 1. rewrite <- Hl.
    rewrite (fold_left_indexed (RSI_spec.wilder period) 0 gains).
    rewrite (fold_left_indexed (RSI_spec.wilder period) 0 losses).
    unfold RSI_spec.RSI, RSI_spec.smoothed, RSI_spec.mean, rsi_value.
    rewrite <- rsi_deltas_spec, <- rsi_gains_spec, <- rsi_losses_spec.
    fold gains losses.
    rewrite !length_take, Hg, Hl, !Nat.min_l by lia.
    done. }
  split; [|exact Hrun].
  split.
  - intros Hnone.
    destruct (decide (length prices < period + 1)%nat) as [|Hge]; [done|].
    rewrite Hrun in Hnone by lia. discriminate.
  - intros Hlt. unfold calculate_rsi. by rewrite bool_decide_eq_true_2.
Qed.

Lemma calculate_rsi_refines_spec_witness :
  (1 ≤ 2)%nat
  ∧ calculate_rsi sample_prices 2
    = Return (Some (RSI_spec.RSI sample_prices 2))
  ∧ (calculate_rsi sample_prices 2 = Return None
     ↔ (length sample_prices < 2 + 1)%nat).
Proof.
  split; [lia|].
  destruct (calculate_rsi_refines_spec sample_prices 2) as [Hnone Hrun]; [lia|].
  split; [apply Hrun; simpl; lia | exact Hnone].
Defined.

(** On the sample, five prices and period 2, the RSI is [200/3]. *)
Example calculate_rsi_sample :
  calculate_rsi sample_prices 2 = Return (Some (frac 200 3)).
Proof. do 2 f_equal. Qed.

Example calculate_rsi_period_zero :
  calculate_rsi sample_prices 0 = Raise ZeroDivisionError.
Proof. reflexivity. Qed.

(** ** EMA *)

Lemma ema_step_fixed_point (multiplier c : Qc) (n : nat) :
  fold_left (fun ema price => (price - ema) * multiplier + ema)
            (replicate n c) c = c.
Proof.
  induction n as [|n IH]; simpl; [done|].
  replace ((c - c) * multiplier + c) with c by ring. exact IH.
Qed.

(** C7.  For every period of at least 1, [calculate_ema] returns [None]
    exactly when [len(prices) < period + 20], and on every constant price
    series of length at least [period + 20] it returns that constant: the
    constant is a fixed point of the seed mean and of each EMA step. *)
Theorem calculate_ema_warmup_and_constant (period : nat) :
  (1 ≤ period)%nat →
  (∀ prices,
      calculate_ema prices period = Return None
      ↔ (length prices < period + 20)%nat)
  ∧ (∀ (c : Qc) (n : nat),
      (period + 20 ≤ n)%nat →
      calculate_ema (replicate n c) period = Return (Some c)).
Proof.
  intros Hp. split.
  - intros prices. unfold calculate_ema. case_bool_decide as Hlen.
    + done.
    + rewrite py_div_pos by done. simpl. split; [discriminate | lia].
  - intros c n Hn. unfold calculate_ema.
    rewrite length_replicate, bool_decide_eq_false_2 by lia.
    rewrite take_replicate, drop_replicate, py_sum_replicate.
    rewrite Nat.min_l by lia.
    rewrite py_div_pos by done. simpl.
    replace (Qc_of_nat period * c / Qc_of_nat period) with c
      by (field; by apply Qc_of_nat_ne_0).
    by rewrite ema_step_fixed_point.
Qed.

Lemma calculate_ema_warmup_and_constant_witness :
  (1 ≤ 21)%nat
  ∧ calculate_ema flat_closes 21 = Return (Some (Qc_of_Z 100))
  ∧ (calculate_ema sample_prices 21 = Return None
     ↔ (length sample_prices < 21 + 20)%nat).
Proof.
  split; [lia|].
  destruct (calculate_ema_warmup_and_constant 21) as [Hnone Hconst]; [lia|].
  split; [apply Hconst; lia | apply Hnone].
Defined.

(** ** Trend classifier *)

Lemma np_arange_S (n : nat) : np_arange (S n) = np_arange n ++ [Qc_of_nat n].
Proof. unfold np_arange. by rewrite seq_S, map_app. Qed.

Lemma np_arange_length (n : nat) : length (np_arange n) = n.
Proof. unfold np_arange. by rewrite length_map, length_seq. Qed.

(** Gauss sums over [0 .. n-1], doubled and sextupled to stay free of
    division. *)
Lemma sum_arange (n : nat) :
  (1 + 1) * py_sum (np_arange n) = Qc_of_nat n * (Qc_of_nat n - 1).
Proof.
  induction n as [|n IH].
  - rewrite Qc_of_nat_0. unfold np_arange. simpl. rewrite py_sum_nil. ring.
  - rewrite np_arange_S, py_sum_app, py_sum_cons, py_sum_nil, Qc_of_nat_S.
    transitivity ((1 + 1) * py_sum (np_arange n) + (1 + 1) * Qc_of_nat n);
      [ring|].
    rewrite IH. ring.
Qed.

Lemma sum_arange_squares (n : nat) :
  (1 + 1) * (1 + 1 + 1) * py_sum (map (fun a => a * a) (np_arange n))
  = (Qc_of_nat n - 1) * Qc_of_nat n * ((1 + 1) * Qc_of_nat n - 1).
Proof.
  induction n as [|n IH].
  - rewrite Qc_of_nat_0. unfold np_arange. simpl. rewrite py_sum_nil. ring.
  - rewrite np_arange_S, map_app, py_sum_app. simpl map.
    rewrite py_sum_cons, py_sum_nil, Qc_of_nat_S.
    transitivity
      ((1 + 1) * (1 + 1 + 1) * py_sum (map (fun a => a * a) (np_arange n))
       + (1 + 1) * (1 + 1 + 1) * (Qc_of_nat n * Qc_of_nat n)); [ring|].
    rewrite IH. ring.
Qed.

(** The determinant of the normal equations for [x = arange(n)]:
    [12 (n Σx² - (Σx)²) = n² (n - 1) (n + 1)]. *)
Lemma polyfit_den_arange (n : nat) :
  (1 + 1) * (1 + 1) * (1 + 1 + 1)
  * (Qc_of_nat n * py_sum (map (fun a => a * a) (np_arange n))
     - py_sum (np_arange n) * py_sum (np_arange n))
  = Qc_of_nat n * Qc_of_nat n * (Qc_of_nat n - 1) * (Qc_of_nat n + 1).
Proof.
  pose proof (sum_arange n) as H1. pose proof (sum_arange_squares n) as H2.
  transitivity
    ((1 + 1) * Qc_of_nat n
     * ((1 + 1) * (1 + 1 + 1) * py_sum (map (fun a => a * a) (np_arange n)))
     - (1 + 1 + 1) * (((1 + 1) * py_sum (np_arange n))
                      * ((1 + 1) * py_sum (np_arange n)))); [ring|].
  rewrite H1, H2. ring.
Qed.

Lemma polyfit_den_arange_ne_0 (n : nat) :
  (2 ≤ n)%nat →
  Qc_of_nat n * py_sum (map (fun a => a * a) (np_arange n))
  - py_sum (np_arange n) * py_sum (np_arange n) ≠ 0.
Proof.
  intros Hn Hden. pose proof (polyfit_den_arange n) as H.
  rewrite Hden, Qcmult_0_r in H.
  assert (H0 : 0 < Qc_of_nat n).
  { rewrite <- Qc_of_nat_0. apply Qc_of_nat_lt. lia. }
  assert (H1 : 0 < Qc_of_nat n - 1).
  { rewrite Qc_one_of_nat.
    apply (proj2 (Qcplus_lt_mono_r _ _ (Qc_of_nat 1))).
    replace (Qc_of_nat n - Qc_of_nat 1 + Qc_of_nat 1) with (Qc_of_nat n) by ring.
    replace (0 + Qc_of_nat 1) with (Qc_of_nat 1) by ring.
    apply Qc_of_nat_lt. lia. }
  assert (H2 : 0 < Qc_of_nat n + 1).
  { apply Qcplus_pos_pos; [done|]. by apply Qclt_alt. }
  pose proof (Qcmult_pos_pos _ _
                (Qcmult_pos_pos _ _ (Qcmult_pos_pos _ _ H0 H0) H1) H2) as Hpos.
  rewrite <- H in Hpos. by apply Qclt_not_eq in Hpos.
Qed.

Lemma mapM_py_defined {A B} (f : A → py B) (l : list A) :
  (∀ x, x ∈ l → ∃ y, f x = Return y) → ∃ ys, mapM f l = Return ys.
Proof.
  induction l as [|x l IH]; intros Hf; simpl.
  - by eexists.
  - destruct (Hf x) as [y Hy]; [left|].
    destruct IH as [ys Hys]; [intros z Hz; apply Hf; by right|].
    rewrite Hy. simpl. rewrite Hys. simpl. by eexists.
Qed.

Lemma py_index_defined (l : list Qc) (i : nat) :
  (i < length l)%nat → ∃ x, py_index l i = Return x.
Proof.
  intros Hi. unfold py_index.
  destruct (lookup_lt_is_Some_2 l i Hi) as [x ->]. by eexists.
Qed.

(** With [highs] and [lows] as long as [closes], no index is out of
    range. *)
Lemma true_ranges_defined (highs lows closes : list Qc) :
  length highs = length closes → length lows = length closes →
  ∃ trs, true_ranges highs lows closes = Return trs.
Proof.
  intros Hh Hl. unfold true_ranges. apply mapM_py_defined.
  intros i Hi%elem_of_seq. unfold true_range.
  destruct (py_index_defined highs i) as [h ->]; [lia|].
  destruct (py_index_defined lows i) as [l ->]; [lia|].
  destruct (py_index_defined closes (i - 1)) as [c ->]; [lia|].
  simpl. by eexists.
Qed.

Lemma compute_atr_series_defined (highs lows closes : list Qc) (period : nat) :
  length highs = length closes → length lows = length closes →
  (1 ≤ period)%nat →
  ∃ series, compute_atr_series highs lows closes period = Return series.
Proof.
  intros Hh Hl Hp. unfold compute_atr_series.
  case_bool_decide; [by eexists|].
  destruct (true_ranges_defined highs lows closes Hh Hl) as [trs ->]. simpl.
  case_bool_decide; [by eexists|].
  rewrite py_div_pos by done. simpl. by eexists.
Qed.





(** ** Series cache *)

Lemma load_market_data_mismatch
    (data : gmap string cache_value) (current_timeframe : Z) :
  cached_timeframe data ≠ Some current_timeframe →
  load_market_data (FileContent data) current_timeframe = ∅.
Proof.
  unfold cached_timeframe, load_market_data. intros Hne.
  by rewrite bool_decide_eq_true_2
    by (by destruct (data !! "_metadata")).
Qed.

Lemma load_market_data_match
    (data : gmap string cache_value) (current_timeframe : Z) :
  cached_timeframe data = Some current_timeframe →
  load_market_data (FileContent data) current_timeframe = data.
Proof.
  unfold cached_timeframe, load_market_data. intros Heq.
  destruct (data !! "_metadata") as [meta|]; [|discriminate]. simpl in *.
  by rewrite bool_decide_eq_false_2 by (intros Hn; by apply Hn).
Qed.

(** C5.  Loading the market-data cache with a current timeframe that
    differs from the stored timeframe tag yields the empty cache, every
    entry discarded at once; when the tags match, the stored dictionary is
    returned unchanged. *)
Theorem load_market_data_timeframe_invalidation
    (data : gmap string cache_value) (current_timeframe : Z) :
  (cached_timeframe data ≠ Some current_timeframe →
     load_market_data (FileContent data) current_timeframe = ∅)
  ∧ (cached_timeframe data = Some current_timeframe →
     load_market_data (FileContent data) current_timeframe = data).
Proof.
  split; [apply load_market_data_mismatch | apply load_market_data_match].
Qed.

(** A populated cache tagged with timeframe 15: loading it for timeframe
    60 yields the empty cache, loading it for 15 returns it. *)
Example load_market_data_sample :
  load_market_data (FileContent stale_cache) 60 = ∅
  ∧ load_market_data (FileContent stale_cache) 15 = stale_cache.
Proof. split; reflexivity. Qed.

Example load_market_data_no_file (current_timeframe : Z) :
  load_market_data FileMissing current_timeframe = ∅
  ∧ load_market_data FileUnreadable current_timeframe = ∅.
Proof. split; reflexivity. Qed.

(** ** Alert composition *)

(** C2.  Whatever the %K/%D pair, the thresholds and the price, when the
    long EMA is undefined the stochastic block under method 2 produces
    the alert that method 1 produces for the same stochastic inputs, in
    [main] and in [screener_loop]. *)
Theorem stoch_method2_without_ema_is_method1
    (symbol : string) (stoch_k stoch_d stoch_overbought stoch_oversold : Qc)
    (ema_long_period : nat) (current_price : option Qc)
    (ema_long : option Qc) :
  main_stoch_alerts symbol stoch_k stoch_d stoch_overbought stoch_oversold 2
      None ema_long_period current_price
  = main_stoch_alerts symbol stoch_k stoch_d stoch_overbought stoch_oversold 1
      ema_long ema_long_period current_price
  ∧ web_stoch_alerts stoch_k stoch_d stoch_overbought stoch_oversold 2
      None ema_long_period current_price
  = web_stoch_alerts stoch_k stoch_d stoch_overbought stoch_oversold 1
      ema_long ema_long_period current_price.
Proof. split; reflexivity. Qed.

Lemma stoch_is_oversold_spec (k d os : Qc) :
  stoch_is_oversold k d os = true ↔ oversold k d os.
Proof.
  unfold stoch_is_oversold, oversold.
  rewrite orb_true_iff, !bool_decide_eq_true. done.
Qed.

Lemma stoch_is_overbought_spec (k d ob : Qc) :
  stoch_is_overbought k d ob = true ↔ overbought k d ob.
Proof.
  unfold stoch_is_overbought, overbought.
  rewrite orb_true_iff, !bool_decide_eq_true. done.
Qed.

Lemma above_below_label_ne (p p' : nat) :
  above_ema_label p ≠ below_ema_label p'.
Proof. unfold above_ema_label, below_ema_label. simpl. discriminate. Qed.

(** C3.  Under method 2 with the long EMA defined, the bullish composite
    alert is emitted exactly when the oversold condition holds and the
    price is above the long EMA, and the bearish composite alert exactly
    when the overbought condition holds and the price is below it; neither
    determination depends on the other.  This holds in [main], where the
    two branches are separate statements, and in [screener_loop], where
    they are an [if]/[elif] whose price tests exclude each other. *)
Theorem stoch_method2_branches_independent
    (symbol : string) (stoch_k stoch_d stoch_overbought stoch_oversold : Qc)
    (ema_long price : Qc) (ema_long_period : nat) :
  (∃ sent,
      main_stoch_alerts symbol stoch_k stoch_d stoch_overbought stoch_oversold
        2 (Some ema_long) ema_long_period (Some price) = Return sent
      ∧ (buy_notification symbol stoch_d ema_long_period ∈ sent
         ↔ oversold stoch_k stoch_d stoch_oversold ∧ ema_long < price)
      ∧ (sell_notification symbol stoch_d ema_long_period ∈ sent
         ↔ overbought stoch_k stoch_d stoch_overbought ∧ price < ema_long))
  ∧ (∃ alerts,
      web_stoch_alerts stoch_k stoch_d stoch_overbought stoch_oversold
        2 (Some ema_long) ema_long_period (Some price) = Return alerts
      ∧ (buy_alert ema_long_period ∈ alerts
         ↔ oversold stoch_k stoch_d stoch_oversold ∧ ema_long < price)
      ∧ (sell_alert ema_long_period ∈ alerts
         ↔ overbought stoch_k stoch_d stoch_overbought ∧ price < ema_long)).
Proof.
  pose proof (stoch_is_oversold_spec stoch_k stoch_d stoch_oversold) as Hos.
  pose proof (stoch_is_overbought_spec stoch_k stoch_d stoch_overbought) as Hob.
  pose proof (above_below_label_ne ema_long_period ema_long_period) as Hne.
  assert (Hexcl : ema_long < price → price < ema_long → False).
  { intros H1 H2. exact (Qclt_not_le _ _ H1 (Qclt_le_weak _ _ H2)). }
  unfold main_stoch_alerts, web_stoch_alerts, buy_notification,
    sell_notification, buy_alert, sell_alert; simpl.
  destruct (stoch_is_oversold _ _ _), (stoch_is_overbought _ _ _); simpl;
    repeat case_bool_decide; simpl.
  all: split; eexists; (split; [reflexivity|]).
  all: rewrite ?elem_of_cons, ?elem_of_nil.
  all: split; split; intros.
  all: repeat match goal with
         | H : _ ∨ _ |- _ => destruct H
         | H : _ ∧ _ |- _ => destruct H
         | H : False |- _ => destruct H
         end.
  all: try (left; reflexivity).
  all: try (right; left; reflexivity).
  all: try (split; [first [apply Hos | apply Hob]; reflexivity | assumption]).
  all: try (exfalso; simplify_eq; congruence).
  all: try (exfalso; eauto; fail).
  all: try (exfalso;
            match goal with
            | H : oversold _ _ _ |- _ => apply Hos in H; discriminate
            | H : overbought _ _ _ |- _ => apply Hob in H; discriminate
            end).
Qed.

(** Both composite alerts at once: %K oversold, %D overbought, and the
    price on the matching side is impossible, so at most one is sent; but
    an oversold signal does not mask an overbought one.  Here %K = 10 and
    %D = 90 with the price below the EMA: [main] sends the bearish alert. *)
Example stoch_method2_both_conditions :
  main_stoch_alerts "BTC_USDT" (Qc_of_Z 10) (Qc_of_Z 90) (Qc_of_Z 80)
    (Qc_of_Z 20) 2 (Some (Qc_of_Z 100)) 200 (Some (Qc_of_Z 95))
  = Return [sell_notification "BTC_USDT" (Qc_of_Z 90) 200]
  ∧ web_stoch_alerts (Qc_of_Z 10) (Qc_of_Z 90) (Qc_of_Z 80)
    (Qc_of_Z 20) 2 (Some (Qc_of_Z 100)) 200 (Some (Qc_of_Z 95))
  = Return [sell_alert 200].
Proof. split; reflexivity. Qed.

(** ** Refresh cycle *)

Section CycleFacts.
Variable float_of_str : string → option Qc.
Variable w : world.
Variable cfg : config.

(** What one iteration of [main]'s loop does, when it returns. *)
Lemma main_symbol_Return (i : nat) (symbol : string) (st st' : main_state) :
  main_symbol float_of_str w cfg i symbol st = Return st' →
  market_data st'
  = refreshed_cache float_of_str w cfg i symbol (market_data st)
  ∧ (refreshed_count st ≤ refreshed_count st')%nat
  ∧ match market_data st' !! symbol ≫= cached_series with
    | Some series =>
        computed st' = computed st ++ [(symbol, series)]
        ∧ requests st'
          = requests st
            ++ (symbol, get_interval_str (Timeframe cfg), 250%nat)
               :: higher_timeframe_requests cfg symbol
    | None =>
        computed st' = computed st
        ∧ requests st'
          = requests st
            ++ [(symbol, get_interval_str (Timeframe cfg), 250%nat)]
    end.
Proof.
  unfold main_symbol, refreshed_cache, fresh_series.
  destruct (refreshed_series _ _) as [[[highs lows] closes]|]; simpl.
  - rewrite lookup_insert_eq. simpl.
    intros (alerts & _ & H)%py_bind_Return.
    apply py_bind_Return in H as (_ & _ & H). injection H as <-. simpl.
    rewrite lookup_insert_eq. simpl.
    repeat split; try done; try lia. by rewrite <- app_assoc.
  - destruct (market_data st !! symbol) as [e|] eqn:He; simpl.
    + case_bool_decide as Hempty.
      * intros [= <-]. simpl. rewrite He. simpl. subst e. simpl.
        repeat split; try done.
      * unfold cached_series.
        destruct (e_prices e) as [prices|] eqn:Hp; simpl.
        -- intros (alerts & _ & H)%py_bind_Return.
           apply py_bind_Return in H as (_ & _ & H). injection H as <-. simpl.
           rewrite He. simpl. rewrite Hp. simpl.
           repeat split; try done. by rewrite <- app_assoc.
        -- intros [= <-]. simpl. rewrite He. simpl. rewrite Hp. simpl.
           repeat split; try done.
    + intros [= <-]. simpl. rewrite He. simpl. repeat split; try done.
Qed.



(** The end of a cycle of [main]: the cache is tagged and saved when at
    least one symbol was refreshed, and left alone otherwise. *)
Lemma main_cycle_Return (file file' : data_file) (st : main_state) :
  main_cycle float_of_str w cfg file = Return (st, file') →
  ∃ st0,
    main_symbols float_of_str w cfg 0 (Assets cfg)
      {| market_data := load_market_data file (Timeframe cfg);
         refreshed_count := 0; requests := []; notifications := [];
         computed := [] |} = Return st0
    ∧ refreshed_count st = refreshed_count st0
    ∧ requests st = requests st0
    ∧ computed st = computed st0
    ∧ ((0 < refreshed_count st0)%nat →
         market_data st
         = <["_metadata" := metadata_entry (Timeframe cfg)]> (market_data st0)
         ∧ file' = FileContent (market_data st))
    ∧ (refreshed_count st0 = 0%nat → st = st0 ∧ file' = file).
Proof.
  unfold main_cycle. intros (st0 & H0 & H)%py_bind_Return.
  exists st0. split; [done|].
  case_bool_decide as Hc; injection H as <- <-; simpl;
    repeat split; try done; try lia.
Qed.

Lemma higher_timeframe_requests_interval (symbol : string)
    (r : string * string * nat) :
  r ∈ higher_timeframe_requests cfg symbol →
  r.1.2 = get_interval_str (LR_Higher_Timeframe cfg).
Proof.
  unfold higher_timeframe_requests. case_bool_decide.
  - by intros ->%list_elem_of_singleton.
  - by intros ?%elem_of_nil.
Qed.

(** The queries of a cycle of [main]: one base query for each asset, at
    the interval of the configured timeframe; every other query is a
    higher-timeframe one. *)
Lemma main_symbols_requests (assets : list string) (base : nat)
    (st st' : main_state) :
  main_symbols float_of_str w cfg base assets st = Return st' →
  (∀ r, r ∈ requests st → r ∈ requests st')
  ∧ (∀ symbol, symbol ∈ assets →
       (symbol, get_interval_str (Timeframe cfg), 250%nat) ∈ requests st')
  ∧ (∀ r, r ∈ requests st' →
       r ∈ requests st
       ∨ r.1.2 = get_interval_str (Timeframe cfg)
       ∨ r.1.2 = get_interval_str (LR_Higher_Timeframe cfg)).
Proof.
  revert base st. induction assets as [|a assets IH]; intros base st; simpl.
  - intros [= <-]. repeat split; try done.
    + by intros r ?%elem_of_nil.
    + by left.
  - intros (st1 & H1 & Hrest)%py_bind_Return.
    destruct (IH _ _ Hrest) as (Hkeep & Hbase & Hall).
    apply main_symbol_Return in H1 as (_ & _ & Hreq).
    assert (Hsent : ∃ extra,
               requests st1
               = requests st
                 ++ (a, get_interval_str (Timeframe cfg), 250%nat) :: extra
               ∧ ∀ r, r ∈ extra →
                      r.1.2 = get_interval_str (LR_Higher_Timeframe cfg)).
    { destruct (market_data st1 !! a ≫= cached_series).
      - destruct Hreq as [_ ->]. eexists. split; [done|].
        apply higher_timeframe_requests_interval.
      - destruct Hreq as [_ ->]. exists []. split; [done|].
        by intros r ?%elem_of_nil. }
    destruct Hsent as (extra & Hst1 & Hextra).
    split; [|split].
    + intros r Hr. apply Hkeep. rewrite Hst1, elem_of_app. by left.
    + intros symbol [->|Hin]%elem_of_cons; [|by apply Hbase].
      apply Hkeep. rewrite Hst1, elem_of_app, elem_of_cons. right. by left.
    + intros r Hr. destruct (Hall r Hr) as [H|[H|H]].
      * rewrite Hst1, elem_of_app, elem_of_cons in H.
        destruct H as [H|[->|H]].
        -- by left.
        -- right. by left.
        -- right. right. by apply Hextra.
      * right. by left.
      * by right; right.
Qed.


End CycleFacts.




(** In [main] the same failing cycle analyses the stale entry. *)
Example main_failed_symbol_sample :
  ∃ st file',
    main_cycle no_numeric_strings offline DEFAULT_CONFIG
      (FileContent stale_cache) = Return (st, file')
    ∧ file' = FileContent stale_cache
    ∧ refreshed_count st = 0%nat
    ∧ computed st
      = [("BTC_USDT",
          ([Qc_of_Z 2; Qc_of_Z 2; Qc_of_Z 2],
           [Qc_of_Z 3; Qc_of_Z 3; Qc_of_Z 3],
           [Qc_of_Z 1; Qc_of_Z 1; Qc_of_Z 1]))].
Proof.
  do 2 eexists. split; [vm_compute; reflexivity|].
  split; [reflexivity|]. split; reflexivity.
Qed.

(** X18.  What a cycle of [main] saves is tagged with the cycle's
    timeframe: the next load returns it for the same timeframe and
    discards it for any other. *)
Lemma main_cycle_saved_cache_reload
    (float_of_str : string → option Qc) (w : world) (cfg : config)
    (file file' : data_file) (st : main_state) (other : Z) :
  main_cycle float_of_str w cfg file = Return (st, file') →
  (0 < refreshed_count st)%nat →
  load_market_data file' (Timeframe cfg) = market_data st
  ∧ (other ≠ Timeframe cfg → load_market_data file' other = ∅).
Proof.
  intros Hcycle Hpos.
  apply main_cycle_Return in Hcycle as (st0 & _ & Hcount & _ & _ & Hsave & _).
  rewrite Hcount in Hpos. destruct (Hsave Hpos) as [Hmd ->].
  assert (Htag : cached_timeframe (market_data st) = Some (Timeframe cfg)).
  { rewrite Hmd. unfold cached_timeframe. by rewrite lookup_insert_eq. }
  split.
  - by apply load_market_data_match.
  - intros Hne. apply load_market_data_mismatch. rewrite Htag.
    intros [= H]. by apply Hne.
Qed.

(** ** Timeframes *)

Lemma interval_mapping_unrecognized (minutes : Z) :
  minutes ∉ recognized_minutes → interval_mapping !! minutes = None.
Proof.
  intros Hn. unfold interval_mapping, recognized_minutes in *.
  apply not_elem_of_list_to_map_1. simpl. exact Hn.
Qed.

Lemma get_interval_str_default (minutes : Z) :
  minutes ∉ recognized_minutes → get_interval_str minutes = "Min15".
Proof.
  intros Hn. unfold get_interval_str.
  by rewrite interval_mapping_unrecognized.
Qed.

(** C10.  [get_interval_str] returns ["Min15"] for every number of
    minutes outside the recognised set.  So in a cycle of [main] with
    such a timeframe every asset is fetched at the interval ["Min15"],
    while the cache, when it is saved, is tagged with the unrecognised
    number. *)
Theorem unrecognized_timeframe_defaults_to_Min15 (minutes : Z) :
  minutes ∉ recognized_minutes →
  get_interval_str minutes = "Min15"
  ∧ ∀ float_of_str w cfg file st file',
      Timeframe cfg = minutes →
      main_cycle float_of_str w cfg file = Return (st, file') →
      (∀ symbol, symbol ∈ Assets cfg →
         (symbol, "Min15", 250%nat) ∈ requests st)
      ∧ (∀ r, r ∈ requests st →
           r.1.2 = "Min15"
           ∨ r.1.2 = get_interval_str (LR_Higher_Timeframe cfg))
      ∧ ((0 < refreshed_count st)%nat →
           ∃ data, file' = FileContent data
                   ∧ cached_timeframe data = Some minutes).
Proof.
  intros Hn. pose proof (get_interval_str_default minutes Hn) as Hstr.
  split; [done|].
  intros float_of_str w cfg file st file' Htf Hcycle.
  apply main_cycle_Return
    in Hcycle as (st0 & Hloop & Hcount & Hreq & _ & Hsave & _).
  apply main_symbols_requests in Hloop as (_ & Hbase & Hall).
  rewrite Htf, Hstr in Hbase, Hall. rewrite Hreq, Hcount.
  split; [done|]. split.
  - intros r Hr. destruct (Hall r Hr) as [H|[H|H]].
    + by apply elem_of_nil in H.
    + by left.
    + by right.
  - intros Hpos. destruct (Hsave Hpos) as [Hmd ->]. eexists. split; [done|].
    rewrite Hmd. unfold cached_timeframe. rewrite lookup_insert_eq. simpl.
    by rewrite Htf.
Qed.

Lemma unrecognized_timeframe_defaults_to_Min15_witness :
  (7%Z ∉ recognized_minutes)
  ∧ get_interval_str 7 = "Min15"
  ∧ ∃ st file',
      main_cycle no_numeric_strings online (sample_config ["BTC_USDT"] 7)
        FileMissing = Return (st, file')
      ∧ ("BTC_USDT", "Min15", 250%nat) ∈ requests st
      ∧ ∃ data, file' = FileContent data ∧ cached_timeframe data = Some 7%Z.
Proof.
  assert (Hn : 7%Z ∉ recognized_minutes).
  { apply (bool_decide_unpack _). reflexivity. }
  split; [exact Hn|].
  destruct (unrecognized_timeframe_defaults_to_Min15 7 Hn) as [Hstr Hcycle].
  split; [exact Hstr|].
  destruct (main_cycle no_numeric_strings online (sample_config ["BTC_USDT"] 7)
              FileMissing) as [[st file']|e] eqn:Hrun.
  - exists st, file'. split; [reflexivity|].
    destruct (Hcycle no_numeric_strings online (sample_config ["BTC_USDT"] 7)
                FileMissing st file' eq_refl Hrun) as (Hbase & _ & Htag).
    split; [apply Hbase; left|].
    apply Htag. vm_compute in Hrun. injection Hrun as <- _. simpl. lia.
  - exfalso. vm_compute in Hrun. discriminate Hrun.
Defined.

Example get_interval_str_recognized :
  map get_interval_str recognized_minutes
  = ["Min1"; "Min5"; "Min15"; "Min30"; "Min60"; "Hour4"; "Hour8"; "Day1";
     "Week1"; "Month1"].
Proof. reflexivity. Qed.

(** ** Wake-up instant *)

(** C8, as amended.  For every clock reading and every positive
    timeframe, the wake-up instant [(now // interval + 1) * interval] is
    the smallest multiple of the interval strictly after [now]: it is at
    most one interval away, it equals [ceil(now / interval) * interval]
    when [now] is not a multiple of the interval, and it is
    [now + interval] when [now] is one. *)
Theorem next_interval_strictly_after (now_ts timeframe_mins : Z) :
  (0 < timeframe_mins)%Z →
  ∃ next,
    next_interval now_ts timeframe_mins = Return next
    ∧ (timeframe_mins * 60 | next)%Z
    ∧ (now_ts < next ≤ now_ts + timeframe_mins * 60)%Z
    ∧ (∀ m, (timeframe_mins * 60 | m)%Z → (now_ts < m)%Z → (next ≤ m)%Z)
    ∧ (now_ts `mod` (timeframe_mins * 60) ≠ 0 →
         next = ceil_boundary now_ts (timeframe_mins * 60))%Z
    ∧ (now_ts `mod` (timeframe_mins * 60) = 0 →
         next = now_ts + timeframe_mins * 60)%Z.
Proof.
  intros Htf. set (interval := (timeframe_mins * 60)%Z).
  assert (Hpos : (0 < interval)%Z) by (unfold interval; lia).
  exists ((now_ts `div` interval + 1) * interval)%Z.
  unfold next_interval. fold interval.
  rewrite bool_decide_eq_false_2 by lia.
  pose proof (Z.div_mod now_ts interval ltac:(lia)) as Hdm.
  pose proof (Z.mod_pos_bound now_ts interval Hpos) as Hb.
  split; [reflexivity|].
  split; [apply Z.divide_factor_r|].
  split; [nia|].
  split.
  { intros m [k ->] Hlt.
    assert (now_ts `div` interval < k)%Z by nia.
    nia. }
  split.
  - intros Hne. unfold ceil_boundary.
    assert (Hneg : ((- now_ts) `div` interval
                    = - (now_ts `div` interval) - 1)%Z).
    { symmetry.
      apply (Z.div_unique_pos _ _ _ (interval - now_ts `mod` interval)%Z);
        lia. }
    rewrite Hneg. lia.
  - intros He. nia.
Qed.

Lemma next_interval_strictly_after_witness :
  (0 < 15)%Z
  ∧ ∃ next,
      next_interval 1700000123 15 = Return next
      ∧ next = 1700001000%Z
      ∧ next = ceil_boundary 1700000123 900.
Proof.
  split; [lia|].
  destruct (next_interval_strictly_after 1700000123 15)
    as (next & Hnext & _ & _ & _ & Hceil & _); [lia|].
  exists next. split; [exact Hnext|]. split.
  - vm_compute in Hnext. by injection Hnext as <-.
  - apply Hceil. discriminate.
Defined.

(** At an exact boundary the code waits a whole interval, where
    [ceil(now / interval) * interval] is [now] itself. *)
Lemma next_interval_exact_boundary_counterexample :
  next_interval 1800 15 = Return 2700%Z
  ∧ ceil_boundary 1800 (15 * 60) = 1800%Z
  ∧ next_interval 1800 15 ≠ Return (ceil_boundary 1800 (15 * 60)).
Proof. repeat split; try reflexivity. discriminate. Qed.

Example sleep_seconds_sample :
  sleep_seconds 1800 15 = Return 900%Z
  ∧ sleep_seconds 1700000123 15 = Return 877%Z
  ∧ sleep_seconds 1800 0 = Raise ZeroDivisionError.
Proof. repeat split. Qed.

(** ** Event queue *)

Lemma put_nowait_full (q : event_queue) (item : event) :
  queue_full q → put_nowait q item = Raise QueueFull.
Proof.
  intros [Hpos Hlen]. unfold put_nowait.
  by rewrite !bool_decide_eq_true_2.
Qed.

(** The queue of a session never grows beyond its capacity. *)
Lemma put_nowait_bounded (q q' : event_queue) (item : event) :
  (0 < maxsize q)%Z →
  (Z.of_nat (length (items q)) ≤ maxsize q)%Z →
  put_nowait q item = Return q' →
  maxsize q' = maxsize q
  ∧ items q' = items q ++ [item]
  ∧ (Z.of_nat (length (items q')) ≤ maxsize q')%Z.
Proof.
  intros Hpos Hle. unfold put_nowait.
  rewrite (bool_decide_eq_true_2 _ Hpos). simpl.
  case_bool_decide as Hfull; [discriminate|].
  intros [= <-]. simpl. repeat split; try done.
  rewrite length_app. simpl. lia.
Qed.

(** C9.  For every session whose bounded event queue is full,
    [push_event] drops the new event and returns normally: it neither
    waits nor raises, and the registry, hence the queue's contents, is
    what it was. *)
Theorem push_event_full_queue_drops
    (sessions : gmap string session) (session_id event_type : string)
    (data : json) (s : session) :
  sessions !! session_id = Some s →
  queue_full (s_queue s) →
  push_event sessions session_id event_type data = Return sessions.
Proof.
  intros Hs Hfull. unfold push_event. rewrite Hs.
  by rewrite put_nowait_full.
Qed.

Lemma push_event_full_queue_drops_witness :
  push_event {[ "client-1" := full_session ]} "client-1" "countdown"
    (JNum (Qc_of_Z 5))
  = Return {[ "client-1" := full_session ]}.
Proof.
  apply (push_event_full_queue_drops _ _ _ _ full_session).
  - apply lookup_singleton_eq.
  - unfold queue_full. simpl. lia.
Defined.

(** A queue with room takes the event at its end; an unknown session
    takes nothing. *)
Example push_event_sample :
  push_event {[ "client-1" := new_session ]} "client-1" "heartbeat" JNull
  = Return {[ "client-1" :=
      {| s_running := false;
         s_queue := {| maxsize := 500; items := [heartbeat] |};
         s_config := None; s_data := ∅ |} ]}
  ∧ push_event {[ "client-1" := new_session ]} "client-2" "heartbeat" JNull
  = Return {[ "client-1" := new_session ]}.
Proof.
  split.
  - unfold push_event. rewrite lookup_singleton_eq. simpl.
    by rewrite insert_singleton_eq.
  - unfold push_event. by rewrite lookup_singleton_ne.
Qed.

Example get_session_creates_bounded_queue (sessions : gmap string session)
    (session_id : string) :
  sessions !! session_id = None →
  maxsize (s_queue (get_session sessions session_id).2) = 500%Z
  ∧ (get_session sessions session_id).1 !! session_id = Some new_session.
Proof.
  intros Hnone. unfold get_session. rewrite Hnone. simpl.
  split; [done | apply lookup_insert_eq].
Qed.

(** * Further properties of the code *)

(** ** Order on [Qc] *)

Lemma Qcle_by_diff (x y : Qc) : 0 ≤ y - x → x ≤ y.
Proof. intros H. by apply Qcle_minus_iff. Qed.

Lemma Qcdiff_nonneg (x y : Qc) : x ≤ y → 0 ≤ y - x.
Proof. intros H. by apply Qcle_minus_iff in H. Qed.

Lemma Qclt_by_diff (x y : Qc) : 0 < y - x → x < y.
Proof. intros H. by apply Qclt_minus_iff. Qed.

Lemma Qcinv_nonneg (x : Qc) : 0 ≤ x → 0 ≤ / x.
Proof.
  intros Hx. destruct (decide (x = 0)) as [->|Hne].
  - replace (/ 0) with 0 by (by apply Qc_is_canon). apply Qcle_refl.
  - apply Qclt_le_weak, Qcinv_pos.
    destruct (Qcle_lt_or_eq _ _ Hx) as [H|H]; [done | by subst].
Qed.

Lemma Qcdiv_nonneg (x y : Qc) : 0 ≤ x → 0 ≤ y → 0 ≤ x / y.
Proof.
  intros Hx Hy. unfold Qcdiv.
  apply Qcmult_nonneg_nonneg; [done | by apply Qcinv_nonneg].
Qed.

Lemma Qcdiv_pos (x y : Qc) : 0 < x → 0 < y → 0 < x / y.
Proof.
  intros Hx Hy. unfold Qcdiv. apply Qcmult_pos_pos; [done | by apply Qcinv_pos].
Qed.

Lemma Qc_of_nat_nonneg (n : nat) : 0 ≤ Qc_of_nat n.
Proof.
  rewrite <- Qc_of_nat_0. unfold Qc_of_nat.
  apply (proj1 (Z2Qc_inj_le _ _)). lia.
Qed.

Lemma Qc_of_nat_pos (n : nat) : (1 ≤ n)%nat → 0 < Qc_of_nat n.
Proof. intros Hn. rewrite <- Qc_of_nat_0. apply Qc_of_nat_lt. lia. Qed.

Lemma Qc_of_nat_pred_nonneg (n : nat) : (1 ≤ n)%nat → 0 ≤ Qc_of_nat n - 1.
Proof.
  intros Hn. destruct n as [|n]; [lia|]. rewrite Qc_of_nat_S.
  replace (Qc_of_nat n + 1 - 1) with (Qc_of_nat n) by ring.
  apply Qc_of_nat_nonneg.
Qed.

Lemma Qc_100_pos : 0 < Qc_of_Z 100.
Proof. rewrite <- Z2Qc_inj_0. by apply (proj1 (Z2Qc_inj_lt _ _)). Qed.

(** ** Sums and Wilder smoothing preserve sign *)

Lemma py_sum_nonneg (l : list Qc) : Forall (fun x => 0 ≤ x) l → 0 ≤ py_sum l.
Proof.
  induction 1 as [|x l Hx _ IH]; [apply Qcle_refl|].
  rewrite py_sum_cons. by apply Qcplus_nonneg_nonneg.
Qed.

Lemma py_sum_pos (l : list Qc) :
  l ≠ [] → Forall (fun x => 0 < x) l → 0 < py_sum l.
Proof.
  intros Hne Hall. destruct Hall as [|x l Hx Hl]; [done|].
  rewrite py_sum_cons. apply Qcplus_pos_nonneg; [done|].
  apply py_sum_nonneg. eapply Forall_impl; [exact Hl|].
  intros y Hy. by apply Qclt_le_weak.
Qed.

Lemma wilder_nonneg (period : nat) (avg x : Qc) :
  (1 ≤ period)%nat → 0 ≤ avg → 0 ≤ x → 0 ≤ RSI_spec.wilder period avg x.
Proof.
  intros Hp Ha Hx. unfold RSI_spec.wilder.
  apply Qcdiv_nonneg; [|apply Qc_of_nat_nonneg].
  apply Qcplus_nonneg_nonneg; [|done].
  apply Qcmult_nonneg_nonneg; [done | by apply Qc_of_nat_pred_nonneg].
Qed.

Lemma wilder_pos (period : nat) (avg x : Qc) :
  (1 ≤ period)%nat → 0 ≤ avg → 0 < x → 0 < RSI_spec.wilder period avg x.
Proof.
  intros Hp Ha Hx. unfold RSI_spec.wilder.
  apply Qcdiv_pos; [|by apply Qc_of_nat_pos].
  apply Qcplus_nonneg_pos; [|done].
  apply Qcmult_nonneg_nonneg; [done | by apply Qc_of_nat_pred_nonneg].
Qed.

Lemma wilder_zero (period : nat) :
  RSI_spec.wilder period 0 0 = 0.
Proof. unfold RSI_spec.wilder, Qcdiv. ring. Qed.

Lemma fold_wilder_nonneg (period : nat) (l : list Qc) (a : Qc) :
  (1 ≤ period)%nat → 0 ≤ a → Forall (fun x => 0 ≤ x) l →
  0 ≤ fold_left (RSI_spec.wilder period) l a.
Proof.
  intros Hp Ha Hl. revert a Ha.
  induction Hl as [|x l Hx _ IH]; intros a Ha; simpl; [done|].
  apply IH. by apply wilder_nonneg.
Qed.

Lemma fold_wilder_pos (period : nat) (l : list Qc) (a : Qc) :
  (1 ≤ period)%nat → 0 < a → Forall (fun x => 0 < x) l →
  0 < fold_left (RSI_spec.wilder period) l a.
Proof.
  intros Hp Ha Hl. revert a Ha.
  induction Hl as [|x l Hx _ IH]; intros a Ha; simpl; [done|].
  apply IH. apply wilder_pos; [done | by apply Qclt_le_weak | done].
Qed.

Lemma fold_wilder_zero (period : nat) (l : list Qc) :
  Forall (fun x => x = 0) l → fold_left (RSI_spec.wilder period) l 0 = 0.
Proof.
  induction 1 as [|x l -> _ IH]; simpl; [done|]. by rewrite wilder_zero.
Qed.

Lemma smoothed_nonneg (period : nat) (l : list Qc) :
  (1 ≤ period)%nat → Forall (fun x => 0 ≤ x) l →
  0 ≤ RSI_spec.smoothed period l.
Proof.
  intros Hp Hl. unfold RSI_spec.smoothed, RSI_spec.mean.
  apply fold_wilder_nonneg; [done| |by apply Forall_drop].
  apply Qcdiv_nonneg; [|apply Qc_of_nat_nonneg].
  apply py_sum_nonneg. by apply Forall_take.
Qed.

Lemma smoothed_zero (period : nat) (l : list Qc) :
  Forall (fun x => x = 0) l → RSI_spec.smoothed period l = 0.
Proof.
  intros Hl. unfold RSI_spec.smoothed, RSI_spec.mean.
  rewrite py_sum_zeros by (by apply Forall_take).
  replace (0 / Qc_of_nat (length (take period l))) with 0
    by (unfold Qcdiv; ring).
  apply fold_wilder_zero. by apply Forall_drop.
Qed.

Lemma smoothed_pos (period : nat) (l : list Qc) :
  (1 ≤ period ≤ length l)%nat → Forall (fun x => 0 < x) l →
  0 < RSI_spec.smoothed period l.
Proof.
  intros [Hp Hlen] Hl. unfold RSI_spec.smoothed, RSI_spec.mean.
  apply fold_wilder_pos; [done| |by apply Forall_drop].
  rewrite length_take, Nat.min_l by done.
  apply Qcdiv_pos; [|by apply Qc_of_nat_pos].
  apply py_sum_pos; [|by apply Forall_take].
  destruct l; simpl in *; [lia|]. destruct period; [lia | done].
Qed.

(** ** RSI *)

(** With enough prices the averages [calculate_rsi] ends with are the
    Wilder-smoothed gains and losses. *)
Lemma calculate_rsi_averages (prices : list Qc) (period : nat) :
  (1 ≤ period)%nat → (period + 1 ≤ length prices)%nat →
  calculate_rsi prices period
  = Return (Some (rsi_value
                    (RSI_spec.smoothed period (rsi_gains (rsi_deltas prices)))
                    (RSI_spec.smoothed period (rsi_losses (rsi_deltas prices))))).
Proof.
  intros Hp Hlen. unfold calculate_rsi.
  rewrite bool_decide_eq_false_2 by lia.
  rewrite !py_div_pos by done. simpl.
  set (gains := rsi_gains (rsi_deltas prices)).
  set (losses := rsi_losses (rsi_deltas prices)).
  assert (Hg : length gains = (length prices - 1)%nat).
  { unfold gains, rsi_gains. by rewrite length_map, rsi_deltas_length. }
  assert (Hl : length losses = (length prices - 1)%nat).
  { unfold losses, rsi_losses. by rewrite length_map, rsi_deltas_length. }
  rewrite (fold_left_pair
             (fun avg i => (avg * (Qc_of_nat period - 1) + nth i gains 0)
                           / Qc_of_nat period)
             (fun avg i => (avg * (Qc_of_nat period - 1) + nth i losses 0)
                           / Qc_of_nat period)).
  rewrite <- Hg at 1. rewrite <- Hl.
  rewrite (fold_left_indexed (RSI_spec.wilder period) 0 gains).
  rewrite (fold_left_indexed (RSI_spec.wilder period) 0 losses).
  unfold RSI_spec.smoothed, RSI_spec.mean.
  by rewrite !length_take, Hg, Hl, !Nat.min_l by lia.
Qed.

Lemma rsi_gains_nonneg (deltas : list Qc) :
  Forall (fun x => 0 ≤ x) (rsi_gains deltas).
Proof.
  unfold rsi_gains. apply Forall_forall. intros x Hx.
  apply list_elem_of_fmap in Hx as (d & -> & _).
  case_bool_decide; [by apply Qclt_le_weak | apply Qcle_refl].
Qed.

Lemma rsi_losses_nonneg (deltas : list Qc) :
  Forall (fun x => 0 ≤ x) (rsi_losses deltas).
Proof.
  unfold rsi_losses. apply Forall_forall. intros x Hx.
  apply list_elem_of_fmap in Hx as (d & -> & _).
  case_bool_decide as Hd; [|apply Qcle_refl].
  apply Qclt_le_weak. apply Qclt_by_diff.
  replace (- d - 0) with (0 - d) by ring. by apply Qclt_minus_iff in Hd.
Qed.

Lemma rsi_from_strength_range (rs : Qc) :
  0 ≤ rs → 0 ≤ Qc_of_Z 100 - Qc_of_Z 100 / (1 + rs) ≤ Qc_of_Z 100.
Proof.
  intros Hrs.
  assert (Hden : 0 < 1 + rs).
  { apply Qcplus_pos_nonneg; [by apply Qclt_alt | done]. }
  assert (Hne : 1 + rs ≠ 0).
  { intros H. rewrite H in Hden. by apply Qclt_not_eq in Hden. }
  split.
  - replace (Qc_of_Z 100 - Qc_of_Z 100 / (1 + rs))
      with (Qc_of_Z 100 * rs / (1 + rs)) by (field; done).
    apply Qcdiv_nonneg; [|by apply Qclt_le_weak].
    apply Qcmult_nonneg_nonneg; [apply Qclt_le_weak, Qc_100_pos | done].
  - apply Qcle_by_diff.
    replace (Qc_of_Z 100 - (Qc_of_Z 100 - Qc_of_Z 100 / (1 + rs)))
      with (Qc_of_Z 100 / (1 + rs)) by ring.
    apply Qcdiv_nonneg; apply Qclt_le_weak; [apply Qc_100_pos | done].
Qed.

Lemma rsi_value_range (avg_gain avg_loss : Qc) :
  0 ≤ avg_gain → 0 ≤ avg_loss →
  0 ≤ rsi_value avg_gain avg_loss ≤ Qc_of_Z 100.
Proof.
  intros Hg Hl. unfold rsi_value. case_bool_decide as Hz.
  - split; [apply Qclt_le_weak, Qc_100_pos | apply Qcle_refl].
  - apply rsi_from_strength_range. by apply Qcdiv_nonneg.
Qed.

(** X1.  With a period of at least 1 and more prices than the period,
    [calculate_rsi] returns a value, and the value lies between 0 and
    100. *)
Theorem calculate_rsi_range (prices : list Qc) (period : nat) :
  (1 ≤ period)%nat → (period + 1 ≤ length prices)%nat →
  ∃ rsi, calculate_rsi prices period = Return (Some rsi)
         ∧ 0 ≤ rsi ≤ Qc_of_Z 100.
Proof.
  intros Hp Hlen. eexists. split; [by apply calculate_rsi_averages|].
  apply rsi_value_range; apply smoothed_nonneg; try done.
  - apply rsi_gains_nonneg.
  - apply rsi_losses_nonneg.
Qed.

Lemma calculate_rsi_range_witness :
  ∃ rsi, calculate_rsi sample_prices 2 = Return (Some rsi)
         ∧ 0 ≤ rsi ≤ Qc_of_Z 100.
Proof. apply calculate_rsi_range; simpl; lia. Defined.

Lemma rsi_deltas_Forall (P : Qc → Prop) (prices : list Qc) :
  (∀ i a b, prices !! i = Some a → prices !! S i = Some b → P (b - a)) →
  Forall P (rsi_deltas prices).
Proof.
  intros HP. unfold rsi_deltas. apply Forall_forall. intros x Hx.
  apply list_elem_of_fmap in Hx as (i & -> & Hi%elem_of_seq).
  destruct i as [|i]; [lia|]. simpl. rewrite Nat.sub_0_r.
  destruct (lookup_lt_is_Some_2 prices i) as [a Ha]; [lia|].
  destruct (lookup_lt_is_Some_2 prices (S i)) as [b Hb]; [lia|].
  rewrite (nth_lookup_Some _ _ _ _ Ha), (nth_lookup_Some _ _ _ _ Hb).
  by apply (HP i).
Qed.

Lemma rsi_losses_zero (deltas : list Qc) :
  Forall (fun d => 0 ≤ d) deltas → Forall (fun x => x = 0) (rsi_losses deltas).
Proof.
  intros Hd. unfold rsi_losses. apply Forall_fmap.
  eapply Forall_impl; [exact Hd|]. intros d Hpos. simpl.
  by rewrite bool_decide_eq_false_2 by (by apply Qcle_not_lt).
Qed.

Lemma rsi_gains_zero (deltas : list Qc) :
  Forall (fun d => d < 0) deltas → Forall (fun x => x = 0) (rsi_gains deltas).
Proof.
  intros Hd. unfold rsi_gains. apply Forall_fmap.
  eapply Forall_impl; [exact Hd|]. intros d Hneg. simpl.
  by rewrite bool_decide_eq_false_2
    by (apply Qcle_not_lt; by apply Qclt_le_weak).
Qed.

Lemma rsi_losses_pos (deltas : list Qc) :
  Forall (fun d => d < 0) deltas → Forall (fun x => 0 < x) (rsi_losses deltas).
Proof.
  intros Hd. unfold rsi_losses. apply Forall_fmap.
  eapply Forall_impl; [exact Hd|]. intros d Hneg. simpl.
  rewrite bool_decide_eq_true_2 by done.
  apply Qclt_by_diff. replace (- d - 0) with (0 - d) by ring.
  by apply Qclt_minus_iff in Hneg.
Qed.

Lemma rsi_value_no_loss (avg_gain : Qc) : rsi_value avg_gain 0 = Qc_of_Z 100.
Proof. unfold rsi_value. by rewrite bool_decide_eq_true_2. Qed.

Lemma rsi_value_no_gain (avg_loss : Qc) : 0 < avg_loss → rsi_value 0 avg_loss = 0.
Proof.
  intros Hl. unfold rsi_value.
  rewrite bool_decide_eq_false_2
    by (intros ->; by apply Qclt_not_eq in Hl).
  simpl. replace (0 / avg_loss) with 0 by (unfold Qcdiv; ring).
  replace (1 + 0) with 1 by ring.
  unfold Qcdiv. replace (/ 1) with 1 by (by apply Qc_is_canon). ring.
Qed.

(** X2.  Under the same conditions the RSI of prices that never fall is
    exactly 100, and the RSI of prices that fall at every step is
    exactly 0. *)
Theorem calculate_rsi_extremes (prices : list Qc) (period : nat) :
  (1 ≤ period)%nat → (period + 1 ≤ length prices)%nat →
  (never_falls prices → calculate_rsi prices period = Return (Some (Qc_of_Z 100)))
  ∧ (always_falls prices → calculate_rsi prices period = Return (Some 0)).
Proof.
  intros Hp Hlen. rewrite calculate_rsi_averages by done. split.
  - intros Hup. do 2 f_equal.
    rewrite (smoothed_zero _ (rsi_losses _)); [apply rsi_value_no_loss|].
    apply rsi_losses_zero, rsi_deltas_Forall.
    intros i a b Ha Hb. apply Qcdiff_nonneg. by apply (Hup i).
  - intros Hdown. do 2 f_equal.
    assert (Hd : Forall (fun d => d < 0) (rsi_deltas prices)).
    { apply rsi_deltas_Forall. intros i a b Ha Hb.
      pose proof (Hdown i a b Ha Hb) as Hlt.
      apply Qclt_minus_iff in Hlt. apply Qclt_by_diff.
      by replace (0 - (b - a)) with (a + - b) by ring. }
    rewrite (smoothed_zero _ (rsi_gains _)) by (by apply rsi_gains_zero).
    apply rsi_value_no_gain. apply smoothed_pos; [|by apply rsi_losses_pos].
    unfold rsi_losses. rewrite length_map, rsi_deltas_length. lia.
Qed.

Lemma calculate_rsi_extremes_witness :
  calculate_rsi rising_prices 2 = Return (Some (Qc_of_Z 100)).
Proof.
  apply (calculate_rsi_extremes rising_prices 2); [simpl; lia | simpl; lia |].
  intros [|[|[|[|[|i]]]]] a b Ha Hb; simpl in Ha, Hb;
    try discriminate Hb;
    injection Ha as <-; injection Hb as <-; vm_compute; discriminate.
Defined.

(** ** EMA *)

Lemma py_sum_bounds (l : list Qc) (lo hi : Qc) :
  Forall (fun p => lo ≤ p ≤ hi) l →
  Qc_of_nat (length l) * lo ≤ py_sum l ≤ Qc_of_nat (length l) * hi.
Proof.
  induction 1 as [|x l [Hlo Hhi] _ [IHlo IHhi]]; simpl length.
  - rewrite py_sum_nil, Qc_of_nat_0. split; apply Qcle_by_diff;
      (replace (0 - 0 * lo) with 0 by ring || replace (0 * hi - 0) with 0 by ring);
      apply Qcle_refl.
  - rewrite py_sum_cons, Qc_of_nat_S. split; apply Qcle_by_diff.
    + replace (x + py_sum l - (Qc_of_nat (length l) + 1) * lo)
        with ((x - lo) + (py_sum l - Qc_of_nat (length l) * lo)) by ring.
      apply Qcplus_nonneg_nonneg; by apply Qcdiff_nonneg.
    + replace ((Qc_of_nat (length l) + 1) * hi - (x + py_sum l))
        with ((hi - x) + (Qc_of_nat (length l) * hi - py_sum l)) by ring.
      apply Qcplus_nonneg_nonneg; by apply Qcdiff_nonneg.
Qed.

Lemma mean_bounds (l : list Qc) (lo hi : Qc) :
  l ≠ [] → Forall (fun p => lo ≤ p ≤ hi) l →
  lo ≤ py_sum l / Qc_of_nat (length l) ≤ hi.
Proof.
  intros Hne Hl. destruct (py_sum_bounds l lo hi Hl) as [Hlo Hhi].
  assert (Hn : 0 < Qc_of_nat (length l)).
  { apply Qc_of_nat_pos. destruct l; [done | simpl; lia]. }
  assert (Hn0 : Qc_of_nat (length l) ≠ 0).
  { intros H. rewrite H in Hn. by apply Qclt_not_eq in Hn. }
  split; apply Qcle_by_diff.
  - replace (py_sum l / Qc_of_nat (length l) - lo)
      with ((py_sum l - Qc_of_nat (length l) * lo) / Qc_of_nat (length l))
      by (field; done).
    apply Qcdiv_nonneg; [by apply Qcdiff_nonneg | by apply Qclt_le_weak].
  - replace (hi - py_sum l / Qc_of_nat (length l))
      with ((Qc_of_nat (length l) * hi - py_sum l) / Qc_of_nat (length l))
      by (field; done).
    apply Qcdiv_nonneg; [by apply Qcdiff_nonneg | by apply Qclt_le_weak].
Qed.

(** One EMA step is a convex combination when [0 <= multiplier <= 1]. *)
Lemma ema_step_bounds (m ema price lo hi : Qc) :
  0 ≤ m ≤ 1 → lo ≤ ema ≤ hi → lo ≤ price ≤ hi →
  lo ≤ (price - ema) * m + ema ≤ hi.
Proof.
  intros [Hm0 Hm1] [He0 He1] [Hp0 Hp1]. split; apply Qcle_by_diff.
  - replace ((price - ema) * m + ema - lo)
      with (m * (price - lo) + (1 - m) * (ema - lo)) by ring.
    apply Qcplus_nonneg_nonneg; apply Qcmult_nonneg_nonneg;
      try done; by apply Qcdiff_nonneg.
  - replace (hi - ((price - ema) * m + ema))
      with (m * (hi - price) + (1 - m) * (hi - ema)) by ring.
    apply Qcplus_nonneg_nonneg; apply Qcmult_nonneg_nonneg;
      try done; by apply Qcdiff_nonneg.
Qed.

Lemma ema_multiplier_range (period : nat) :
  (1 ≤ period)%nat → 0 ≤ Qc_of_Z 2 / Qc_of_nat (period + 1) ≤ 1.
Proof.
  intros Hp.
  assert (H2 : Qc_of_Z 2 = 1 + 1) by (by apply Qc_is_canon).
  assert (Hpos : 0 < Qc_of_nat (period + 1)) by (apply Qc_of_nat_pos; lia).
  assert (Hne : Qc_of_nat (period + 1) ≠ 0).
  { intros H. rewrite H in Hpos. by apply Qclt_not_eq in Hpos. }
  split.
  - apply Qcdiv_nonneg; [|by apply Qclt_le_weak].
    rewrite H2. apply Qcplus_nonneg_nonneg; by apply Qclt_le_weak, Qclt_alt.
  - apply Qcle_by_diff.
    replace (1 - Qc_of_Z 2 / Qc_of_nat (period + 1))
      with ((Qc_of_nat period - 1) / Qc_of_nat (period + 1)).
    + apply Qcdiv_nonneg; [by apply Qc_of_nat_pred_nonneg | by apply Qclt_le_weak].
    + replace (period + 1)%nat with (S period) in * by lia.
      rewrite Qc_of_nat_S in *. rewrite H2. field. done.
Qed.

(** X3.  With a period of at least 1 and at least [period + 20] prices,
    [calculate_ema] returns a value, and in exact arithmetic the value
    lies between any two bounds that enclose every price.  (In binary64
    each step rounds, and the value can pass a bound by the rounding
    error: the EMA of prices all equal to 0.1 is 0.10000000000000002.) *)
Theorem calculate_ema_within_price_range
    (prices : list Qc) (period : nat) (lo hi : Qc) :
  (1 ≤ period)%nat → (period + 20 ≤ length prices)%nat →
  Forall (fun p => lo ≤ p ≤ hi) prices →
  ∃ ema, calculate_ema prices period = Return (Some ema) ∧ lo ≤ ema ≤ hi.
Proof.
  intros Hp Hlen Hall. unfold calculate_ema.
  rewrite bool_decide_eq_false_2 by lia.
  rewrite py_div_pos by done. simpl. eexists. split; [reflexivity|].
  assert (Hseed : lo ≤ py_sum (take period prices) / Qc_of_nat period ≤ hi).
  { replace (Qc_of_nat period)
      with (Qc_of_nat (length (take period prices)))
      by (by rewrite length_take_le by lia).
    apply mean_bounds; [|by apply Forall_take].
    destruct prices; simpl in *; [lia|]. destruct period; [lia | done]. }
  revert Hseed. generalize (py_sum (take period prices) / Qc_of_nat period).
  assert (Hrest : Forall (fun p => lo ≤ p ≤ hi) (drop period prices))
    by (by apply Forall_drop).
  induction Hrest as [|price rest Hprice _ IH]; intros ema Hema; simpl; [done|].
  apply IH. apply ema_step_bounds; [by apply ema_multiplier_range | done | done].
Qed.

Lemma calculate_ema_within_price_range_witness :
  ∃ ema, calculate_ema flat_closes 21 = Return (Some ema)
         ∧ Qc_of_Z 100 ≤ ema ≤ Qc_of_Z 100.
Proof.
  apply calculate_ema_within_price_range.
  - simpl. lia.
  - simpl. lia.
  - apply Forall_replicate. split; apply Qcle_refl.
Defined.

(** ** ATR *)

Lemma mapM_py_Return_inv {A B} (f : A → py B) (l : list A) (ys : list B) :
  mapM f l = Return ys → Forall2 (fun x y => f x = Return y) l ys.
Proof.
  revert ys. induction l as [|x l IH]; intros ys; simpl.
  - intros [= <-]. constructor.
  - intros (y & Hy & H)%py_bind_Return.
    apply py_bind_Return in H as (k & Hk & [= <-]).
    constructor; [done | by apply IH].
Qed.

Lemma py_max_ge_r (x y : Qc) : y ≤ py_max x y.
Proof.
  unfold py_max. case_bool_decide as H; [apply Qcle_refl | by apply Qcnot_lt_le].
Qed.

Lemma true_range_nonneg (highs lows closes : list Qc) (i : nat) (tr : Qc) :
  true_range highs lows closes i = Return tr → 0 ≤ tr.
Proof.
  unfold true_range.
  intros (h & _ & H)%py_bind_Return.
  apply py_bind_Return in H as (l & _ & H).
  apply py_bind_Return in H as (c & _ & [= <-]).
  eapply Qcle_trans; [apply Qcabs.Qcabs_nonneg | apply py_max_ge_r].
Qed.

Lemma true_ranges_nonneg (highs lows closes trs : list Qc) :
  true_ranges highs lows closes = Return trs →
  length trs = (length closes - 1)%nat ∧ Forall (fun tr => 0 ≤ tr) trs.
Proof.
  unfold true_ranges. intros H%mapM_py_Return_inv. split.
  - rewrite <- (Forall2_length _ _ _ H). apply length_seq.
  - eapply Forall2_Forall_r; [exact H|]. apply Forall_forall.
    intros i _ tr Htr. by eapply true_range_nonneg.
Qed.

Lemma nth_nonneg (l : list Qc) (i : nat) :
  Forall (fun x => 0 ≤ x) l → 0 ≤ nth i l 0.
Proof.
  intros Hl. revert i. induction Hl as [|x l Hx _ IH]; intros [|i]; simpl;
    try done; apply Qcle_refl.
Qed.

Lemma wilder_step_nonneg (period : nat) (avg x : Qc) :
  (1 ≤ period)%nat → 0 ≤ avg → 0 ≤ x → 0 ≤ wilder_step period avg x.
Proof. apply wilder_nonneg. Qed.

(** The series loop keeps its running value as the last item, and adds one
    item for each index. *)
Lemma atr_series_fold (period : nat) (trs : list Qc) (idx : list nat)
    (atr : Qc) (atr_values : list Qc) :
  let r := fold_left
    (fun '(atr, atr_values) i =>
       let atr := wilder_step period atr (nth i trs 0) in
       (atr, atr_values ++ (atr :: nil)))
    idx (atr, atr_values) in
  r.1 = fold_left (fun atr i => wilder_step period atr (nth i trs 0)) idx atr
  ∧ length r.2 = (length atr_values + length idx)%nat
  ∧ (last atr_values = Some atr → last r.2 = Some r.1)
  ∧ ((1 ≤ period)%nat → Forall (fun x => 0 ≤ x) trs → 0 ≤ atr →
     Forall (fun x => 0 ≤ x) atr_values → Forall (fun x => 0 ≤ x) r.2).
Proof.
  revert atr atr_values.
  induction idx as [|i idx IH]; intros atr atr_values; cbv zeta; simpl.
  - repeat split; try done; lia.
  - pose proof (IH (wilder_step period atr (nth i trs 0))
                  (atr_values ++ [wilder_step period atr (nth i trs 0)]))
      as Hfold.
    cbv zeta in Hfold. destruct Hfold as (H1 & H2 & H3 & H4).
    split; [exact H1|]. split; [|split].
    + rewrite H2, length_app. simpl. lia.
    + intros _. apply H3. by rewrite last_snoc.
    + intros Hp Htrs Ha Hv.
      assert (0 ≤ wilder_step period atr (nth i trs 0)).
      { apply wilder_step_nonneg; [done | done | by apply nth_nonneg]. }
      apply H4; try done. apply Forall_app. split; [done|]. by constructor.
Qed.

(** X4.  [calculate_atr] and [compute_atr_series] agree on every input:
    the ATR is the last value of the series, and there is no ATR exactly
    when the series is empty; one raises where the other does. *)
Theorem calculate_atr_is_last_of_series
    (highs lows closes : list Qc) (period : nat) :
  calculate_atr highs lows closes period
  = (atr_values ← compute_atr_series highs lows closes period;
     Return (last atr_values)).
Proof.
  unfold calculate_atr, compute_atr_series.
  case_bool_decide; [done|].
  destruct (true_ranges highs lows closes) as [trs|e]; [|done]. simpl.
  case_bool_decide; [done|].
  destruct (py_div (py_sum (take period trs)) period) as [atr|e]; [|done]. simpl.
  pose proof (atr_series_fold period trs (seq period (length trs - period))
                atr [atr]) as Hfold.
  cbv zeta in Hfold. destruct Hfold as (H1 & _ & H3 & _).
  rewrite H3 by done. by rewrite H1.
Qed.

(** X5.  For lists of one length and a period of at least 1,
    [compute_atr_series] returns [len(closes) - period] values (none when
    the closes are too few), and none of them is negative. *)
Theorem compute_atr_series_length_and_sign
    (highs lows closes : list Qc) (period : nat) :
  length highs = length closes → length lows = length closes →
  (1 ≤ period)%nat →
  ∃ atr_values,
    compute_atr_series highs lows closes period = Return atr_values
    ∧ length atr_values = (length closes - period)%nat
    ∧ Forall (fun atr => 0 ≤ atr) atr_values.
Proof.
  intros Hh Hl Hp. unfold compute_atr_series.
  case_bool_decide as Hlen.
  { exists []. repeat split; [simpl; lia | constructor]. }
  destruct (true_ranges_defined highs lows closes Hh Hl) as [trs Htrs].
  rewrite Htrs. simpl.
  apply true_ranges_nonneg in Htrs as [Hlen_trs Hpos].
  rewrite bool_decide_eq_false_2 by lia.
  rewrite py_div_pos by done. simpl.
  set (seed := py_sum (take period trs) / Qc_of_nat period).
  assert (Hseed : 0 ≤ seed).
  { apply Qcdiv_nonneg; [|apply Qc_of_nat_nonneg].
    apply py_sum_nonneg. by apply Forall_take. }
  pose proof (atr_series_fold period trs (seq period (length trs - period))
                seed [seed]) as Hfold.
  cbv zeta in Hfold. destruct Hfold as (_ & H2 & _ & H4).
  eexists. split; [reflexivity|]. split.
  - rewrite H2, length_seq. simpl. lia.
  - apply H4; try done. by constructor.
Qed.

Lemma compute_atr_series_length_and_sign_witness :
  ∃ atr_values,
    compute_atr_series flat_highs flat_lows flat_closes 14 = Return atr_values
    ∧ length atr_values = (length flat_closes - 14)%nat
    ∧ Forall (fun atr => 0 ≤ atr) atr_values.
Proof.
  apply compute_atr_series_length_and_sign; [reflexivity | reflexivity | lia].
Defined.

(** ** Trend results *)

Lemma clamp_unit_interval (x : Qc) : 0 ≤ py_max 0 (py_min 1 x) ≤ 1.
Proof.
  unfold py_max, py_min. repeat case_bool_decide; repeat split;
    try apply Qcle_refl; try (by apply Qclt_le_weak);
    try (by apply Qcnot_lt_le); by apply Qclt_le_weak, Qclt_alt.
Qed.

(** X9.  Whenever [classify_trend] returns a result, there were at least
    [length] closes, the confidence lies between 0 and 1 and the ATR is at
    least [1e-12]; an [Uptrend] or [Downtrend] has a normalized slope
    beyond the slope threshold in its direction, a determination of at
    least the R² threshold, and is not within the sideways band.  This
    holds of whatever slope and intercept [np.polyfit] returns. *)
Theorem classify_trend_result_invariants
    (np_polyfit : list Qc → list Qc → py (Qc * Qc))
    (closes highs lows : list Qc) (cfg : lr_config) (r : trend_result) :
  classify_trend_with np_polyfit closes highs lows cfg = Return (Some r) →
  (lr_length cfg ≤ length closes)%nat
  ∧ 0 ≤ confidence r ≤ 1
  ∧ atr_epsilon ≤ atr r
  ∧ (trend r = Uptrend →
       lr_slope_threshold cfg < normalized_slope r
       ∧ lr_r2_threshold cfg ≤ r_squared r
       ∧ lr_sideways_slope_threshold cfg ≤ Qcabs.Qcabs (normalized_slope r))
  ∧ (trend r = Downtrend →
       normalized_slope r < - lr_slope_threshold cfg
       ∧ lr_r2_threshold cfg ≤ r_squared r
       ∧ lr_sideways_slope_threshold cfg ≤ Qcabs.Qcabs (normalized_slope r)).
Proof.
  unfold classify_trend_with. intros (lr & Hlr & H)%py_bind_Return.
  assert (Hlen : is_Some lr → (lr_length cfg ≤ length closes)%nat).
  { unfold calculate_linear_regression_with in Hlr.
    case_bool_decide as Hc; [|lia]. injection Hlr as <-. by intros [? ?]. }
  destruct lr as [[[slope intercept] r2]|]; [|discriminate].
  apply py_bind_Return in H as (atr_series & _ & H).
  destruct (last atr_series) as [current_atr|]; [|discriminate].
  case_bool_decide as Heps; [discriminate|].
  apply py_bind_Return in H as (regime & _ & [= <-]). simpl.
  split; [by apply Hlen|]. split; [apply clamp_unit_interval|].
  split; [by apply Qcnot_lt_le|].
  split.
  - repeat case_bool_decide; simpl; try discriminate; intros _;
      repeat split; try done; try (by apply Qcnot_lt_le).
  - repeat case_bool_decide; simpl; try discriminate; intros _;
      repeat split; try done; try (by apply Qcnot_lt_le).
Qed.

Lemma classify_trend_result_invariants_witness :
  ∃ r, classify_trend flat_closes flat_highs flat_lows default_lr
       = Return (Some r)
       ∧ 0 ≤ confidence r ≤ 1
       ∧ atr_epsilon ≤ atr r.
Proof.
  destruct (classify_trend flat_closes flat_highs flat_lows default_lr)
    as [[r|]|e] eqn:Hrun.
  - exists r. split; [reflexivity|].
    destruct (classify_trend_result_invariants np_polyfit1 _ _ _ _ _ Hrun)
      as (_ & Hc & Ha & _).
    split; [exact Hc | exact Ha].
  - exfalso. vm_compute in Hrun. discriminate Hrun.
  - exfalso. vm_compute in Hrun. discriminate Hrun.
Defined.

(** ** Stochastic oscillator *)

Lemma py_max_ge_l (x y : Qc) : x ≤ py_max x y.
Proof.
  unfold py_max. case_bool_decide as H; [by apply Qclt_le_weak | apply Qcle_refl].
Qed.

Lemma py_min_le_l (x y : Qc) : py_min x y ≤ x.
Proof.
  unfold py_min. case_bool_decide as H; [by apply Qclt_le_weak | apply Qcle_refl].
Qed.

Lemma py_min_le_r (x y : Qc) : py_min x y ≤ y.
Proof.
  unfold py_min. case_bool_decide as H; [apply Qcle_refl | by apply Qcnot_lt_le].
Qed.

Lemma fold_py_max_ge (l : list Qc) (x : Qc) :
  x ≤ fold_left py_max l x ∧ Forall (fun y => y ≤ fold_left py_max l x) l.
Proof.
  revert x. induction l as [|a l IH]; intros x; simpl.
  - split; [apply Qcle_refl | constructor].
  - destruct (IH (py_max x a)) as [H1 H2]. split; [|constructor; [|done]].
    + eapply Qcle_trans; [apply py_max_ge_l | exact H1].
    + eapply Qcle_trans; [apply py_max_ge_r | exact H1].
Qed.

Lemma fold_py_min_le (l : list Qc) (x : Qc) :
  fold_left py_min l x ≤ x ∧ Forall (fun y => fold_left py_min l x ≤ y) l.
Proof.
  revert x. induction l as [|a l IH]; intros x; simpl.
  - split; [apply Qcle_refl | constructor].
  - destruct (IH (py_min x a)) as [H1 H2]. split; [|constructor; [|done]].
    + eapply Qcle_trans; [exact H1 | apply py_min_le_l].
    + eapply Qcle_trans; [exact H1 | apply py_min_le_r].
Qed.

Lemma py_max_list_spec (l : list Qc) :
  l ≠ [] → ∃ m, py_max_list l = Return m ∧ Forall (fun y => y ≤ m) l.
Proof.
  destruct l as [|x l]; [done|]. intros _. eexists. split; [reflexivity|].
  destruct (fold_py_max_ge l x). by constructor.
Qed.

Lemma py_min_list_spec (l : list Qc) :
  l ≠ [] → ∃ m, py_min_list l = Return m ∧ Forall (fun y => m ≤ y) l.
Proof.
  destruct l as [|x l]; [done|]. intros _. eexists. split; [reflexivity|].
  destruct (fold_py_min_le l x). by constructor.
Qed.

(** A full trailing window ends with the item at its index. *)
Lemma window_lookup_last {A} (w i : nat) (l : list A) (x : A) :
  (1 ≤ w)%nat → (w - 1 ≤ i)%nat → l !! i = Some x →
  length (window w i l) = w ∧ window w i l !! (w - 1)%nat = Some x.
Proof.
  intros Hw Hi Hx. pose proof (lookup_lt_Some _ _ _ Hx) as Hlt.
  unfold window. split.
  - rewrite length_take, length_drop. lia.
  - rewrite lookup_take_lt by lia. rewrite lookup_drop.
    by replace (i + 1 - w + (w - 1))%nat with i by lia.
Qed.

Lemma percent_100 : percent (Qc_of_Z 100).
Proof. split; [apply Qclt_le_weak, Qc_100_pos | apply Qcle_refl]. Qed.

Lemma ratio_percent (c lo hi : Qc) :
  lo ≤ c ≤ hi → hi ≠ lo → percent ((c - lo) / (hi - lo) * Qc_of_Z 100).
Proof.
  intros [Hlo Hhi] Hne.
  assert (Hle : lo ≤ hi) by (by eapply Qcle_trans).
  assert (Hpos : 0 < hi - lo).
  { destruct (Qcle_lt_or_eq _ _ (Qcdiff_nonneg _ _ Hle)) as [H|H]; [done|].
    exfalso. apply Hne. symmetry in H.
    replace hi with ((hi - lo) + lo) by ring. rewrite H. ring. }
  assert (Hne0 : hi - lo ≠ 0).
  { intros H. rewrite H in Hpos. by apply Qclt_not_eq in Hpos. }
  split.
  - apply Qcmult_nonneg_nonneg; [|apply Qclt_le_weak, Qc_100_pos].
    apply Qcdiv_nonneg; [by apply Qcdiff_nonneg | by apply Qclt_le_weak].
  - apply Qcle_by_diff.
    replace (Qc_of_Z 100 - (c - lo) / (hi - lo) * Qc_of_Z 100)
      with ((hi - c) / (hi - lo) * Qc_of_Z 100) by (field; done).
    apply Qcmult_nonneg_nonneg; [|apply Qclt_le_weak, Qc_100_pos].
    apply Qcdiv_nonneg; [by apply Qcdiff_nonneg | by apply Qclt_le_weak].
Qed.

Lemma raw_k_percent (highs lows closes : list Qc) (k_period i : nat) :
  length highs = length closes → length lows = length closes →
  (∀ j h l c, highs !! j = Some h → lows !! j = Some l →
              closes !! j = Some c → l ≤ c ≤ h) →
  (1 ≤ k_period)%nat → (k_period - 1 ≤ i < length closes)%nat →
  ∃ v, raw_k highs lows closes k_period i = Return v ∧ percent v.
Proof.
  intros Hh Hl Hbar Hk [Hi Hlt].
  destruct (lookup_lt_is_Some_2 highs i) as [h Hhi]; [lia|].
  destruct (lookup_lt_is_Some_2 lows i) as [l Hli]; [lia|].
  destruct (lookup_lt_is_Some_2 closes i) as [c Hci]; [lia|].
  destruct (Hbar i h l c Hhi Hli Hci) as [Hlc Hch].
  destruct (window_lookup_last k_period i highs h Hk Hi Hhi) as [Hwh Hlh].
  destruct (window_lookup_last k_period i lows l Hk Hi Hli) as [Hwl Hll].
  destruct (py_max_list_spec (window k_period i highs)) as (hh & Hmax & Hge).
  { intros H. rewrite H in Hwh. simpl in Hwh. lia. }
  destruct (py_min_list_spec (window k_period i lows)) as (ll & Hmin & Hle).
  { intros H. rewrite H in Hwl. simpl in Hwl. lia. }
  unfold raw_k. rewrite Hmax. simpl. rewrite Hmin. simpl.
  rewrite (nth_lookup_Some _ _ _ _ Hci).
  case_bool_decide as Heq; eexists; (split; [reflexivity|]).
  - apply percent_100.
  - apply ratio_percent; [|done]. split.
    + eapply Qcle_trans; [|exact Hlc].
      by apply (proj1 (Forall_lookup _ _) Hle _ _ Hll).
    + eapply Qcle_trans; [exact Hch|].
      by apply (proj1 (Forall_lookup _ _) Hge _ _ Hlh).
Qed.

Lemma mapM_py_Forall {A B} (f : A → py B) (P : B → Prop) (l : list A) :
  (∀ x, x ∈ l → ∃ y, f x = Return y ∧ P y) →
  ∃ ys, mapM f l = Return ys ∧ length ys = length l ∧ Forall P ys.
Proof.
  induction l as [|x l IH]; intros Hf; simpl.
  - exists []. by repeat split.
  - destruct (Hf x) as (y & Hy & HP); [left|].
    destruct IH as (ys & Hys & Hlen & HPs); [intros z Hz; apply Hf; by right|].
    rewrite Hy. simpl. rewrite Hys. simpl. eexists. split; [reflexivity|].
    split; [simpl; lia | by constructor].
Qed.

Lemma sma_series_percent (w : nat) (l : list Qc) :
  (1 ≤ w)%nat → Forall percent l →
  ∃ s, sma_series w l = Return s
       ∧ length s = (length l - (w - 1))%nat
       ∧ Forall percent s.
Proof.
  intros Hw Hl. unfold sma_series. destruct w as [|w']; [lia|].
  set (w := S w') in *. eexists. split; [reflexivity|]. split.
  - by rewrite length_map, length_seq.
  - apply Forall_forall. intros x Hx.
    apply list_elem_of_fmap in Hx as (i & -> & Hi%elem_of_seq).
    destruct (lookup_lt_is_Some_2 l i) as [y Hy]; [lia|].
    destruct (window_lookup_last w i l y Hw ltac:(lia) Hy) as [Hlen _].
    rewrite <- Hlen at 2.
    apply mean_bounds.
    + intros H. rewrite H in Hlen. simpl in Hlen. lia.
    + unfold window. by apply Forall_take, Forall_drop.
Qed.

(** X6.  For lists of one length, periods of at least 1 and candles whose
    close lies between the low and the high, [calculate_stochastic] never
    raises; it has no result exactly when there are fewer than
    [k_period + k_smooth + d_smooth - 2] closes, and otherwise %K and %D
    both lie between 0 and 100. *)
Theorem calculate_stochastic_defined_and_bounded
    (highs lows closes : list Qc) (k_period k_smooth d_smooth : nat) :
  length highs = length closes → length lows = length closes →
  (1 ≤ k_period)%nat → (1 ≤ k_smooth)%nat → (1 ≤ d_smooth)%nat →
  (∀ j h l c, highs !! j = Some h → lows !! j = Some l →
              closes !! j = Some c → l ≤ c ≤ h) →
  (calculate_stochastic highs lows closes k_period k_smooth d_smooth
   = Return None
   ↔ (length closes < k_period + k_smooth + d_smooth - 2)%nat)
  ∧ ((k_period + k_smooth + d_smooth - 2 ≤ length closes)%nat →
     ∃ k d,
       calculate_stochastic highs lows closes k_period k_smooth d_smooth
       = Return (Some (k, d))
       ∧ percent k ∧ percent d).
Proof.
  intros Hh Hl Hk Hks Hds Hbar.
  assert (Hrun : (k_period + k_smooth + d_smooth - 2 ≤ length closes)%nat →
     ∃ k d,
       calculate_stochastic highs lows closes k_period k_smooth d_smooth
       = Return (Some (k, d))
       ∧ percent k ∧ percent d).
  { intros Hlen. unfold calculate_stochastic.
    rewrite bool_decide_eq_false_2 by lia.
    destruct (mapM_py_Forall (raw_k highs lows closes k_period) percent
                (seq (k_period - 1) (length closes - (k_period - 1))))
      as (raw & Hraw & Hraw_len & Hraw_pc).
    { intros i Hi%elem_of_seq. apply raw_k_percent; try done. lia. }
    rewrite length_seq in Hraw_len.
    destruct k_period as [|k']; [lia|]. rewrite Hraw. simpl.
    rewrite bool_decide_eq_false_2 by lia.
    destruct (sma_series_percent k_smooth raw Hks Hraw_pc)
      as (sk & Hsk & Hsk_len & Hsk_pc).
    rewrite Hsk. simpl.
    rewrite bool_decide_eq_false_2 by lia.
    destruct (sma_series_percent d_smooth sk Hds Hsk_pc)
      as (dv & Hdv & Hdv_len & Hdv_pc).
    rewrite Hdv. simpl.
    destruct (last sk) as [k|] eqn:Hk_last.
    2: { apply last_None in Hk_last. subst sk. simpl in *. lia. }
    destruct (last dv) as [d|] eqn:Hd_last.
    2: { apply last_None in Hd_last. subst dv. simpl in *. lia. }
    exists k, d. split; [reflexivity|]. split.
    - apply (proj1 (Forall_forall _ _) Hsk_pc).
      apply last_Some in Hk_last as [l' ->]. apply elem_of_app. right. by left.
    - apply (proj1 (Forall_forall _ _) Hdv_pc).
      apply last_Some in Hd_last as [l' ->]. apply elem_of_app. right. by left. }
  split; [|exact Hrun]. split.
  - intros Hnone.
    destruct (decide (length closes < k_period + k_smooth + d_smooth - 2)%nat)
      as [|Hge]; [done|].
    destruct Hrun as (k & d & Hkd & _); [lia|]. rewrite Hkd in Hnone. discriminate.
  - intros Hlt. unfold calculate_stochastic. by rewrite bool_decide_eq_true_2.
Qed.

Lemma calculate_stochastic_defined_and_bounded_witness :
  ∃ k d,
    calculate_stochastic flat_highs flat_lows flat_closes 14 3 3
    = Return (Some (k, d))
    ∧ percent k ∧ percent d.
Proof.
  apply (calculate_stochastic_defined_and_bounded flat_highs flat_lows
           flat_closes 14 3 3); try reflexivity; try lia.
  - intros j h l c Hh Hl Hc.
    apply lookup_replicate in Hh as [-> _].
    apply lookup_replicate in Hl as [-> _].
    apply lookup_replicate in Hc as [-> _].
    split; vm_compute; discriminate.
  - simpl. lia.
Defined.

(** ** Least squares *)














(** ** Wire formats *)

Section ParseFacts.
Variable float_of_str : string → option Qc.

Lemma mapM_py_float_item (k : string) (rows : list json)
    (candles : list (json * json * json)) (proj : json * json * json → json) :
  Forall2 (fun x c => ∃ d, x = JDict d ∧ d !! k = Some (proj c)) rows candles →
  mapM (py_float_item float_of_str k) rows
  = mapM (py_float float_of_str) (proj <$> candles).
Proof.
  induction 1 as [|x c rows candles (d & -> & Hk) _ IH]; [done|].
  rewrite fmap_cons. simpl. rewrite Hk. simpl. by rewrite IH.
Qed.

Lemma parse_rows (kh kl kc : string) (rows : list json)
    (candles : list (json * json * json)) :
  Forall2 (candle_row kh kl kc) rows candles →
  (highs ← mapM (py_float_item float_of_str kh) rows;
   lows ← mapM (py_float_item float_of_str kl) rows;
   closes ← mapM (py_float_item float_of_str kc) rows;
   Some (highs, lows, closes))
  = parsed_candles float_of_str candles.
Proof.
  intros H. unfold parsed_candles, candle_highs, candle_lows, candle_closes.
  rewrite <- (mapM_py_float_item kh rows candles (fun c => c.1.1)),
          <- (mapM_py_float_item kl rows candles (fun c => c.1.2)),
          <- (mapM_py_float_item kc rows candles (fun c => c.2));
    [done | ..];
    (eapply Forall2_impl; [exact H|]);
    intros x c (d & -> & Hh & Hl & Hc); by exists d.
Qed.

Lemma mapM_fields_is_Some (proj : json * json * json → json)
    (candles : list (json * json * json)) :
  is_Some (mapM (py_float float_of_str) (proj <$> candles))
  ↔ Forall (fun c => is_Some (py_float float_of_str (proj c))) candles.
Proof. by rewrite mapM_is_Some, Forall_fmap. Qed.

(** X10.  [parse_ohlc] makes the same of the same candles in each of its
    three wire formats: the dictionary of columns, the rows with the keys
    [high]/[low]/[close], and the rows with the keys [h]/[l]/[c] (taken
    when the first row has no key [close]).  In each it succeeds exactly
    when [float()] accepts every field, and then returns the three lists
    of what [float()] gave. *)
Theorem parse_ohlc_reads_every_format (candles : list (json * json * json)) :
  (∀ d,
      d !! "high" = Some (JList (candle_highs candles)) →
      d !! "low" = Some (JList (candle_lows candles)) →
      d !! "close" = Some (JList (candle_closes candles)) →
      parse_ohlc float_of_str (JDict d) = parsed_candles float_of_str candles)
  ∧ (∀ rows,
      Forall2 (candle_row "high" "low" "close") rows candles →
      parse_ohlc float_of_str (JList rows)
      = parsed_candles float_of_str candles)
  ∧ (∀ rows,
      Forall2 (candle_row "h" "l" "c") rows candles →
      (∀ d rest, rows = JDict d :: rest → d !! "close" = None) →
      parse_ohlc float_of_str (JList rows)
      = parsed_candles float_of_str candles)
  ∧ (is_Some (parsed_candles float_of_str candles)
     ↔ Forall (fun c => is_Some (py_float float_of_str c.1.1)
                        ∧ is_Some (py_float float_of_str c.1.2)
                        ∧ is_Some (py_float float_of_str c.2)) candles).
Proof.
  split; [|split; [|split]].
  - intros d Hh Hl Hc. unfold parse_ohlc. by rewrite Hh, Hl, Hc.
  - intros rows Hrows. pose proof (parse_rows _ _ _ _ _ Hrows) as Hparse.
    destruct Hrows as [|x c rows candles (d & -> & H1 & H2 & H3) Hrest];
      [done|].
    unfold parse_ohlc.
    assert (Hkeys : has_keys ["close"; "high"; "low"] d = true).
    { simpl. rewrite H1, H2, H3.
      by rewrite !bool_decide_eq_true_2 by (by eexists). }
    by rewrite Hkeys.
  - intros rows Hrows Hshort.
    pose proof (parse_rows _ _ _ _ _ Hrows) as Hparse.
    destruct Hrows as [|x c rows candles (d & -> & H1 & H2 & H3) Hrest];
      [done|].
    unfold parse_ohlc.
    assert (Hlong : has_keys ["close"; "high"; "low"] d = false).
    { simpl. rewrite (Hshort d rows eq_refl).
      by rewrite bool_decide_eq_false_2 by (by intros [? ?]). }
    assert (Hkeys : has_keys ["c"; "h"; "l"] d = true).
    { simpl. rewrite H1, H2, H3.
      by rewrite !bool_decide_eq_true_2 by (by eexists). }
    by rewrite Hlong, Hkeys.
  - unfold parsed_candles, candle_highs, candle_lows, candle_closes.
    pose proof (mapM_fields_is_Some (fun c => c.1.1) candles) as Hh.
    pose proof (mapM_fields_is_Some (fun c => c.1.2) candles) as Hl.
    pose proof (mapM_fields_is_Some (fun c => c.2) candles) as Hc.
    rewrite !Forall_and. rewrite <- Hh, <- Hl, <- Hc. clear Hh Hl Hc. split.
    + intros [[[hs ls] cs] H].
      apply bind_Some in H as (h & Hh & H).
      apply bind_Some in H as (l & Hl & H).
      apply bind_Some in H as (c & Hc & _).
      rewrite Hh, Hl, Hc. by repeat split; eexists.
    + intros ([h ->] & [l ->] & [c ->]). by eexists.
Qed.

Lemma parse_rows_length (f1 f2 f3 : json → option Qc) (rows : list json)
    (highs lows closes : list Qc) :
  (highs ← mapM f1 rows; lows ← mapM f2 rows; closes ← mapM f3 rows;
   Some (highs, lows, closes)) = Some (highs, lows, closes) →
  length highs = length rows
  ∧ length lows = length rows
  ∧ length closes = length rows.
Proof.
  intros H.
  apply bind_Some in H as (h & Hh & H).
  apply bind_Some in H as (l & Hl & H).
  apply bind_Some in H as (c & Hc & H).
  injection H as <- <- <-.
  apply length_mapM in Hh, Hl, Hc. repeat split; lia.
Qed.

(** X11.  From a payload in a row format [parse_ohlc] returns three lists
    with one item for each row. *)
Theorem parse_ohlc_rows_same_length (rows : list json)
    (highs lows closes : list Qc) :
  parse_ohlc float_of_str (JList rows) = Some (highs, lows, closes) →
  length highs = length rows
  ∧ length lows = length rows
  ∧ length closes = length rows.
Proof.
  unfold parse_ohlc. destruct rows as [|first rest]; [by intros [= <- <- <-]|].
  destruct first as [| | | | |d]; try discriminate.
  destruct (has_keys ["close"; "high"; "low"] d); [apply parse_rows_length|].
  destruct (has_keys ["c"; "h"; "l"] d); [apply parse_rows_length|].
  discriminate.
Qed.
End ParseFacts.

Lemma parse_ohlc_rows_same_length_witness :
  ∃ highs lows closes,
    parse_ohlc no_numeric_strings (JList sample_rows)
    = Some (highs, lows, closes)
    ∧ length highs = 1%nat ∧ length lows = 1%nat ∧ length closes = 1%nat.
Proof.
  exists [Qc_of_Z 3], [Qc_of_Z 1], [Qc_of_Z 2]. split; [reflexivity|].
  apply (parse_ohlc_rows_same_length no_numeric_strings sample_rows).
  reflexivity.
Defined.

(** ** Query window *)

(** X12.  The window a query asks for ends at the clock reading and spans
    [count] candles of the timeframe: [count * minutes * 60] seconds for a
    recognised number of minutes, and [count] candles of 15 minutes for
    any other, in step with the interval ["Min15"] the query then
    carries. *)
Theorem kline_query_window (minutes count end_time : Z) :
  let q := kline_query (get_interval_str minutes) count end_time in
  p_end q = end_time
  ∧ (p_end q - p_start q)%Z
    = (count * (if bool_decide (minutes ∈ recognized_minutes)
                then minutes * 60 else 900))%Z.
Proof.
  cbv zeta. split; [done|]. unfold kline_query. simpl.
  case_bool_decide as Hin.
  - assert (Hs : default 900%Z
                   (interval_seconds_map !! get_interval_str minutes)
                 = (minutes * 60)%Z).
    { unfold recognized_minutes in Hin.
      repeat (apply elem_of_cons in Hin as [->|Hin]; [reflexivity|]).
      by apply elem_of_nil in Hin. }
    rewrite Hs. lia.
  - rewrite get_interval_str_default by done.
    change (default 900%Z (interval_seconds_map !! "Min15")) with 900%Z. lia.
Qed.

(** ** Well-formed inputs *)

Lemma calculate_rsi_defined (prices : list Qc) (period : nat) :
  (1 ≤ period)%nat → ∃ r, calculate_rsi prices period = Return r.
Proof.
  intros Hp. unfold calculate_rsi. case_bool_decide; [by eexists|].
  rewrite !py_div_pos by done. simpl.
  destruct (fold_left _ _ _). by eexists.
Qed.

Lemma calculate_ema_defined (prices : list Qc) (period : nat) :
  (1 ≤ period)%nat →
  ∃ r, calculate_ema prices period = Return r
       ∧ (is_Some r → prices ≠ []).
Proof.
  intros Hp. unfold calculate_ema. case_bool_decide as Hlen.
  - eexists. split; [done|]. by intros [? ?].
  - rewrite py_div_pos by done. simpl. eexists. split; [done|].
    intros _ ->. simpl in Hlen. lia.
Qed.

Lemma calculate_atr_defined (highs lows closes : list Qc) (period : nat) :
  balanced highs lows closes → (1 ≤ period)%nat →
  ∃ r, calculate_atr highs lows closes period = Return r.
Proof.
  intros [Hh Hl] Hp. unfold calculate_atr. case_bool_decide; [by eexists|].
  destruct (true_ranges_defined highs lows closes Hh Hl) as [trs ->]. simpl.
  case_bool_decide; [by eexists|].
  rewrite py_div_pos by done. simpl. by eexists.
Qed.

Lemma raw_k_defined (highs lows closes : list Qc) (k_period i : nat) :
  balanced highs lows closes →
  (1 ≤ k_period)%nat → (k_period - 1 ≤ i < length closes)%nat →
  ∃ v, raw_k highs lows closes k_period i = Return v.
Proof.
  intros [Hh Hl] Hk [Hi Hlt].
  destruct (lookup_lt_is_Some_2 highs i) as [h Hhi]; [lia|].
  destruct (lookup_lt_is_Some_2 lows i) as [l Hli]; [lia|].
  destruct (window_lookup_last k_period i highs h Hk Hi Hhi) as [Hwh _].
  destruct (window_lookup_last k_period i lows l Hk Hi Hli) as [Hwl _].
  destruct (py_max_list_spec (window k_period i highs)) as (hh & Hmax & _).
  { intros H. rewrite H in Hwh. simpl in Hwh. lia. }
  destruct (py_min_list_spec (window k_period i lows)) as (ll & Hmin & _).
  { intros H. rewrite H in Hwl. simpl in Hwl. lia. }
  unfold raw_k. rewrite Hmax. simpl. rewrite Hmin. simpl.
  case_bool_decide; by eexists.
Qed.

Lemma sma_series_defined (w : nat) (l : list Qc) :
  (1 ≤ w)%nat →
  ∃ s, sma_series w l = Return s ∧ length s = (length l - (w - 1))%nat.
Proof.
  intros Hw. unfold sma_series. destruct w as [|w]; [lia|].
  eexists. split; [reflexivity|]. by rewrite length_map, length_seq.
Qed.

Lemma calculate_stochastic_defined (highs lows closes : list Qc)
    (k_period k_smooth d_smooth : nat) :
  balanced highs lows closes →
  (1 ≤ k_period)%nat → (1 ≤ k_smooth)%nat → (1 ≤ d_smooth)%nat →
  ∃ r, calculate_stochastic highs lows closes k_period k_smooth d_smooth
       = Return r.
Proof.
  intros Hbal Hk Hks Hds. unfold calculate_stochastic.
  case_bool_decide as Hlen; [by eexists|].
  destruct (mapM_py_Forall (raw_k highs lows closes k_period) (fun _ => True)
              (seq (k_period - 1) (length closes - (k_period - 1))))
    as (raw & Hraw & Hraw_len & _).
  { intros i Hi%elem_of_seq.
    destruct (raw_k_defined highs lows closes k_period i) as [v Hv];
      [done | done | lia | by exists v]. }
  rewrite length_seq in Hraw_len.
  destruct k_period as [|k']; [lia|]. rewrite Hraw. simpl.
  case_bool_decide; [by eexists|].
  destruct (sma_series_defined k_smooth raw Hks) as (sk & Hsk & Hsk_len).
  rewrite Hsk. simpl.
  case_bool_decide; [by eexists|].
  destruct (sma_series_defined d_smooth sk Hds) as (dv & Hdv & Hdv_len).
  rewrite Hdv. simpl.
  destruct (last sk) as [k|] eqn:Hk_last.
  2: { apply last_None in Hk_last. subst sk. simpl in *. lia. }
  destruct (last dv) as [d|] eqn:Hd_last.
  2: { apply last_None in Hd_last. subst dv. simpl in *. lia. }
  by eexists.
Qed.

Lemma calculate_linear_regression_defined (closes : list Qc) (len : nat) :
  (2 ≤ len)%nat → ∃ r, calculate_linear_regression closes len = Return r.
Proof.
  intros Hlen. unfold calculate_linear_regression, calculate_linear_regression_with.
  case_bool_decide as Hc; [by eexists|].
  unfold np_polyfit1. rewrite np_arange_length.
  assert (Hy : length (py_last_n len closes) = len).
  { unfold py_last_n. destruct len; [lia|]. rewrite length_drop. lia. }
  rewrite Hy.
  rewrite (bool_decide_eq_false_2 (len = 0%nat)) by lia.
  rewrite (bool_decide_eq_false_2 (len ≠ len)) by (intros Hne; by apply Hne).
  rewrite (bool_decide_eq_false_2
             (Qc_of_nat len * py_sum (map (fun a => a * a) (np_arange len))
              - py_sum (np_arange len) * py_sum (np_arange len) = 0))
    by (by apply polyfit_den_arange_ne_0).
  simpl. by eexists.
Qed.

Lemma classify_trend_defined (closes highs lows : list Qc) (cfg : lr_config) :
  balanced highs lows closes →
  (2 ≤ lr_length cfg)%nat → (1 ≤ lr_atr_length cfg)%nat →
  (1 ≤ lr_volatility_ma_length cfg)%nat →
  ∃ r, classify_trend closes highs lows cfg = Return r.
Proof.
  intros [Hh Hl] Hlen Hatr Hvol. unfold classify_trend, classify_trend_with.
  destruct (calculate_linear_regression_defined closes (lr_length cfg) Hlen)
    as [lr Hlr].
  unfold calculate_linear_regression in Hlr. rewrite Hlr. simpl.
  destruct lr as [[[slope intercept] r2]|]; [|by eexists].
  destruct (compute_atr_series_defined highs lows closes (lr_atr_length cfg)
              Hh Hl Hatr) as [series ->]. simpl.
  destruct (last series) as [current_atr|]; [|by eexists].
  destruct (bool_decide (current_atr < atr_epsilon)); [by eexists|].
  rewrite py_div_pos by done.
  destruct (bool_decide (lr_volatility_ma_length cfg ≤ length series)%nat);
    simpl; by eexists.
Qed.

Lemma main_rsi_alerts_shape (symbol : string) (rsi : option Qc)
    (ob os : Qc) :
  (length (main_rsi_alerts symbol rsi ob os) ≤ 1)%nat
  ∧ Forall (fun n => n_symbol n = symbol) (main_rsi_alerts symbol rsi ob os).
Proof.
  unfold main_rsi_alerts. destruct rsi as [rsi|]; [|by split; [simpl; lia|]].
  repeat case_bool_decide; simpl; split; try lia; by repeat constructor.
Qed.

Lemma web_rsi_alerts_length (rsi : option Qc) (ob os : Qc) :
  (length (web_rsi_alerts rsi ob os) ≤ 1)%nat.
Proof.
  unfold web_rsi_alerts. destruct rsi as [rsi|]; [|simpl; lia].
  repeat case_bool_decide; simpl; lia.
Qed.

Lemma main_stoch_alerts_shape (symbol : string)
    (stoch_k stoch_d ob os : Qc) (method : Z) (ema_long : option Qc)
    (period : nat) (current_price : option Qc) :
  (is_Some ema_long → is_Some current_price) →
  ∃ notes,
    main_stoch_alerts symbol stoch_k stoch_d ob os method ema_long period
      current_price = Return notes
    ∧ (length notes ≤ 1)%nat
    ∧ Forall (fun n => n_symbol n = symbol) notes.
Proof.
  intros Hprice. unfold main_stoch_alerts, main_method1_alerts. cbv zeta.
  destruct (bool_decide (method = 1%Z)).
  { eexists. split; [done|].
    destruct (stoch_is_overbought stoch_k stoch_d ob), (stoch_is_oversold stoch_k stoch_d os); simpl;
      split; try lia; by repeat constructor. }
  destruct (bool_decide (method = 2%Z)).
  2: { exists []. by repeat split; [simpl; lia|]. }
  destruct ema_long as [ema|].
  { destruct Hprice as [p ->]; [by eexists|]. simpl.
    destruct (stoch_is_oversold stoch_k stoch_d os), (stoch_is_overbought stoch_k stoch_d ob); simpl;
      repeat case_bool_decide; simpl;
      (eexists; split; [done|]); simpl; split; try lia;
      try (by repeat constructor).
    exfalso. eapply Qclt_not_le; [eassumption|]. by apply Qclt_le_weak. }
  eexists. split; [done|].
  destruct (stoch_is_overbought stoch_k stoch_d ob), (stoch_is_oversold stoch_k stoch_d os); simpl;
    split; try lia; by repeat constructor.
Qed.

Lemma web_stoch_alerts_shape (stoch_k stoch_d ob os : Qc) (method : Z)
    (ema_long : option Qc) (period : nat) (current_price : option Qc) :
  (is_Some ema_long → is_Some current_price) →
  ∃ alerts,
    web_stoch_alerts stoch_k stoch_d ob os method ema_long period
      current_price = Return alerts
    ∧ (length alerts ≤ 1)%nat.
Proof.
  intros Hprice. unfold web_stoch_alerts, web_method1_alerts. cbv zeta.
  destruct (bool_decide (method = 1%Z)).
  { eexists. split; [done|].
    destruct (stoch_is_overbought stoch_k stoch_d ob), (stoch_is_oversold stoch_k stoch_d os); simpl; lia. }
  destruct (bool_decide (method = 2%Z)).
  2: { exists []. split; [done|simpl; lia]. }
  destruct ema_long as [ema|].
  { destruct Hprice as [p ->]; [by eexists|]. simpl.
    destruct (stoch_is_oversold stoch_k stoch_d os), (stoch_is_overbought stoch_k stoch_d ob); simpl;
      repeat case_bool_decide; simpl;
      (eexists; split; [done|]); simpl; lia. }
  eexists. split; [done|].
  destruct (stoch_is_overbought stoch_k stoch_d ob), (stoch_is_oversold stoch_k stoch_d os); simpl; lia.
Qed.

Lemma web_proximity_alerts_shape (cfg : config) (prices h_data l_data : list Qc)
    (ema_short current_price : option Qc) :
  balanced h_data l_data prices → (1 ≤ ATR_Period cfg)%nat →
  ∃ alerts,
    web_proximity_alerts cfg prices h_data l_data ema_short current_price
    = Return alerts
    ∧ (length alerts ≤ 1)%nat.
Proof.
  intros Hbal Hp. unfold web_proximity_alerts.
  destruct ema_short as [ema|]; [|exists []; split; [done|simpl; lia]].
  destruct current_price as [p|]; [|exists []; split; [done|simpl; lia]].
  destruct (calculate_atr_defined h_data l_data prices (ATR_Period cfg) Hbal Hp)
    as [a ->]. simpl.
  destruct a as [a|]; [|exists []; split; [done|simpl; lia]].
  repeat case_bool_decide; (eexists; split; [done|]); simpl; lia.
Qed.

Lemma last_is_Some {A} (l : list A) : l ≠ [] → is_Some (last l).
Proof.
  intros Hne. destruct (last l) eqn:E; [by eexists|].
  by apply last_None in E.
Qed.

Lemma main_analyse_defined (cfg : config) (symbol : string)
    (prices highs lows : list Qc) :
  well_formed_config cfg → balanced highs lows prices →
  ∃ notes,
    main_analyse cfg symbol prices highs lows = Return notes
    ∧ (length notes ≤ 2)%nat
    ∧ Forall (fun n => n_symbol n = symbol) notes.
Proof.
  intros (Hrsi & Hel & Hes & Hatr & Hk & Hks & Hds & Hlr & Hla & Hlv) Hbal.
  unfold main_analyse.
  destruct (calculate_rsi_defined prices (RSI_Period cfg) Hrsi) as [rsi ->].
  simpl.
  destruct (calculate_ema_defined prices (EMA_Long_Period cfg) Hel)
    as (ema_long & -> & Hema).
  simpl.
  destruct (calculate_ema_defined prices (EMA_Short_Period cfg) Hes)
    as (ema_short & -> & _).
  simpl.
  destruct (calculate_atr_defined highs lows prices (ATR_Period cfg) Hbal Hatr)
    as [a Ha].
  assert (Hatr' : ∃ a',
    (if bool_decide (is_Some ema_short ∧ is_Some (last prices))
     then calculate_atr highs lows prices (ATR_Period cfg)
     else Return None) = Return a').
  { case_bool_decide; by eexists. }
  destruct Hatr' as [a' ->]. simpl.
  destruct (calculate_stochastic_defined highs lows prices (Stoch_K_Period cfg)
              (Stoch_K_Smooth cfg) (Stoch_D_Smooth cfg) Hbal Hk Hks Hds)
    as [kd Hkd].
  assert (Hstoch : ∃ notes,
    (if bool_decide (highs ≠ [] ∧ lows ≠ []) then
       kd ← calculate_stochastic highs lows prices (Stoch_K_Period cfg)
              (Stoch_K_Smooth cfg) (Stoch_D_Smooth cfg);
       match kd with
       | Some (stoch_k, stoch_d) =>
           main_stoch_alerts symbol stoch_k stoch_d (Stoch_Overbought cfg)
             (Stoch_Oversold cfg) (Stoch_Alert_Method cfg) ema_long
             (EMA_Long_Period cfg) (last prices)
       | None => Return []
       end
     else Return []) = Return notes
    ∧ (length notes ≤ 1)%nat
    ∧ Forall (fun n => n_symbol n = symbol) notes).
  { case_bool_decide; [|exists []; by repeat split; [simpl; lia|]].
    rewrite Hkd. simpl. destruct kd as [[k d]|].
    - apply main_stoch_alerts_shape. intros Hsome. by apply last_is_Some, Hema.
    - exists []. by repeat split; [simpl; lia|]. }
  destruct Hstoch as (stoch & -> & Hlen & Hsym). simpl.
  destruct (classify_trend_defined prices highs lows (LR cfg) Hbal Hlr Hla Hlv)
    as [t ->]. simpl.
  eexists. split; [done|].
  destruct (main_rsi_alerts_shape symbol rsi (RSI_Overbought cfg)
              (RSI_Oversold cfg)) as [Hlen_rsi Hsym_rsi].
  split; [rewrite length_app; lia | by apply Forall_app].
Qed.

Section CycleTotal.
Variable float_of_str : string → option Qc.
Variable w : world.
Variable cfg : config.
Hypothesis Hcfg : well_formed_config cfg.
Hypothesis Hfeed : balanced_feed float_of_str w.

Lemma higher_timeframe_trend_defined (i : nat) (symbol : string) :
  ∃ r, higher_timeframe_trend float_of_str w cfg i symbol = Return r.
Proof.
  unfold higher_timeframe_trend.
  destruct (refreshed_series _ _) as [[[h l] c]|] eqn:E; [|by eexists].
  destruct Hcfg as (_ & _ & _ & _ & _ & _ & _ & Hlr & Hla & Hlv).
  apply classify_trend_defined; try done. by eapply Hfeed.
Qed.

Lemma web_analyse_defined (i : nat) (symbol : string)
    (prices h_data l_data : list Qc) :
  balanced h_data l_data prices →
  ∃ r,
    web_analyse float_of_str w cfg i symbol prices h_data l_data = Return r
    ∧ r_symbol r = symbol
    ∧ r_price r = last prices
    ∧ (length (r_alerts r) ≤ 3)%nat.
Proof.
  intros Hbal.
  destruct Hcfg as (Hrsi & Hel & Hes & Hatr & Hk & Hks & Hds & Hlr & Hla & Hlv).
  unfold web_analyse.
  destruct (calculate_rsi_defined prices (RSI_Period cfg) Hrsi) as [rsi ->].
  simpl.
  destruct (calculate_ema_defined prices (EMA_Long_Period cfg) Hel)
    as (ema_long & -> & Hema).
  simpl.
  destruct (calculate_ema_defined prices (EMA_Short_Period cfg) Hes)
    as (ema_short & -> & _).
  simpl.
  destruct (web_proximity_alerts_shape cfg prices h_data l_data ema_short
              (last prices) Hbal Hatr) as (prox & -> & Hprox).
  simpl.
  destruct (calculate_stochastic_defined h_data l_data prices
              (Stoch_K_Period cfg) (Stoch_K_Smooth cfg) (Stoch_D_Smooth cfg)
              Hbal Hk Hks Hds) as [kd Hkd].
  assert (Hstoch : ∃ alerts,
    (if bool_decide (h_data ≠ [] ∧ l_data ≠ []) then
       kd ← calculate_stochastic h_data l_data prices (Stoch_K_Period cfg)
              (Stoch_K_Smooth cfg) (Stoch_D_Smooth cfg);
       match kd with
       | Some (stoch_k, stoch_d) =>
           web_stoch_alerts stoch_k stoch_d (Stoch_Overbought cfg)
             (Stoch_Oversold cfg) (Stoch_Alert_Method cfg) ema_long
             (EMA_Long_Period cfg) (last prices)
       | None => Return []
       end
     else Return []) = Return alerts
    ∧ (length alerts ≤ 1)%nat).
  { case_bool_decide; [|exists []; split; [done|simpl; lia]].
    rewrite Hkd. simpl. destruct kd as [[k d]|].
    - apply web_stoch_alerts_shape. intros Hsome. by apply last_is_Some, Hema.
    - exists []. split; [done|simpl; lia]. }
  destruct Hstoch as (stoch & -> & Hlen). simpl.
  destruct (classify_trend_defined prices h_data l_data (LR cfg) Hbal Hlr Hla Hlv)
    as [t ->]. simpl.
  assert (Hhtf : ∃ r,
    (if bool_decide (LR_Higher_Timeframe cfg ≠ Timeframe cfg)
     then higher_timeframe_trend float_of_str w cfg i symbol
     else Return None) = Return r).
  { case_bool_decide; [apply higher_timeframe_trend_defined|by eexists]. }
  destruct Hhtf as [htf ->]. simpl.
  eexists. split; [done|]. simpl. repeat split.
  pose proof (web_rsi_alerts_length rsi (RSI_Overbought cfg) (RSI_Oversold cfg)).
  rewrite !length_app. lia.
Qed.
End CycleTotal.

(** ** Cycles that complete *)

Section CycleRuns.
Variable float_of_str : string → option Qc.
Variable w : world.
Variable cfg : config.
Hypothesis Hcfg : well_formed_config cfg.
Hypothesis Hfeed : balanced_feed float_of_str w.

Lemma htf_pass_defined (i : nat) (symbol : string) :
  ∃ r,
    (if bool_decide (LR_Higher_Timeframe cfg ≠ Timeframe cfg)
     then higher_timeframe_trend float_of_str w cfg i symbol
     else Return None) = Return r.
Proof.
  case_bool_decide; [by apply higher_timeframe_trend_defined|by eexists].
Qed.

Lemma main_symbol_defined (i : nat) (symbol : string) (st : main_state) :
  map_Forall (fun _ e => balanced_entry e) (market_data st) →
  ∃ st' alerts,
    main_symbol float_of_str w cfg i symbol st = Return st'
    ∧ map_Forall (fun _ e => balanced_entry e) (market_data st')
    ∧ notifications st' = notifications st ++ alerts
    ∧ (length alerts ≤ 2)%nat
    ∧ Forall (fun n => n_symbol n = symbol) alerts.
Proof.
  intros Hinv. unfold main_symbol.
  set (raw := fetch_kline_data w i symbol (get_interval_str (Timeframe cfg)) 250).
  destruct (refreshed_series float_of_str raw)
    as [[[highs lows] closes]|] eqn:Hfresh; simpl.
  - rewrite lookup_insert_eq. simpl.
    assert (Hbal : balanced highs lows closes) by (by eapply Hfeed).
    destruct (main_analyse_defined cfg symbol closes highs lows Hcfg Hbal)
      as (alerts & -> & Hlen & Hsym). simpl.
    destruct (htf_pass_defined i symbol) as [r ->]. simpl.
    eexists _, alerts. split; [done|]. simpl. repeat split; try done.
    by apply map_Forall_insert_2.
  - destruct (market_data st !! symbol) as [e|] eqn:He; simpl.
    2: { exists {| market_data := market_data st;
                   refreshed_count := refreshed_count st;
                   requests := requests st
                     ++ [(symbol, get_interval_str (Timeframe cfg), 250%nat)];
                   notifications := notifications st;
                   computed := computed st |}, [].
         simpl. rewrite app_nil_r. repeat split; try done. lia. }
    case_bool_decide as Hempty.
    { eexists _, []. split; [done|]. simpl. rewrite app_nil_r.
      repeat split; try done. lia. }
    destruct (e_prices e) as [prices|] eqn:Hp; simpl.
    2: { eexists _, []. split; [done|]. simpl. rewrite app_nil_r.
         repeat split; try done. lia. }
    assert (Hbal : balanced (default [] (e_highs e)) (default [] (e_lows e))
                     prices).
    { specialize (Hinv symbol e He). unfold balanced_entry in Hinv.
      by rewrite Hp in Hinv. }
    destruct (main_analyse_defined cfg symbol prices _ _ Hcfg Hbal)
      as (alerts & -> & Hlen & Hsym). simpl.
    destruct (htf_pass_defined i symbol) as [r ->]. simpl.
    eexists _, alerts. split; [done|]. simpl. repeat split; done.
Qed.

Lemma web_symbol_defined (i : nat) (symbol : string) (st : web_state) :
  ∃ st',
    web_symbol float_of_str w cfg i symbol st = Return st'
    ∧ (∀ s r, results st' !! s = Some r →
         results st !! s = Some r
         ∨ s = symbol ∧ (length (r_alerts r) ≤ 3)%nat).
Proof.
  unfold web_symbol.
  set (raw := fetch_kline_data w i symbol (get_interval_str (Timeframe cfg)) 250).
  destruct (refreshed_series float_of_str raw)
    as [[[highs lows] closes]|] eqn:Hfresh; simpl.
  - assert (Hbal : balanced highs lows closes) by (by eapply Hfeed).
    destruct (web_analyse_defined float_of_str w cfg Hcfg Hfeed i symbol
                closes highs lows Hbal) as (r & -> & _ & _ & Hlen).
    simpl. eexists. split; [done|]. simpl. intros s r'.
    destruct (decide (s = symbol)) as [->|Hne].
    + rewrite lookup_insert_eq. intros [= <-]. by right.
    + rewrite lookup_insert_ne by done. by left.
  - eexists. split; [done|]. simpl. intros s r. by left.
Qed.

End CycleRuns.

(** ** Whole passes *)

Lemma filter_none {A} (P : A → Prop) `{!∀ x, Decision (P x)} (l : list A) :
  Forall (fun x => ¬ P x) l → filter P l = [].
Proof.
  induction 1 as [|x l Hx _ IH]; [done|]. by rewrite filter_cons_False.
Qed.

Lemma sleep_seconds_defined (now_ts timeframe_mins : Z) :
  timeframe_mins ≠ 0%Z → ∃ seconds, sleep_seconds now_ts timeframe_mins = Return seconds.
Proof.
  intros Htf. unfold sleep_seconds, next_interval.
  rewrite bool_decide_eq_false_2 by lia. simpl. by eexists.
Qed.

Section PassesRun.
Variable float_of_str : string → option Qc.
Variable w : world.
Variable cfg : config.
Hypothesis Hcfg : well_formed_config cfg.
Hypothesis Htimeframe : Timeframe cfg ≠ 0%Z.
Hypothesis Hfeed : balanced_feed float_of_str w.

Lemma main_symbols_defined (assets : list string) (i : nat) (st : main_state) :
  map_Forall (fun _ e => balanced_entry e) (market_data st) →
  ∃ st' alerts,
    main_symbols float_of_str w cfg i assets st = Return st'
    ∧ notifications st' = notifications st ++ alerts
    ∧ (∀ symbol,
         length (filter (fun n => n_symbol n = symbol) alerts)
         ≤ 2 * length (filter (fun a => a = symbol) assets))%nat
    ∧ Forall (fun n => n_symbol n ∈ assets) alerts.
Proof.
  revert i st. induction assets as [|a assets IH]; intros i st Hinv; simpl.
  - exists st, []. rewrite app_nil_r. repeat split; try done.
  - destruct (main_symbol_defined float_of_str w cfg Hcfg Hfeed i a st Hinv)
      as (st1 & alerts1 & -> & Hinv1 & Hn1 & Hlen1 & Hsym1). simpl.
    destruct (IH (S i) st1 Hinv1) as (st' & alerts & -> & Hn & Hlen & Hsym).
    exists st', (alerts1 ++ alerts). split; [done|].
    rewrite Hn, Hn1, <- app_assoc. split; [done|]. split.
    + intros symbol. rewrite filter_app, length_app.
      specialize (Hlen symbol).
      destruct (decide (a = symbol)) as [->|Hne].
      * rewrite filter_cons_True by done. simpl.
        pose proof (length_filter (fun n => n_symbol n = symbol) alerts1).
        lia.
      * rewrite filter_cons_False by done.
        rewrite (filter_none (fun n => n_symbol n = symbol) alerts1); [simpl; lia|].
        eapply Forall_impl; [exact Hsym1|]. intros n -> . done.
    + apply Forall_app. split.
      * eapply Forall_impl; [exact Hsym1|]. intros n ->. by left.
      * eapply Forall_impl; [exact Hsym|]. intros n Hin. by right.
Qed.

(** X13.  With every period at least 1, a regression over two points or
    more, a timeframe other than 0, and payloads and cache entries that
    hold one high and one low for each close, a whole pass of the loop of
    [main] completes, the wait for the next interval included: nothing of
    it raises.  For each symbol it sends at most two notifications (one
    for the RSI, one for the stochastic oscillator) each time the symbol
    stands in [Assets], and none for a symbol that does not. *)
Theorem main_pass_completes (file : data_file) (now_ts : Z) :
  map_Forall (fun _ e => balanced_entry e)
    (load_market_data file (Timeframe cfg)) →
  ∃ st file' seconds,
    main_pass float_of_str w cfg file now_ts = Return (st, file', seconds)
    ∧ (∀ symbol,
         length (filter (fun n => n_symbol n = symbol) (notifications st))
         ≤ 2 * length (filter (fun a => a = symbol) (Assets cfg)))%nat
    ∧ Forall (fun n => n_symbol n ∈ Assets cfg) (notifications st).
Proof.
  intros Hinv. unfold main_pass, main_cycle.
  destruct (main_symbols_defined (Assets cfg) 0
              {| market_data := load_market_data file (Timeframe cfg);
                 refreshed_count := 0; requests := []; notifications := [];
                 computed := [] |} Hinv)
    as (st & alerts & -> & Hn & Hlen & Hsym).
  simpl in Hn. subst alerts. simpl.
  destruct (sleep_seconds_defined now_ts (Timeframe cfg) Htimeframe)
    as [seconds Hsleep].
  case_bool_decide; simpl; rewrite Hsleep; simpl;
    eexists _, _, _; (split; [done|]); simpl; by split.
Qed.

Section Running.
Variable running : nat → bool.

Lemma web_symbols_running_defined (assets : list string) (i : nat)
    (st : web_state) :
  ∃ o,
    web_symbols_running float_of_str w cfg running i assets st = Return o
    ∧ (∀ st' s r, o = Some st' → results st' !! s = Some r →
         results st !! s = Some r ∨ (length (r_alerts r) ≤ 3)%nat)
    ∧ (o = None ↔ ∃ k, (k < length assets)%nat ∧ running (i + k) = false).
Proof.
  revert i st. induction assets as [|a assets IH]; intros i st; simpl.
  - exists (Some st). split; [done|]. split.
    + intros st' s r [= <-]. by left.
    + split; [done|]. intros (k & Hk & _). lia.
  - destruct (running i) eqn:Hrun.
    + destruct (web_symbol_defined float_of_str w cfg Hcfg Hfeed i a st)
        as (st1 & -> & H1). simpl.
      destruct (IH (S i) st1) as (o & -> & Ho & Hnone).
      exists o. split; [done|]. split.
      * intros st' s r -> Hr.
        destruct (Ho st' s r eq_refl Hr) as [Hr1|Hlen]; [|by right].
        destruct (H1 s r Hr1) as [H|[_ H]]; [by left | by right].
      * rewrite Hnone. split.
        -- intros (k & Hk & Hf). exists (S k). split; [lia|].
           by replace (i + S k)%nat with (S i + k)%nat by lia.
        -- intros ([|k] & Hk & Hf).
           ++ rewrite Nat.add_0_r in Hf. congruence.
           ++ exists k. split; [lia|].
              by replace (S i + k)%nat with (i + S k)%nat by lia.
    + exists None. split; [done|]. split; [done|]. split; [|done].
      intros _. exists 0%nat. rewrite Nat.add_0_r. split; [lia | done].
Qed.

(** While the flag stays set the loop over the assets is the cycle. *)
Lemma web_symbols_running_always (assets : list string) (i : nat)
    (st : web_state) :
  (∀ k, running k = true) →
  web_symbols_running float_of_str w cfg running i assets st
  = (st' ← web_symbols float_of_str w cfg i assets st; Return (Some st')).
Proof.
  intros Hrun. revert i st. induction assets as [|a assets IH]; intros i st;
    simpl; [done|].
  rewrite Hrun.
  destruct (web_symbol float_of_str w cfg i a st) as [st1|e]; simpl; [|done].
  apply IH.
Qed.

Lemma countdown_None (k i : nat) :
  countdown running k i = None
  ↔ ∃ j, (j < i)%nat ∧ running (k + j) = false.
Proof.
  revert k. induction i as [|i IH]; intros k; simpl.
  - split; [done|]. intros (j & Hj & _). lia.
  - destruct (running k) eqn:Hrun.
    + destruct (countdown running (S k) i) as [rest|] eqn:Hrest; simpl.
      * split; [done|]. intros ([|j] & Hj & Hf).
        -- rewrite Nat.add_0_r in Hf. congruence.
        -- assert (Hex : ∃ j, (j < i)%nat ∧ running (S k + j) = false).
           { exists j. split; [lia|].
             by replace (S k + j)%nat with (k + S j)%nat by lia. }
           apply IH in Hex. congruence.
      * split; [|done]. intros _. apply IH in Hrest as (j & Hj & Hf).
        exists (S j). split; [lia|].
        by replace (k + S j)%nat with (S k + j)%nat by lia.
    + split; [|done]. intros _. exists 0%nat.
      rewrite Nat.add_0_r. split; [lia | done].
Qed.

(** X14.  Under the same conditions a whole pass of the loop of
    [screener_loop] never raises, the wait included, whenever the session
    is stopped or not: it returns exactly when one of its readings of
    [session["running"]] (one before each symbol, one for each second of
    the countdown) finds the flag cleared, and otherwise goes on to the
    next pass; each result then carries at most three alerts: one for the
    RSI, one for the proximity to the short EMA, one for the stochastic
    oscillator. *)
Theorem web_pass_completes (now_ts : Z) :
  ∃ e seconds,
    web_pass float_of_str w cfg running now_ts = Return e
    ∧ sleep_seconds now_ts (Timeframe cfg) = Return seconds
    ∧ (e = returned
       ↔ ∃ k, (k < length (Assets cfg) + Z.to_nat seconds)%nat
              ∧ running k = false)
    ∧ ∀ st seconds_pushed,
        e = next_pass st seconds_pushed →
        ∀ s r, results st !! s = Some r → (length (r_alerts r) ≤ 3)%nat.
Proof.
  unfold web_pass.
  destruct (sleep_seconds_defined now_ts (Timeframe cfg) Htimeframe)
    as [seconds Hsleep].
  destruct (web_symbols_running_defined (Assets cfg) 0
              {| results := ∅; web_refreshed_count := 0;
                 web_requests := []; web_computed := [] |})
    as (o & -> & Ho & Hnone).
  simpl. destruct o as [st|].
  - rewrite Hsleep. simpl.
    assert (Hassets : ¬ ∃ k, (k < length (Assets cfg))%nat
                             ∧ running k = false).
    { intros Hex. by apply Hnone in Hex. }
    pose proof (countdown_None (length (Assets cfg)) (Z.to_nat seconds)) as Hcd.
    destruct (countdown running (length (Assets cfg)) (Z.to_nat seconds))
      as [pushed|].
    + eexists _, seconds. split; [done|]. split; [done|]. split.
      * split; [done|]. intros (k & Hk & Hf). exfalso.
        destruct (decide (k < length (Assets cfg))%nat) as [Hlt|Hge].
        -- apply Hassets. by exists k.
        -- assert (Hex : ∃ j, (j < Z.to_nat seconds)%nat
                              ∧ running (length (Assets cfg) + j) = false).
           { exists (k - length (Assets cfg))%nat. split; [lia|].
             by replace (length (Assets cfg) + (k - length (Assets cfg)))%nat
               with k by lia. }
           apply Hcd in Hex. discriminate.
      * intros st' pushed' [= <- <-] s r Hr.
        destruct (Ho st s r eq_refl Hr) as [H|H]; [|done].
        simpl in H. by rewrite lookup_empty in H.
    + eexists _, seconds. split; [done|]. split; [done|]. split; [|done].
      split; [|done]. intros _.
      destruct (proj1 Hcd eq_refl) as (j & Hj & Hf).
      exists (length (Assets cfg) + j)%nat. split; [lia | done].
  - rewrite Hsleep. eexists _, seconds. split; [done|]. split; [done|].
    split; [|done]. split; [|done]. intros _.
    destruct (proj1 Hnone eq_refl) as (k & Hk & Hf).
    exists k. split; [lia | done].
Qed.
End Running.
End PassesRun.

Lemma main_pass_completes_witness :
  ∃ st file' seconds,
    main_pass no_numeric_strings online DEFAULT_CONFIG
      (FileContent stale_cache) 1700000000 = Return (st, file', seconds)
    ∧ (∀ symbol,
         length (filter (fun n => n_symbol n = symbol) (notifications st))
         ≤ 2 * length (filter (fun a => a = symbol) (Assets DEFAULT_CONFIG)))%nat
    ∧ Forall (fun n => n_symbol n ∈ Assets DEFAULT_CONFIG) (notifications st).
Proof.
  apply main_pass_completes.
  - unfold well_formed_config. simpl. lia.
  - discriminate.
  - intros i symbol interval_str count highs lows closes H.
    vm_compute in H. injection H as <- <- <-. split; reflexivity.
  - intros symbol e He. unfold balanced_entry.
    destruct (e_prices e) as [prices|] eqn:Hp; [|exact I].
    rewrite load_market_data_match in He by reflexivity.
    unfold stale_cache in He. simpl in He.
    apply lookup_insert_Some in He as [[_ <-]|[_ He]].
    + injection Hp as <-. split; reflexivity.
    + apply lookup_insert_Some in He as [[_ <-]|[_ He]].
      * discriminate Hp.
      * rewrite lookup_empty in He. discriminate He.
Defined.

Lemma web_pass_completes_witness :
  ∃ e seconds,
    web_pass no_numeric_strings online DEFAULT_CONFIG (fun _ => true)
      1700000000 = Return e
    ∧ sleep_seconds 1700000000 (Timeframe DEFAULT_CONFIG) = Return seconds
    ∧ (e = returned
       ↔ ∃ k, (k < length (Assets DEFAULT_CONFIG) + Z.to_nat seconds)%nat
              ∧ true = false)
    ∧ ∀ st seconds_pushed,
        e = next_pass st seconds_pushed →
        ∀ s r, results st !! s = Some r → (length (r_alerts r) ≤ 3)%nat.
Proof.
  apply (web_pass_completes no_numeric_strings online DEFAULT_CONFIG).
  - unfold well_formed_config. simpl. lia.
  - discriminate.
  - intros i symbol interval_str count highs lows closes H.
    vm_compute in H. injection H as <- <- <-. split; reflexivity.
Defined.

(** ** What a cycle leaves *)

Section CycleMore.
Variable float_of_str : string → option Qc.
Variable w : world.
Variable cfg : config.

Lemma refreshed_series_closes (raw : option json) (highs lows closes : list Qc) :
  refreshed_series float_of_str raw = Some (highs, lows, closes) →
  is_Some (last closes).
Proof.
  unfold refreshed_series. destruct raw as [raw|]; [|done].
  destruct (py_truthy raw); [|done].
  destruct (parse_ohlc float_of_str raw) as [[[h l] c]|]; [|done].
  case_bool_decide as Hc; [done|]. intros [= <- <- <-].
  destruct (last c) eqn:E; [by eexists|]. by apply last_None in E.
Qed.

Lemma web_analyse_Return (i : nat) (symbol : string)
    (prices h_data l_data : list Qc) (r : web_result) :
  web_analyse float_of_str w cfg i symbol prices h_data l_data = Return r →
  r_symbol r = symbol ∧ r_price r = last prices.
Proof.
  unfold web_analyse.
  intros (? & _ & H)%py_bind_Return.
  apply py_bind_Return in H as (? & _ & H).
  apply py_bind_Return in H as (? & _ & H).
  apply py_bind_Return in H as (? & _ & H).
  apply py_bind_Return in H as (? & _ & H).
  apply py_bind_Return in H as (? & _ & H).
  apply py_bind_Return in H as (? & _ & H).
  by injection H as <-.
Qed.

Lemma web_symbol_inv (i : nat) (symbol : string) (st st' : web_state) :
  web_symbol float_of_str w cfg i symbol st = Return st' →
  match fresh_series float_of_str w cfg i symbol with
  | Some (highs, lows, closes) =>
      ∃ r, results st' = <[symbol := r]> (results st)
           ∧ r_symbol r = symbol ∧ is_Some (r_price r)
           ∧ web_refreshed_count st' = S (web_refreshed_count st)
           ∧ length (web_computed st') = S (length (web_computed st))
  | None =>
      results st' = results st
      ∧ web_refreshed_count st' = web_refreshed_count st
      ∧ length (web_computed st') = length (web_computed st)
  end.
Proof.
  unfold web_symbol, fresh_series.
  destruct (refreshed_series _ _) as [[[highs lows] closes]|] eqn:Hfresh; simpl.
  - intros (r & Hr & [= <-])%py_bind_Return. simpl.
    apply web_analyse_Return in Hr as [Hsym Hprice].
    exists r. repeat split; try done.
    + rewrite Hprice. by eapply refreshed_series_closes.
    + lia.
    + rewrite length_app. simpl. lia.
  - by intros [= <-].
Qed.

Lemma web_symbols_results (assets : list string) (base : nat)
    (st st' : web_state) :
  web_symbols float_of_str w cfg base assets st = Return st' →
  (∀ s r, results st' !! s = Some r →
     results st !! s = Some r
     ∨ (r_symbol r = s ∧ is_Some (r_price r)
        ∧ ∃ j, assets !! j = Some s
               ∧ is_Some (fresh_series float_of_str w cfg (base + j) s)))
  ∧ (∀ s, is_Some (results st !! s) → is_Some (results st' !! s))
  ∧ (∀ j s, assets !! j = Some s →
       is_Some (fresh_series float_of_str w cfg (base + j) s) →
       is_Some (results st' !! s))
  ∧ ∃ n, (n ≤ length assets)%nat
         ∧ web_refreshed_count st' = (web_refreshed_count st + n)%nat
         ∧ length (web_computed st') = (length (web_computed st) + n)%nat.
Proof.
  revert base st. induction assets as [|a assets IH]; intros base st; simpl.
  - intros [= <-]. repeat split; try done.
    + intros s r. by left.
    + exists 0%nat. repeat split; lia.
  - intros (st1 & H1 & Hrest)%py_bind_Return.
    destruct (IH _ _ Hrest) as (Hfrom & Hmono & Hfresh & n & Hn & Hcount & Hlen).
    apply web_symbol_inv in H1.
    destruct (fresh_series float_of_str w cfg base a)
      as [[[highs lows] closes]|] eqn:Ha.
    + destruct H1 as (r & Hres & Hsym & Hprice & Hc1 & Hl1).
      split; [|split; [|split]].
      * intros s r' Hr'. destruct (Hfrom s r' Hr') as [H|(Hs & Hp & j & Hj & Hf)].
        -- rewrite Hres in H. destruct (decide (s = a)) as [->|Hne].
           ++ rewrite lookup_insert_eq in H. injection H as <-.
              right. repeat split; try done. exists 0%nat.
              rewrite Nat.add_0_r, Ha. split; [done|by eexists].
           ++ rewrite lookup_insert_ne in H by done. by left.
        -- right. repeat split; try done. exists (S j). split; [done|].
           by replace (base + S j)%nat with (S base + j)%nat by lia.
      * intros s Hs. apply Hmono. rewrite Hres.
        destruct (decide (s = a)) as [->|Hne].
        -- rewrite lookup_insert_eq. by eexists.
        -- by rewrite lookup_insert_ne.
      * intros [|j] s Hj Hf; simpl in Hj.
        -- injection Hj as ->. apply Hmono. rewrite Hres, lookup_insert_eq.
           by eexists.
        -- apply (Hfresh j s Hj).
           by replace (S base + j)%nat with (base + S j)%nat by lia.
      * exists (S n). repeat split; lia.
    + destruct H1 as (Hres & Hc1 & Hl1).
      split; [|split; [|split]].
      * intros s r' Hr'. destruct (Hfrom s r' Hr') as [H|(Hs & Hp & j & Hj & Hf)].
        -- left. by rewrite <- Hres.
        -- right. repeat split; try done. exists (S j). split; [done|].
           by replace (base + S j)%nat with (S base + j)%nat by lia.
      * intros s Hs. apply Hmono. by rewrite Hres.
      * intros [|j] s Hj Hf; simpl in Hj.
        -- injection Hj as ->. rewrite Nat.add_0_r, Ha in Hf.
           by destruct Hf.
        -- apply (Hfresh j s Hj).
           by replace (S base + j)%nat with (base + S j)%nat by lia.
      * exists n. repeat split; lia.
Qed.

(** X15.  The results of a cycle of [screener_loop] that completes.  A
    symbol has a result exactly when one of its fetches refreshed; the
    result is filed under its own symbol and has a price.  The count of
    refreshed symbols is the number of analyses run, at most one for each
    asset. *)
Theorem web_cycle_results (st : web_state) :
  web_cycle float_of_str w cfg = Return st →
  (∀ s, is_Some (results st !! s)
        ↔ ∃ i, Assets cfg !! i = Some s
               ∧ is_Some (fresh_series float_of_str w cfg i s))
  ∧ (∀ s r, results st !! s = Some r → r_symbol r = s ∧ is_Some (r_price r))
  ∧ web_refreshed_count st = length (web_computed st)
  ∧ (web_refreshed_count st ≤ length (Assets cfg))%nat.
Proof.
  unfold web_cycle. intros H.
  apply web_symbols_results in H
    as (Hfrom & _ & Hfresh & n & Hn & Hcount & Hlen).
  simpl in *. repeat split.
  - intros [r Hr]. destruct (Hfrom s r Hr) as [H|(_ & _ & H)]; [|done].
    by rewrite lookup_empty in H.
  - intros (i & Hi & Hf). by eapply Hfresh.
  - destruct (Hfrom s r H) as [H'|(H' & _)]; [|done].
    by rewrite lookup_empty in H'.
  - destruct (Hfrom s r H) as [H'|(_ & H' & _)]; [|done].
    by rewrite lookup_empty in H'.
  - lia.
  - lia.
Qed.

(** *** The cycle of [main] *)

Lemma main_symbol_count (i : nat) (symbol : string) (st st' : main_state) :
  main_symbol float_of_str w cfg i symbol st = Return st' →
  refreshed_count st'
  = (refreshed_count st
     + match fresh_series float_of_str w cfg i symbol with
       | Some _ => 1
       | None => 0
       end)%nat.
Proof.
  unfold main_symbol, fresh_series.
  destruct (refreshed_series _ _) as [[[highs lows] closes]|]; simpl.
  - rewrite lookup_insert_eq. simpl.
    intros (alerts & _ & H)%py_bind_Return.
    apply py_bind_Return in H as (_ & _ & H). by injection H as <-.
  - destruct (market_data st !! symbol) as [e|]; simpl.
    + case_bool_decide as Hempty.
      * intros [= <-]. simpl. lia.
      * destruct (e_prices e); simpl.
        -- intros (alerts & _ & Hrest)%py_bind_Return.
           apply py_bind_Return in Hrest as (_ & _ & Hrest).
           injection Hrest as <-. simpl. lia.
        -- intros [= <-]. simpl. lia.
    + intros [= <-]. simpl. lia.
Qed.

Lemma main_symbols_count (assets : list string) (base : nat)
    (st st' : main_state) :
  main_symbols float_of_str w cfg base assets st = Return st' →
  (refreshed_count st ≤ refreshed_count st')%nat
  ∧ ((∀ j s, assets !! j = Some s →
        fresh_series float_of_str w cfg (base + j) s = None) →
     refreshed_count st' = refreshed_count st
     ∧ market_data st' = market_data st).
Proof.
  revert base st. induction assets as [|a assets IH]; intros base st; simpl.
  - by intros [= <-].
  - intros (st1 & H1 & Hrest)%py_bind_Return.
    destruct (IH _ _ Hrest) as (Hle & Hnone).
    pose proof (main_symbol_count _ _ _ _ H1) as Hc1.
    apply main_symbol_Return in H1 as (Hmd & _ & _).
    split.
    + destruct (fresh_series float_of_str w cfg base a); lia.
    + intros Hall.
      pose proof (Hall 0%nat a eq_refl) as Ha. rewrite Nat.add_0_r in Ha.
      unfold refreshed_cache in Hmd. rewrite Ha in Hc1, Hmd.
      destruct Hnone as [Hc Hm].
      { intros j s Hj.
        replace (S base + j)%nat with (base + S j)%nat by lia. by apply Hall. }
      split; [lia | congruence].
Qed.

(** X16.  A cycle of [main] in which no fetch refreshes anything leaves
    the data file as it was, whatever it held, and works on what it
    loaded. *)
Theorem main_cycle_nothing_refreshed (file file' : data_file)
    (st : main_state) :
  (∀ i s, Assets cfg !! i = Some s →
          fresh_series float_of_str w cfg i s = None) →
  main_cycle float_of_str w cfg file = Return (st, file') →
  file' = file
  ∧ refreshed_count st = 0%nat
  ∧ market_data st = load_market_data file (Timeframe cfg).
Proof.
  intros Hall Hcycle.
  apply main_cycle_Return
    in Hcycle as (st0 & Hloop & Hcount & _ & _ & _ & Hkeep).
  apply main_symbols_count in Hloop as [_ Hnone].
  destruct Hnone as [Hc Hm]; [done|]. simpl in Hc, Hm.
  destruct (Hkeep Hc) as [-> ->]. done.
Qed.




End CycleMore.

Lemma web_cycle_results_witness :
  ∃ st,
    web_cycle no_numeric_strings online DEFAULT_CONFIG = Return st
    ∧ web_refreshed_count st = length (web_computed st)
    ∧ (web_refreshed_count st ≤ 2)%nat.
Proof.
  destruct (web_cycle no_numeric_strings online DEFAULT_CONFIG)
    as [st|e] eqn:Hrun.
  - exists st. split; [reflexivity|].
    destruct (web_cycle_results _ _ _ _ Hrun) as (_ & _ & Hc & Hle).
    split; [exact Hc | exact Hle].
  - exfalso. vm_compute in Hrun. discriminate Hrun.
Defined.

Lemma main_cycle_nothing_refreshed_witness :
  ∃ st,
    main_cycle no_numeric_strings offline DEFAULT_CONFIG
      (FileContent stale_cache) = Return (st, FileContent stale_cache)
    ∧ refreshed_count st = 0%nat.
Proof.
  destruct (main_cycle no_numeric_strings offline DEFAULT_CONFIG
              (FileContent stale_cache)) as [[st file']|e] eqn:Hrun.
  - destruct (main_cycle_nothing_refreshed no_numeric_strings offline
                DEFAULT_CONFIG (FileContent stale_cache) file' st)
      as (-> & Hc & _).
    + intros i s _. reflexivity.
    + exact Hrun.
    + exists st. split; [reflexivity | exact Hc].
  - exfalso. vm_compute in Hrun. discriminate Hrun.
Defined.


(** ** Event delivery *)

(** X19.  Events pushed one after another to a session with a bounded
    queue never raise and never wait; the queue keeps what it held,
    followed by the new events in order, up to its capacity: what does not
    fit is the newest.  Nothing else in the registry changes. *)
Theorem push_events_keep_oldest (registry : gmap string session)
    (session_id : string) (s : session) (events : list event) :
  registry !! session_id = Some s →
  (0 < maxsize (s_queue s))%Z →
  (Z.of_nat (length (items (s_queue s))) ≤ maxsize (s_queue s))%Z →
  ∃ registry',
    push_events registry session_id events = Return registry'
    ∧ registry' !! session_id
      = Some (with_queue s
                {| maxsize := maxsize (s_queue s);
                   items := take (Z.to_nat (maxsize (s_queue s)))
                              (items (s_queue s) ++ events) |})
    ∧ ∀ other, other ≠ session_id → registry' !! other = registry !! other.
Proof.
  revert registry s. induction events as [|e events IH];
    intros registry s Hs Hpos Hlen; simpl.
  - exists registry. split; [done|]. split; [|done].
    rewrite Hs, app_nil_r, take_ge by lia. by destruct s as [? []].
  - destruct e as [event_type data]. simpl.
    unfold push_event. rewrite Hs. unfold put_nowait.
    rewrite (bool_decide_eq_true_2 (0 < maxsize (s_queue s))%Z) by done.
    simpl. case_bool_decide as Hfull; simpl.
    + destruct (IH registry s Hs Hpos Hlen) as (r' & -> & Hr' & Hframe).
      exists r'. split; [done|]. split; [|done].
      rewrite Hr'. do 3 f_equal.
      rewrite !take_app_le by lia. done.
    + set (s1 := {| s_running := s_running s;
                    s_queue := {| maxsize := maxsize (s_queue s);
                                  items := items (s_queue s)
                                    ++ [ {| ev_type := event_type;
                                            ev_data := data |} ] |};
                    s_config := s_config s; s_data := s_data s |}).
      destruct (IH (<[session_id := s1]> registry) s1) as (r' & -> & Hr' & Hframe).
      * by rewrite lookup_insert_eq.
      * done.
      * simpl. rewrite length_app. simpl. lia.
      * exists r'. split; [done|]. split.
        -- rewrite Hr'. simpl. unfold with_queue. simpl.
           by rewrite <- app_assoc.
        -- intros other Hne. rewrite Hframe by done.
           by rewrite lookup_insert_ne.
Qed.

Lemma push_events_keep_oldest_witness :
  ∃ registry',
    push_events (sessions sample_server) "alice" [heartbeat; heartbeat]
    = Return registry'
    ∧ (items ∘ s_queue) <$> registry' !! "alice"
      = Some [heartbeat; heartbeat].
Proof.
  destruct (push_events_keep_oldest (sessions sample_server) "alice"
              new_session [heartbeat; heartbeat])
    as (registry' & Hrun & Hs & _).
  - reflexivity.
  - simpl. lia.
  - simpl. lia.
  - exists registry'. split; [exact Hrun|]. rewrite Hs. reflexivity.
Defined.

(** X20.  [n] turns of [event_stream] deliver the oldest [n] events of the
    queue in the order they were pushed, each once, then heartbeats; the
    events not yet read stay queued. *)
Theorem event_stream_fifo (q : event_queue) (n : nat) :
  event_stream q n
  = (take n (items q) ++ replicate (n - length (items q)) heartbeat_event,
     {| maxsize := maxsize q; items := drop n (items q) |}).
Proof.
  revert q. induction n as [|n IH]; intros q; simpl.
  - by destruct q.
  - unfold event_stream_step. destruct q as [m [|e rest]]; simpl.
    + rewrite IH. simpl. by rewrite drop_nil, take_nil, Nat.sub_0_r.
    + rewrite IH. done.
Qed.

(** ** Handlers and the sweep *)

Lemma get_session_lookup (registry : gmap string session) (sid : string) :
  (get_session registry sid).1 !! sid = Some (get_session registry sid).2
  ∧ (get_session registry sid).2 = default new_session (registry !! sid)
  ∧ ∀ other, other ≠ sid →
      (get_session registry sid).1 !! other = registry !! other.
Proof.
  unfold get_session. destruct (registry !! sid) as [s|] eqn:Hs; simpl.
  - done.
  - rewrite lookup_insert_eq. repeat split; try done.
    intros other Hne. by rewrite lookup_insert_ne.
Qed.

Lemma lookup_foldr_delete_fst {A B} (m : gmap string A)
    (l : list (string * B)) (sid : string) :
  foldr delete m l.*1 !! sid
  = if bool_decide (sid ∈ l.*1) then None else m !! sid.
Proof.
  case_bool_decide as Hin.
  - by apply lookup_foldr_delete.
  - by apply lookup_foldr_delete_not_elem_of.
Qed.

Lemma stale_ids (srv : server) (now : Qc) (sid : string) :
  sid ∈ (filter (fun p => is_stale srv now p.1 p.2)
           (map_to_list (sessions srv))).*1
  ↔ ∃ s, sessions srv !! sid = Some s ∧ is_stale srv now sid s = true.
Proof.
  rewrite list_elem_of_fmap. split.
  - intros ([sid' s] & -> & Hin). apply list_elem_of_filter in Hin as [Hst Hin].
    apply elem_of_map_to_list in Hin. simpl in *. exists s. split; [done|].
    by destruct (is_stale srv now sid' s).
  - intros (s & Hs & Hst). exists (sid, s). split; [done|].
    apply list_elem_of_filter. split.
    + simpl. by rewrite Hst.
    + by apply elem_of_map_to_list.
Qed.

Lemma cleanup_sessions_lookup (srv : server) (now : Qc) (sid : string) :
  sessions (cleanup_sessions srv now) !! sid
  = (s ← sessions srv !! sid;
     if is_stale srv now sid s then None else Some s)
  ∧ last_active (cleanup_sessions srv now) !! sid
    = match sessions srv !! sid with
      | Some s => if is_stale srv now sid s then None
                  else last_active srv !! sid
      | None => last_active srv !! sid
      end.
Proof.
  unfold cleanup_sessions. simpl. rewrite !lookup_foldr_delete_fst.
  case_bool_decide as Hin.
  - apply stale_ids in Hin as (s & Hs & Hst). rewrite Hs. simpl.
    by rewrite Hst.
  - destruct (sessions srv !! sid) as [s|] eqn:Hs; simpl; [|done].
    destruct (is_stale srv now sid s) eqn:Hst; [|done].
    exfalso. apply Hin, stale_ids. by exists s.
Qed.

(** X23.  One sweep of [cleanup_sessions] removes the sessions that are
    not running and were last active more than 1800 seconds before (a
    session that was never marked active counts as active at time 0), and
    leaves every other session as it is.  It adds nothing. *)
Theorem cleanup_sessions_removes_only_stale (srv : server) (now : Qc) :
  (∀ sid s,
      sessions srv !! sid = Some s →
      s_running s = true
      ∨ now - Qc_of_Z 1800 ≤ default 0 (last_active srv !! sid) →
      sessions (cleanup_sessions srv now) !! sid = Some s
      ∧ last_active (cleanup_sessions srv now) !! sid = last_active srv !! sid)
  ∧ (∀ sid s,
      sessions srv !! sid = Some s →
      s_running s = false →
      default 0 (last_active srv !! sid) < now - Qc_of_Z 1800 →
      sessions (cleanup_sessions srv now) !! sid = None
      ∧ last_active (cleanup_sessions srv now) !! sid = None)
  ∧ (∀ sid,
      sessions srv !! sid = None →
      sessions (cleanup_sessions srv now) !! sid = None).
Proof.
  split; [|split].
  - intros sid s Hs Hkeep.
    destruct (cleanup_sessions_lookup srv now sid) as [-> ->]. rewrite Hs.
    simpl. assert (Hst : is_stale srv now sid s = false).
    { unfold is_stale. destruct Hkeep as [->|Hle]; [done|].
      rewrite bool_decide_eq_false_2; [by rewrite andb_false_r|].
      by apply Qcle_not_lt. }
    by rewrite Hst.
  - intros sid s Hs Hrun Hlt.
    destruct (cleanup_sessions_lookup srv now sid) as [-> ->]. rewrite Hs.
    simpl. assert (Hst : is_stale srv now sid s = true).
    { unfold is_stale. rewrite Hrun. simpl. by apply bool_decide_eq_true_2. }
    by rewrite Hst.
  - intros sid Hs.
    destruct (cleanup_sessions_lookup srv now sid) as [-> _]. by rewrite Hs.
Qed.

Lemma stop_screener_session (srv : server) (sid : string) (t : Qc) :
  sid ≠ "" →
  ∃ s, sessions (stop_screener srv (Some sid) t).1 !! sid = Some s
       ∧ s_running s = false
       ∧ last_active (stop_screener srv (Some sid) t).1 !! sid = Some t.
Proof.
  intros Hsid. unfold stop_screener, py_not_str.
  rewrite (bool_decide_eq_false_2 (sid = "")) by done.
  destruct (get_session (sessions srv) sid) as [registry s]. simpl.
  rewrite !lookup_insert_eq. by eexists.
Qed.

Lemma start_screener_session (srv : server) (sid : string) (cfg : config)
    (t : Qc) :
  sid ≠ "" →
  ∃ s, sessions (start_screener srv (Some sid) (Some cfg) t).1 !! sid = Some s
       ∧ s_running s = true.
Proof.
  intros Hsid. unfold start_screener, py_not_str.
  rewrite (bool_decide_eq_false_2 (sid = "")) by done.
  pose proof (get_session_lookup (sessions srv) sid) as (Hl & _ & _).
  destruct (get_session (sessions srv) sid) as [registry s]. simpl in Hl.
  destruct (s_running s) eqn:Hrun; simpl.
  - by exists s.
  - rewrite lookup_insert_eq. by eexists.
Qed.

(** X24.  A session stopped at the time [t] is removed by a sweep at
    [now] exactly when [t < now - 1800]; a session started is kept by
    every sweep, whatever the times. *)
Theorem stopped_session_expiry (srv : server) (sid : string) (cfg : config)
    (t now : Qc) :
  sid ≠ "" →
  (sessions (cleanup_sessions (stop_screener srv (Some sid) t).1 now) !! sid
   = None ↔ t < now - Qc_of_Z 1800)
  ∧ is_Some
      (sessions
         (cleanup_sessions (start_screener srv (Some sid) (Some cfg) t).1 now)
       !! sid).
Proof.
  intros Hsid. split.
  - destruct (stop_screener_session srv sid t Hsid) as (s & Hs & Hrun & Hla).
    destruct (cleanup_sessions_lookup (stop_screener srv (Some sid) t).1 now sid)
      as [-> _].
    rewrite Hs. unfold is_stale. rewrite Hla. simpl. rewrite Hrun. simpl.
    case_bool_decide; split; done.
  - destruct (start_screener_session srv sid cfg t Hsid) as (s & Hs & Hrun).
    destruct (cleanup_sessions_lookup
                (start_screener srv (Some sid) (Some cfg) t).1 now sid)
      as [-> _].
    rewrite Hs. unfold is_stale. simpl. rewrite Hrun. simpl. by eexists.
Qed.

Lemma stopped_session_expiry_witness :
  sessions (cleanup_sessions
              (stop_screener sample_server (Some "alice") (Qc_of_Z 1000)).1
              (Qc_of_Z 3000)) !! "alice" = None.
Proof.
  apply (stopped_session_expiry sample_server "alice" DEFAULT_CONFIG
           (Qc_of_Z 1000) (Qc_of_Z 3000)).
  - discriminate.
  - vm_compute. reflexivity.
Defined.

Lemma start_screener_idle (srv : server) (sid : string) (cfg : config)
    (t : Qc) :
  sid ≠ "" →
  s_running (default new_session (sessions srv !! sid)) = false →
  start_screener srv (Some sid) (Some cfg) t
  = ({| sessions :=
          <[sid := {| s_running := true;
                      s_queue :=
                        s_queue (default new_session (sessions srv !! sid));
                      s_config := Some cfg; s_data := ∅ |}]> (sessions srv);
        last_active := <[sid := t]> (last_active srv) |}, started).
Proof.
  intros Hsid Hrun. unfold start_screener, py_not_str, get_session.
  rewrite (bool_decide_eq_false_2 (sid = "")) by done.
  destruct (sessions srv !! sid) as [s|]; simpl in *.
  - by rewrite Hrun.
  - by rewrite insert_insert_eq.
Qed.

Lemma start_screener_running (srv : server) (sid : string) (s : session)
    (cfg : config) (t : Qc) :
  sid ≠ "" →
  sessions srv !! sid = Some s → s_running s = true →
  start_screener srv (Some sid) (Some cfg) t
  = ({| sessions := sessions srv;
        last_active := <[sid := t]> (last_active srv) |}, already_running).
Proof.
  intros Hsid Hs Hrun. unfold start_screener, py_not_str, get_session.
  rewrite (bool_decide_eq_false_2 (sid = "")) by done.
  rewrite Hs. simpl. by rewrite Hrun.
Qed.

(** X21.  Starting a session that is not running makes it run on the
    given configuration with empty data; a second start, while it runs,
    answers [already_running] and changes nothing of the registry: the
    second configuration is not taken.  No other session is touched. *)
Theorem start_screener_twice_keeps_first_config (srv : server) (sid : string)
    (first second : config) (t1 t2 : Qc) :
  sid ≠ "" →
  (∀ s, sessions srv !! sid = Some s → s_running s = false) →
  let r1 := start_screener srv (Some sid) (Some first) t1 in
  let r2 := start_screener r1.1 (Some sid) (Some second) t2 in
  r1.2 = started
  ∧ r2.2 = already_running
  ∧ sessions r2.1 = sessions r1.1
  ∧ sessions r1.1 !! sid
    = Some {| s_running := true;
              s_queue := s_queue (default new_session (sessions srv !! sid));
              s_config := Some first; s_data := ∅ |}
  ∧ last_active r2.1 !! sid = Some t2
  ∧ ∀ other, other ≠ sid → sessions r2.1 !! other = sessions srv !! other.
Proof.
  intros Hsid Hidle. cbv zeta.
  assert (Hrun : s_running (default new_session (sessions srv !! sid)) = false).
  { destruct (sessions srv !! sid) as [s|]; simpl; [by apply Hidle | done]. }
  rewrite (start_screener_idle srv sid first t1 Hsid Hrun).
  cbn [fst snd].
  erewrite start_screener_running;
    [|done | cbn [sessions]; apply lookup_insert_eq | done].
  cbn [fst snd sessions last_active].
  rewrite !lookup_insert_eq. repeat split; try done.
  intros other Hne. by rewrite lookup_insert_ne.
Qed.

Lemma start_screener_twice_keeps_first_config_witness :
  (start_screener
     (start_screener sample_server (Some "alice") (Some DEFAULT_CONFIG)
        (Qc_of_Z 1000)).1
     (Some "alice") (Some (sample_config [] 60)) (Qc_of_Z 1001)).2
  = already_running.
Proof.
  apply (start_screener_twice_keeps_first_config sample_server "alice"
           DEFAULT_CONFIG (sample_config [] 60) (Qc_of_Z 1000) (Qc_of_Z 1001)).
  - discriminate.
  - intros s Hs. vm_compute in Hs. injection Hs as <-. reflexivity.
Defined.

(** One push to a bounded queue that is not overfull: the event is
    appended when there is room and dropped otherwise. *)
Lemma push_event_bounded (registry : gmap string session) (sid : string)
    (s : session) (event_type : string) (data : json) :
  registry !! sid = Some s →
  (0 < maxsize (s_queue s))%Z →
  (Z.of_nat (length (items (s_queue s))) ≤ maxsize (s_queue s))%Z →
  push_event registry sid event_type data
  = Return (<[sid := with_queue s
                       {| maxsize := maxsize (s_queue s);
                          items := take (Z.to_nat (maxsize (s_queue s)))
                                     (items (s_queue s)
                                      ++ [ {| ev_type := event_type;
                                              ev_data := data |} ]) |}]>
              registry).
Proof.
  intros Hs Hpos Hlen. unfold push_event, put_nowait. rewrite Hs.
  rewrite (bool_decide_eq_true_2 (0 < maxsize (s_queue s))%Z) by done.
  simpl. case_bool_decide as Hfull; simpl.
  - rewrite take_app_le by lia. rewrite take_ge by lia.
    f_equal. symmetry. apply insert_id. rewrite Hs. f_equal.
    destruct s as [? [? ?] ? ?]. done.
  - rewrite take_ge by (rewrite length_app; simpl; lia). done.
Qed.

(** X22.  [reset_screener] on a session whose queue is bounded and not
    overfull (as every queue [get_session] creates is) never raises: it
    answers [reset_complete], leaves the session stopped with empty data
    and its configuration as before, marks it active at the time of the
    call, and queues the events ["reset"] and ["log"], in this order,
    behind what the queue held, up to the capacity of the queue.  No other
    session is touched. *)
Theorem reset_screener_stops_and_clears (srv : server) (sid : string)
    (now : Qc) :
  sid ≠ "" →
  (0 < maxsize (s_queue (default new_session (sessions srv !! sid))))%Z →
  (Z.of_nat (length (items (s_queue (default new_session
                                       (sessions srv !! sid)))))
   ≤ maxsize (s_queue (default new_session (sessions srv !! sid))))%Z →
  ∃ srv',
    reset_screener srv (Some sid) now = Return (srv', reset_complete)
    ∧ sessions srv' !! sid
      = Some
          {| s_running := false;
             s_queue :=
               {| maxsize :=
                    maxsize (s_queue (default new_session
                                        (sessions srv !! sid)));
                  items :=
                    take (Z.to_nat
                            (maxsize (s_queue (default new_session
                                                 (sessions srv !! sid)))))
                      (items (s_queue (default new_session
                                         (sessions srv !! sid)))
                       ++ reset_events) |};
             s_config := s_config (default new_session (sessions srv !! sid));
             s_data := ∅ |}
    ∧ last_active srv' !! sid = Some now
    ∧ ∀ other, other ≠ sid → sessions srv' !! other = sessions srv !! other.
Proof.
  intros Hsid Hpos Hlen. unfold reset_screener. simpl.
  rewrite (bool_decide_eq_false_2 (sid = "")) by done.
  pose proof (get_session_lookup (sessions srv) sid) as (Hl & Hd & Hother).
  destruct (get_session (sessions srv) sid) as [registry s] eqn:Hget.
  simpl in Hl, Hd, Hother. rewrite <- Hd in *. clear Hd.
  set (m := maxsize (s_queue s)) in *.
  set (s0 := {| s_running := false; s_queue := s_queue s;
                s_config := s_config s; s_data := ∅ |}).
  rewrite (push_event_bounded (<[sid := s0]> registry) sid s0 "reset" (JDict ∅))
    by (by rewrite ?lookup_insert_eq).
  simpl.
  set (q1 := {| maxsize := maxsize (s_queue s);
                items := take (Z.to_nat (maxsize (s_queue s)))
                           (items (s_queue s)
                            ++ [ {| ev_type := "reset"; ev_data := JDict ∅ |} ]) |}).
  rewrite (push_event_bounded
             (<[sid := with_queue s0 q1]> (<[sid := s0]> registry)) sid
             (with_queue s0 q1) "log" reset_log).
  2: { by rewrite lookup_insert_eq. }
  2: { done. }
  2: { simpl. rewrite length_take. fold m. lia. }
  simpl. eexists. split; [done|]. simpl.
  rewrite !lookup_insert_eq. split; [|split; [done|]].
  - unfold with_queue, reset_events. simpl. fold m. do 3 f_equal.
    destruct (decide (length (items (s_queue s)) < Z.to_nat m)%nat) as [Hlt|Hge].
    + rewrite (take_ge (items (s_queue s) ++ [_]))
        by (rewrite length_app; simpl; lia).
      by rewrite <- app_assoc.
    + rewrite (take_app_le (items (s_queue s)) [_]) by lia.
      rewrite (take_app_le (items (s_queue s)) [_; _]) by lia.
      rewrite (take_ge (items (s_queue s))) by lia.
      rewrite take_app_le by lia. by rewrite take_ge by lia.
  - intros other Hne. rewrite !lookup_insert_ne by done. by apply Hother.
Qed.

Lemma reset_screener_stops_and_clears_witness :
  ∃ srv',
    reset_screener sample_server (Some "alice") (Qc_of_Z 2000)
    = Return (srv', reset_complete)
    ∧ (items ∘ s_queue) <$> sessions srv' !! "alice" = Some reset_events
    ∧ s_running <$> sessions srv' !! "alice" = Some false.
Proof.
  destruct (reset_screener_stops_and_clears sample_server "alice"
              (Qc_of_Z 2000)) as (srv' & Hrun & Hs & _).
  - discriminate.
  - vm_compute. reflexivity.
  - vm_compute. discriminate.
  - exists srv'. split; [exact Hrun|]. rewrite Hs. split; reflexivity.
Defined.

(** ** The saved cache *)

Lemma main_cycle_saved_cache_reload_witness :
  ∃ st file',
    main_cycle no_numeric_strings online DEFAULT_CONFIG FileMissing
    = Return (st, file')
    ∧ load_market_data file' 15 = market_data st
    ∧ load_market_data file' 60 = ∅.
Proof.
  destruct (main_cycle no_numeric_strings online DEFAULT_CONFIG FileMissing)
    as [[st file']|e] eqn:Hrun.
  - exists st, file'. split; [reflexivity|].
    destruct (main_cycle_saved_cache_reload no_numeric_strings online
                DEFAULT_CONFIG FileMissing file' st 60 Hrun) as [Hsame Hother].
    + vm_compute in Hrun. injection Hrun as <- _. simpl. lia.
    + split; [exact Hsame|]. apply Hother. discriminate.
  - exfalso. vm_compute in Hrun. discriminate Hrun.
Defined.
